(** * DeCleanup Network (Celo): submission lifecycle, reward ledger and
      leveling helpers

    A shallow embedding of
    - [frontend/src/lib/utils/impact-product.ts] (level names and ranges),
    - the impact-product IPFS upload helpers,
    - [frontend/src/lib/blockchain/contracts.ts] (the client wrapper around
      the Submission contract, and the dashboard actions panel),
    - the leaderboard, [frontend/src/lib/utils/reset-cleanup.ts],
      [frontend/src/lib/blockchain/wagmi.ts], the contract verification
      script with the Ignition module it has to agree with, and
    - the on-chain submission state machine, reward ledger and recyclables
      reserve, which the client calls through its ABI. *)

From stdpp Require Import gmap strings list fin_maps pretty sorting.
From Stdlib Require Import ZArith Lia.
From Stdlib Require HexString QArith.

Open Scope Z_scope.

(** ** impact-product.ts *)

Module ImpactProduct.

(** [export type LevelName = 'Newbie' | 'Pro' | 'Hero' | 'Guardian'] *)
Inductive LevelName := Newbie | Pro | Hero | Guardian.

#[global] Instance LevelName_eq_dec : EqDecision LevelName.
Proof. solve_decision. Defined.

(** [getLevelName(level)]: four guarded returns and a fallback. The
    argument is a JavaScript number; integer counts are modelled by [Z]. *)
Definition getLevelName (level : Z) : LevelName :=
  if (1 <=? level) && (level <=? 3) then Newbie
  else if (4 <=? level) && (level <=? 6) then Pro
  else if (7 <=? level) && (level <=? 9) then Hero
  else if 10 <=? level then Guardian
  else Newbie.

(** [getImpactValueRange(level)] *)
Definition getImpactValueRange (level : Z) : string :=
  if (1 <=? level) && (level <=? 3) then "1-3"
  else if (4 <=? level) && (level <=? 6) then "4-6"
  else if (7 <=? level) && (level <=? 9) then "7-9"
  else if 10 <=? level then "10+"
  else "0".

(** Modelled from the spec: the tier of the Leveling Rule (section 4.4),
    which the client helpers above do not compute. The tier is the
    approved-submission count clamped to the inclusive range 1..10. *)
Definition tier (approvedCount : Z) : Z := Z.min (Z.max approvedCount 1) 10.

Record Level := { level_tier : Z; level_name : LevelName }.

(** Modelled from the spec: [level(approvedCount) -> {tier, name}]; the
    name is the one [getLevelName] gives. *)
Definition level (approvedCount : Z) : Level :=
  {| level_tier := tier approvedCount;
     level_name := getLevelName approvedCount |}.

(** [getImpactProductImagePath(level)]: the local fallback image. *)
Definition getImpactProductImagePath (level : Z) : string :=
  if (level <? 1) || (10 <? level) then "/impact-products/IP1.png"
  else "/impact-products/IP" +:+ pretty level +:+ ".png".

(** [getImpactProductAnimationPath()] *)
Definition getImpactProductAnimationPath : string :=
  "/impact-products/IP10.gif".

(** [process.env.NEXT_PUBLIC_IPFS_GATEWAY || 'https://gateway.pinata.cloud/ipfs/']:
    an unset or empty variable gives the default. *)
Definition ipfsGateway (NEXT_PUBLIC_IPFS_GATEWAY : option string) : string :=
  match NEXT_PUBLIC_IPFS_GATEWAY with
  | Some g =>
      if bool_decide (g = "") then "https://gateway.pinata.cloud/ipfs/" else g
  | None => "https://gateway.pinata.cloud/ipfs/"
  end.

(** [getImpactProductIPFSImageUrl(level, ipfsCid?)]: a missing or empty
    CID falls back to the local path. *)
Definition getImpactProductIPFSImageUrl
    (NEXT_PUBLIC_IPFS_GATEWAY : option string) (level : Z)
    (ipfsCid : option string) : string :=
  match ipfsCid with
  | Some cid =>
      if bool_decide (cid = "") then getImpactProductImagePath level
      else
        let gateway := ipfsGateway NEXT_PUBLIC_IPFS_GATEWAY in
        gateway +:+ cid +:+ "/IP" +:+ pretty level +:+ ".png"
  | None => getImpactProductImagePath level
  end.

(** [getImpactProductIPFSAnimationUrl(ipfsCid?)] *)
Definition getImpactProductIPFSAnimationUrl
    (NEXT_PUBLIC_IPFS_GATEWAY : option string) (ipfsCid : option string)
    : string :=
  match ipfsCid with
  | Some cid =>
      if bool_decide (cid = "") then getImpactProductAnimationPath
      else
        let gateway := ipfsGateway NEXT_PUBLIC_IPFS_GATEWAY in
        gateway +:+ cid +:+ "/IP10.gif"
  | None => getImpactProductAnimationPath
  end.

(** A row of [LEVEL_PROGRESSION]. *)
Record ProgressionRow := {
  row_cleanups : string;
  row_impactValue : string;
  row_level : LevelName
}.

(** [export const LEVEL_PROGRESSION] *)
Definition LEVEL_PROGRESSION : list ProgressionRow :=
  [ {| row_cleanups := "1-3"; row_impactValue := "1-3"; row_level := Newbie |};
    {| row_cleanups := "4-6"; row_impactValue := "4-6"; row_level := Pro |};
    {| row_cleanups := "7-9"; row_impactValue := "7-9"; row_level := Hero |};
    {| row_cleanups := "10+"; row_impactValue := "10+";
       row_level := Guardian |} ].

(** The position of a level name in [LEVEL_PROGRESSION]. *)
Definition progressionIndex (n : LevelName) : option nat :=
  fst <$> list_find (fun r => row_level r = n) LEVEL_PROGRESSION.

End ImpactProduct.

(** ** The on-chain core: submissions, reward ledger, reserve, roles

    The repository holds the callers of the Solidity contracts
    ([contracts.ts] with [SUBMISSION_ABI], the deployment module and the
    scripts) but not the contracts. This module models them from the
    specification of the core (sections 3 to 7): Submission, DCURewardManager
    and RecyclablesReward. Every operation is an atomic transaction: it
    returns an outcome together with the next state, and a failed operation
    returns the state it was given. *)

Module Chain.

Abbreviation Address := N (only parsing).

(** The zero address, used by the ABI for "no referrer". *)
Definition zeroAddress : Address := 0%N.

(** Modelled from the spec: the status of a submission (section 3), the
    enum of the Submission contract. *)
Inductive Status := Pending | Approved | Rejected.

#[global] Instance Status_eq_dec : EqDecision Status.
Proof. solve_decision. Defined.

(** Modelled from the spec: the reward categories of a ledger entry
    (section 3), kept by the reward manager contract. *)
Inductive Category :=
| BaseImpact | Streak | Referral | ImpactReport | VerifierIncentive
| Recyclables.

#[global] Instance Category_eq_dec : EqDecision Category.
Proof. solve_decision. Defined.

#[global] Instance Category_countable : Countable Category.
Proof.
  refine (inj_countable'
    (fun c => match c with
              | BaseImpact => 0 | Streak => 1 | Referral => 2
              | ImpactReport => 3 | VerifierIncentive => 4
              | Recyclables => 5
              end%nat)
    (fun n => match n with
              | 0 => BaseImpact | 1 => Streak | 2 => Referral
              | 3 => ImpactReport | 4 => VerifierIncentive
              | _ => Recyclables
              end%nat) _).
  by intros [].
Defined.

Definition categories : list Category :=
  [BaseImpact; Streak; Referral; ImpactReport; VerifierIncentive;
   Recyclables].

(** Modelled from the spec: the roles of the contract's access control
    (section 3). *)
Inductive Role := DEFAULT_ADMIN | ADMIN | VERIFIER.

#[global] Instance Role_eq_dec : EqDecision Role.
Proof. solve_decision. Defined.

#[global] Instance Role_countable : Countable Role.
Proof.
  refine (inj_countable'
    (fun r => match r with
              | DEFAULT_ADMIN => 0 | ADMIN => 1 | VERIFIER => 2
              end%nat)
    (fun n => match n with
              | 0 => DEFAULT_ADMIN | 1 => ADMIN | _ => VERIFIER
              end%nat) _).
  by intros [].
Defined.

(** Modelled from the spec: the error taxonomy of section 7, standing for
    the reverts of the contracts. *)
Inductive Error :=
| NotFound | InvalidState | Unauthorized | InvalidEvidence | FeeRequired.

#[global] Instance Error_eq_dec : EqDecision Error.
Proof. solve_decision. Defined.

(** Modelled from the spec: the soft signals of section 7, reported to the
    caller by the contracts without failing. *)
Inductive Signal := NothingToClaim | ReserveExhausted.

#[global] Instance Signal_eq_dec : EqDecision Signal.
Proof. solve_decision. Defined.

(** Modelled from the spec: the Submission record of section 3. The
    impact report reference and the referrer are carried as the ABI
    carries them: the empty string and the zero address stand for
    "absent". [hasRecyclables] is derived, see below. *)
Record Submission := {
  id : N;
  submitter : Address;
  beforeEvidenceRef : string;
  afterEvidenceRef : string;
  recyclablesEvidenceRef : option string;
  recyclablesReceiptRef : option string;
  impactReportRef : string;
  referrer : Address;
  latitude : Z;
  longitude : Z;
  createdAt : N;
  status : Status;
  rewarded : bool
}.

(** Modelled from the spec: [hasRecyclables], derived from whether
    recyclables evidence is attached to the record. *)
Definition hasRecyclables (sub : Submission) : bool :=
  bool_decide (is_Some (recyclablesEvidenceRef sub)).

Definition set_status (st : Status) (sub : Submission) : Submission :=
  {| id := id sub; submitter := submitter sub;
     beforeEvidenceRef := beforeEvidenceRef sub;
     afterEvidenceRef := afterEvidenceRef sub;
     recyclablesEvidenceRef := recyclablesEvidenceRef sub;
     recyclablesReceiptRef := recyclablesReceiptRef sub;
     impactReportRef := impactReportRef sub; referrer := referrer sub;
     latitude := latitude sub; longitude := longitude sub;
     createdAt := createdAt sub; status := st; rewarded := rewarded sub |}.

Definition set_rewarded (b : bool) (sub : Submission) : Submission :=
  {| id := id sub; submitter := submitter sub;
     beforeEvidenceRef := beforeEvidenceRef sub;
     afterEvidenceRef := afterEvidenceRef sub;
     recyclablesEvidenceRef := recyclablesEvidenceRef sub;
     recyclablesReceiptRef := recyclablesReceiptRef sub;
     impactReportRef := impactReportRef sub; referrer := referrer sub;
     latitude := latitude sub; longitude := longitude sub;
     createdAt := createdAt sub; status := status sub; rewarded := b |}.

Definition set_recyclables (photoRef receiptRef : string)
    (sub : Submission) : Submission :=
  {| id := id sub; submitter := submitter sub;
     beforeEvidenceRef := beforeEvidenceRef sub;
     afterEvidenceRef := afterEvidenceRef sub;
     recyclablesEvidenceRef := Some photoRef;
     recyclablesReceiptRef := Some receiptRef;
     impactReportRef := impactReportRef sub; referrer := referrer sub;
     latitude := latitude sub; longitude := longitude sub;
     createdAt := createdAt sub; status := status sub;
     rewarded := rewarded sub |}.

(** Modelled from the spec: the FeeConfig of section 3, held by the
    contracts. *)
Record FeeConfig := {
  amount : Z;
  enabled : bool;
  treasury : Address
}.

(** The two actions a fee applies to. *)
Inductive FeeKind := CreationFee | ClaimFee.

(** Modelled from the spec: the approval event of the contract, carrying
    the new status and the submitter (section 4.1). *)
Inductive Event :=
| SubmissionApproved (submissionId : N) (newStatus : Status)
    (owner : Address).

(** Modelled from the spec: the fixed amounts the contracts credit (base
    amount, impact-report bonus, referral amount, recyclables unit
    reward), set at deployment. *)
Record Params := {
  baseReward : Z;
  impactReportBonus : Z;
  referralReward : Z;
  unitReward : Z
}.

(** Modelled from the spec: the Ledger Store (section 2): submissions
    keyed by id with their counter, per-account per-category balances,
    the reserve counters, role assignments and the fee configuration. *)
Record State := {
  submissionCount : N;
  submissions : gmap N Submission;
  ledger : gmap (Address * Category) Z;
  capacity : Z;
  distributed : Z;
  roles : gset (Role * Address);
  creationFee : FeeConfig;
  claimFee : FeeConfig;
  events : list Event
}.

Inductive Reply :=
| RUnit
| RId (newId : N)
| RAmount (transferred : Z).

(** What a transaction reports: it commits with a reply and possibly a
    soft signal, or it fails with an error of the taxonomy. *)
Inductive Outcome :=
| Done (r : Reply) (signal : option Signal)
| Failed (e : Error).

Definition succeeded (o : Outcome) : bool :=
  match o with Done _ _ => true | Failed _ => false end.

(** *** Field updates of the store *)

Definition with_submission (i : N) (sub : Submission) (s : State) : State :=
  {| submissionCount := submissionCount s;
     submissions := <[i := sub]> (submissions s);
     ledger := ledger s; capacity := capacity s;
     distributed := distributed s; roles := roles s;
     creationFee := creationFee s; claimFee := claimFee s;
     events := events s |}.

Definition with_count (n : N) (s : State) : State :=
  {| submissionCount := n; submissions := submissions s;
     ledger := ledger s; capacity := capacity s;
     distributed := distributed s; roles := roles s;
     creationFee := creationFee s; claimFee := claimFee s;
     events := events s |}.

Definition with_ledger (l : gmap (N * Category) Z) (s : State) : State :=
  {| submissionCount := submissionCount s; submissions := submissions s;
     ledger := l; capacity := capacity s;
     distributed := distributed s; roles := roles s;
     creationFee := creationFee s; claimFee := claimFee s;
     events := events s |}.

Definition with_reserve (cap dist : Z) (s : State) : State :=
  {| submissionCount := submissionCount s; submissions := submissions s;
     ledger := ledger s; capacity := cap; distributed := dist;
     roles := roles s;
     creationFee := creationFee s; claimFee := claimFee s;
     events := events s |}.

Definition with_roles (r : gset (Role * N)) (s : State) : State :=
  {| submissionCount := submissionCount s; submissions := submissions s;
     ledger := ledger s; capacity := capacity s;
     distributed := distributed s; roles := r;
     creationFee := creationFee s; claimFee := claimFee s;
     events := events s |}.

Definition with_fee (k : FeeKind) (f : FeeConfig) (s : State) : State :=
  {| submissionCount := submissionCount s; submissions := submissions s;
     ledger := ledger s; capacity := capacity s;
     distributed := distributed s; roles := roles s;
     creationFee :=
       match k with CreationFee => f | ClaimFee => creationFee s end;
     claimFee :=
       match k with ClaimFee => f | CreationFee => claimFee s end;
     events := events s |}.

Definition with_event (e : Event) (s : State) : State :=
  {| submissionCount := submissionCount s; submissions := submissions s;
     ledger := ledger s; capacity := capacity s;
     distributed := distributed s; roles := roles s;
     creationFee := creationFee s; claimFee := claimFee s;
     events := events s ++ [e] |}.

Definition fee_of (k : FeeKind) (s : State) : FeeConfig :=
  match k with CreationFee => creationFee s | ClaimFee => claimFee s end.

(** *** Reads *)

(** Modelled from the spec: [hasRole(role, account) -> bool], a pure read
    of the role assignment. *)
Definition hasRole (r : Role) (a : Address) (s : State) : bool :=
  bool_decide ((r, a) ∈ roles s).

(** Modelled from the spec: the authorization of approve and reject in
    the contract, a holder of ADMIN or of VERIFIER (section 4.1). *)
Definition canVerify (a : Address) (s : State) : bool :=
  hasRole ADMIN a s || hasRole VERIFIER a s.

(** Modelled from the spec: the per-account per-category balance read of
    the ledger surface; a category never credited reads zero. *)
Definition balance (a : Address) (c : Category) (s : State) : Z :=
  default 0 (ledger s !! (a, c)).

(** Modelled from the spec: the sum across all categories of an account,
    which [claim] reads. *)
Definition claimable (a : Address) (s : State) : Z :=
  foldr (fun c acc => balance a c s + acc) 0 categories.

Definition statusOf (i : N) (s : State) : option Status :=
  status <$> submissions s !! i.

(** Modelled from the spec: the count of Approved submissions owned by an
    account, from which the contracts derive the level (sections 2 and
    4.4); counted over the ids allocated so far. *)
Definition approvedCount (a : Address) (s : State) : Z :=
  Z.of_nat (length (filter
    (fun i => match submissions s !! i with
              | Some sub =>
                  bool_decide (submitter sub = a /\ status sub = Approved)
              | None => false
              end = true)
    (N.of_nat <$> seq 0 (N.to_nat (submissionCount s))))).

(** *** Transactions *)

Section Transactions.

Variable p : Params.

(** Modelled from the spec: a credit of the reward manager, adding [amt]
    to one category of one account (categories are additive counters). *)
Definition credit (a : Address) (c : Category) (amt : Z) (s : State)
    : State :=
  with_ledger (<[(a, c) := balance a c s + amt]> (ledger s)) s.

(** Modelled from the spec: [create(submitter, evidence refs, location,
    optional impactReportRef, optional referrer) -> submissionId]
    (section 4.1): allocates the next counter value, stores a Pending
    record and returns the id. [value] is the payment sent along and
    [now] the time of the transaction. *)
Definition create (sender : Address) (beforeRef afterRef : string)
    (lat lng : Z) (impactRef : string) (referrerAddr : Address)
    (value : Z) (now : N) (s : State) : Outcome * State :=
  if bool_decide (beforeRef = "") || bool_decide (afterRef = "")
  then (Failed InvalidEvidence, s)
  else if enabled (creationFee s) && (value <? amount (creationFee s))
  then (Failed FeeRequired, s)
  else
    let newId := submissionCount s in
    let sub :=
      {| id := newId; submitter := sender;
         beforeEvidenceRef := beforeRef; afterEvidenceRef := afterRef;
         recyclablesEvidenceRef := None; recyclablesReceiptRef := None;
         impactReportRef := impactRef; referrer := referrerAddr;
         latitude := lat; longitude := lng; createdAt := now;
         status := Pending; rewarded := false |} in
    (Done (RId newId) None,
     with_count (N.succ newId) (with_submission newId sub s)).

(** Modelled from the spec: [attachRecyclables(id, photoRef,
    receiptRef)]: the references are settable once and only while the
    submission is Pending. *)
Definition attachRecyclables (i : N) (photoRef receiptRef : string)
    (s : State) : Outcome * State :=
  match submissions s !! i with
  | None => (Failed NotFound, s)
  | Some sub =>
      match status sub, recyclablesEvidenceRef sub with
      | Pending, None =>
          (Done RUnit None,
           with_submission i (set_recyclables photoRef receiptRef sub) s)
      | _, _ => (Failed InvalidState, s)
      end
  end.

(** Modelled from the spec: [creditOnApproval(submission)] (section
    4.2): a no-op when [rewarded] is already set; otherwise the base
    amount goes to base-impact, the bonus to impact-report when the
    submission carries an impact report, the referral amount to the
    referrer's entry when a referrer was recorded, and [rewarded] is
    set. *)
Definition creditOnApproval (i : N) (s : State) : State :=
  match submissions s !! i with
  | None => s
  | Some sub =>
      if rewarded sub then s
      else
        let s1 := credit (submitter sub) BaseImpact (baseReward p) s in
        let s2 :=
          if bool_decide (impactReportRef sub = "") then s1
          else credit (submitter sub) ImpactReport (impactReportBonus p) s1 in
        let s3 :=
          if bool_decide (referrer sub = zeroAddress) then s2
          else credit (referrer sub) Referral (referralReward p) s2 in
        with_submission i (set_rewarded true sub) s3
  end.

(** Modelled from the spec: [payoutIfEligible(submission)] (section
    4.3): a single check-and-increment on the reserve; when the
    remainder is below the unit reward nothing is credited and the
    "reserve exhausted" signal is returned. *)
Definition payoutIfEligible (sub : Submission) (s : State)
    : option Signal * State :=
  let remaining := capacity s - distributed s in
  if unitReward p <=? remaining
  then (None,
        credit (submitter sub) Recyclables (unitReward p)
          (with_reserve (capacity s) (distributed s + unitReward p) s))
  else (Some ReserveExhausted, s).

(** Modelled from the spec: [approve(id, actor)] (section 4.1): the
    authorization guard comes first, then the lookup, then the check
    that the submission is Pending; on success the status becomes
    Approved, accrual and the reserve payout run, and the approval
    event is emitted. *)
Definition approve (i : N) (actor : Address) (s : State)
    : Outcome * State :=
  if negb (canVerify actor s) then (Failed Unauthorized, s)
  else
    match submissions s !! i with
    | None => (Failed NotFound, s)
    | Some sub =>
        match status sub with
        | Pending =>
            let s1 := with_submission i (set_status Approved sub) s in
            let s2 := creditOnApproval i s1 in
            let '(sig, s3) :=
              if hasRecyclables sub then payoutIfEligible sub s2
              else (None, s2) in
            (Done RUnit sig,
             with_event (SubmissionApproved i Approved (submitter sub)) s3)
        | _ => (Failed InvalidState, s)
        end
    end.

(** Modelled from the spec: [reject(id, actor)]: same authorization and
    precondition as [approve]; sets the status to Rejected; no reward
    side effects. *)
Definition reject (i : N) (actor : Address) (s : State)
    : Outcome * State :=
  if negb (canVerify actor s) then (Failed Unauthorized, s)
  else
    match submissions s !! i with
    | None => (Failed NotFound, s)
    | Some sub =>
        match status sub with
        | Pending =>
            (Done RUnit None,
             with_submission i (set_status Rejected sub) s)
        | _ => (Failed InvalidState, s)
        end
    end.

(** Modelled from the spec: the debit-all of the reward manager's claim,
    zeroing every category of an account. *)
Definition zeroAll (a : Address) (s : State) : State :=
  with_ledger (foldr (fun c l => <[(a, c) := 0]> l) (ledger s) categories) s.

(** Modelled from the spec: [claim(account) -> amount] (section 4.2):
    reads the sum across all categories, zeroes every category and
    returns the amount; a zero sum is reported as [NothingToClaim] and
    changes nothing. *)
Definition claim (a : Address) (s : State) : Outcome * State :=
  let total := claimable a s in
  if total =? 0 then (Done (RAmount 0) (Some NothingToClaim), s)
  else (Done (RAmount total) None, zeroAll a s).

(** Modelled from the spec: [syncReserve(newCapacity)] (section 4.3):
    privileged (DEFAULT_ADMIN here, as for the treasury and fee
    updates); the capacity is never set below what was distributed. *)
Definition syncReserve (newCapacity : Z) (actor : Address) (s : State)
    : Outcome * State :=
  if negb (hasRole DEFAULT_ADMIN actor s) then (Failed Unauthorized, s)
  else (Done RUnit None,
        with_reserve (Z.max newCapacity (distributed s)) (distributed s) s).

(** Modelled from the spec: [grantRole(role, account, actor)] (section
    4.5): the controlling role of every role is DEFAULT_ADMIN. *)
Definition grantRole (r : Role) (a actor : Address) (s : State)
    : Outcome * State :=
  if negb (hasRole DEFAULT_ADMIN actor s) then (Failed Unauthorized, s)
  else (Done RUnit None, with_roles ({[ (r, a) ]} ∪ roles s) s).

(** Modelled from the spec: [revokeRole(role, account, actor)]. *)
Definition revokeRole (r : Role) (a actor : Address) (s : State)
    : Outcome * State :=
  if negb (hasRole DEFAULT_ADMIN actor s) then (Failed Unauthorized, s)
  else (Done RUnit None, with_roles (roles s ∖ {[ (r, a) ]}) s).

(** Modelled from the spec: [updateTreasury] requires DEFAULT_ADMIN. *)
Definition updateTreasury (k : FeeKind) (payee actor : Address)
    (s : State) : Outcome * State :=
  if negb (hasRole DEFAULT_ADMIN actor s) then (Failed Unauthorized, s)
  else
    let f := fee_of k s in
    (Done RUnit None,
     with_fee k {| amount := amount f; enabled := enabled f;
                   treasury := payee |} s).

(** Modelled from the spec: [setFee] requires DEFAULT_ADMIN. *)
Definition setFee (k : FeeKind) (amt : Z) (on : bool) (actor : Address)
    (s : State) : Outcome * State :=
  if negb (hasRole DEFAULT_ADMIN actor s) then (Failed Unauthorized, s)
  else
    (Done RUnit None,
     with_fee k {| amount := amt; enabled := on;
                   treasury := treasury (fee_of k s) |} s).

(** Modelled from the spec: the mutating calls the contracts accept
    (section 6). *)
Inductive Op :=
| OpCreate (sender : Address) (beforeRef afterRef : string)
    (lat lng : Z) (impactRef : string) (referrerAddr : Address)
    (value : Z) (now : N)
| OpAttachRecyclables (i : N) (photoRef receiptRef : string)
| OpApprove (i : N) (actor : Address)
| OpReject (i : N) (actor : Address)
| OpClaim (a : Address)
| OpSyncReserve (newCapacity : Z) (actor : Address)
| OpGrantRole (r : Role) (a actor : Address)
| OpRevokeRole (r : Role) (a actor : Address)
| OpUpdateTreasury (k : FeeKind) (payee actor : Address)
| OpSetFee (k : FeeKind) (amt : Z) (on : bool) (actor : Address).

Definition exec (o : Op) (s : State) : Outcome * State :=
  match o with
  | OpCreate sender b a lat lng ir rf v now =>
      create sender b a lat lng ir rf v now s
  | OpAttachRecyclables i ph rc => attachRecyclables i ph rc s
  | OpApprove i actor => approve i actor s
  | OpReject i actor => reject i actor s
  | OpClaim a => claim a s
  | OpSyncReserve c actor => syncReserve c actor s
  | OpGrantRole r a actor => grantRole r a actor s
  | OpRevokeRole r a actor => revokeRole r a actor s
  | OpUpdateTreasury k payee actor => updateTreasury k payee actor s
  | OpSetFee k amt on actor => setFee k amt on actor s
  end.

(** Runs a sequence of transactions in order and collects what each
    one reported. *)
Fixpoint run (ops : list Op) (s : State) : list Outcome * State :=
  match ops with
  | [] => ([], s)
  | o :: rest =>
      let '(out, s1) := exec o s in
      let '(outs, s2) := run rest s1 in
      (out :: outs, s2)
  end.

Definition stateAfter (ops : list Op) (s : State) : State :=
  (run ops s).2.

Definition outcomesOf (ops : list Op) (s : State) : list Outcome :=
  (run ops s).1.

End Transactions.

(** Modelled from the spec: the store of the contracts at deployment: no
    submissions, counter 0, an empty ledger, a funded reserve from which
    nothing was paid, the deployer as DEFAULT_ADMIN and treasury, and both
    fees disabled. *)
Definition init (reserveCapacity : Z) (deployer : Address) : State :=
  {| submissionCount := 0%N; submissions := ∅; ledger := ∅;
     capacity := reserveCapacity; distributed := 0;
     roles := {[ (DEFAULT_ADMIN, deployer) ]};
     creationFee := {| amount := 0; enabled := false; treasury := deployer |};
     claimFee := {| amount := 0; enabled := false; treasury := deployer |};
     events := [] |}.

(** The ids returned by the successful creations among some outcomes,
    in order. *)
Definition createdIds (outs : list Outcome) : list N :=
  omap (fun o => match o with Done (RId i) _ => Some i | _ => None end) outs.

End Chain.

(** ** contracts.ts: the client wrapper *)

Module Contracts.
Import Chain.

(** [export enum CleanupStatus { Pending = 0, Approved = 1, Rejected = 2 }] *)
Definition CleanupStatus_Pending : Z := 0.
Definition CleanupStatus_Approved : Z := 1.
Definition CleanupStatus_Rejected : Z := 2.

(** The [uint8] under which the contract returns a status. *)
Definition statusCode (st : Status) : Z :=
  match st with Pending => 0 | Approved => 1 | Rejected => 2 end.

(** [export interface CleanupDetails] *)
Record CleanupDetails := {
  cd_id : N;
  cd_user : Address;
  cd_beforePhotoHash : string;
  cd_afterPhotoHash : string;
  cd_timestamp : N;
  cd_latitude : Z;
  cd_longitude : Z;
  cd_verified : bool;
  cd_claimed : bool;
  cd_rejected : bool;
  cd_level : Z
}.

(** What the module reads from its surroundings: the configured contract
    address ([NEXT_PUBLIC_SUBMISSION_CONTRACT]) and the connected wallet
    ([getAccount(config).address]); either may be missing. *)
Record Env := {
  SUBMISSION_ADDRESS : option Address;
  account_address : option Address
}.

(** The errors the wrapper throws. *)
Inductive Thrown :=
| NotConfigured
| WalletNotConnected
| SubmitFailed (cause : Error)
| ReadFailed (cause : Error).

Inductive Result (A : Type) :=
| Returned (a : A)
| Threw (t : Thrown).
Arguments Returned {A} a.
Arguments Threw {A} t.

(** The [contractConfig] object handed to [writeContract] for
    [createSubmission]: the seven ABI arguments, the sending account and
    the optional [value]. *)
Record CreateSubmissionCall := {
  call_dataURI : string;
  call_beforePhotoHash : string;
  call_afterPhotoHash : string;
  call_impactFormDataHash : string;
  call_lat : Z;
  call_lng : Z;
  call_referrer : Address;
  call_account : Address;
  call_value : option Z
}.

(** The part of [submitCleanup] that prepares the call. [latScaled] and
    [lngScaled] are the coordinates after [Math.round(lat * scale)]; a
    [null] or empty [_referrer] is [None]; an omitted [_fee] is [None].
    The [value] is set only under [_fee && _fee > 0n]. *)
Definition contractConfig (account : Address) (beforeHash afterHash : string)
    (latScaled lngScaled : Z) (_referrer : option Address)
    (_hasImpactForm : bool) (_impactReportHash : string)
    (_fee : option Z) : CreateSubmissionCall :=
  let dataURI := "" in
  let referrer :=
    match _referrer with
    | Some r => if bool_decide (r <> zeroAddress) then r else zeroAddress
    | None => zeroAddress
    end in
  let impactFormDataHash :=
    if _hasImpactForm && negb (bool_decide (_impactReportHash = ""))
    then _impactReportHash else "" in
  {| call_dataURI := dataURI;
     call_beforePhotoHash := beforeHash;
     call_afterPhotoHash := afterHash;
     call_impactFormDataHash := impactFormDataHash;
     call_lat := latScaled;
     call_lng := lngScaled;
     call_referrer := referrer;
     call_account := account;
     call_value :=
       match _fee with
       | Some f => if negb (f =? 0) && (0 <? f) then Some f else None
       | None => None
       end |}.

(** [readContract(..., functionName: 'submissionCount')] *)
Definition readSubmissionCount (s : State) : N := submissionCount s.

(** [writeContract(config, contractConfig)] followed by
    [waitForTransactionReceipt]: the call runs as one transaction of the
    chain; a call without [value] carries no payment. *)
Definition writeCreateSubmission (c : CreateSubmissionCall) (now : N)
    (s : State) : Outcome * State :=
  create (call_account c) (call_beforePhotoHash c) (call_afterPhotoHash c)
    (call_lat c) (call_lng c) (call_impactFormDataHash c)
    (call_referrer c) (default 0 (call_value c)) now s.

(** Modelled from the spec: the read-by-id surface behind
    [getSubmissionDetails]; an unknown id is [NotFound]. *)
Definition getSubmissionDetails (i : N) (s : State) : Error + Submission :=
  match submissions s !! i with
  | Some sub => inr sub
  | None => inl NotFound
  end.

Section Client.

Variable p : Params.
Variable env : Env.

(** [submitCleanup]. Between the awaits of this function the chain may
    order transactions of other callers: [others1] between the first
    read of the counter and the creation, [others2] between the
    creation and the second read. Every error raised inside the [try]
    is rethrown as "Failed to submit cleanup". The wallet and the node
    are taken to deliver here: the creation is sent and its receipt
    arrives. *)
Definition submitCleanup (beforeHash afterHash : string)
    (latScaled lngScaled : Z) (_referrer : option Address)
    (_hasImpactForm : bool) (_impactReportHash : string)
    (_fee : option Z) (now : N) (others1 others2 : list Op)
    (s : State) : Result N * State :=
  match SUBMISSION_ADDRESS env with
  | None => (Threw NotConfigured, s)
  | Some _ =>
      match account_address env with
      | None => (Threw WalletNotConnected, s)
      | Some account =>
          let submissionCountBefore := readSubmissionCount s in
          let s1 := stateAfter p others1 s in
          let cfg :=
            contractConfig account beforeHash afterHash latScaled
              lngScaled _referrer _hasImpactForm _impactReportHash _fee in
          match writeCreateSubmission cfg now s1 with
          | (Failed e, s2) => (Threw (SubmitFailed e), s2)
          | (Done _ _, s2) =>
              let s3 := stateAfter p others2 s2 in
              let submissionCountAfter := readSubmissionCount s3 in
              let submissionId := submissionCountBefore in
              (Returned submissionId, s3)
          end
      end
  end.

(** [getCleanupDetails]: without a configured address a local fallback
    record is returned ([dateNow] is [Date.now()]); otherwise the
    contract is read and the status code is decoded. *)
Definition getCleanupDetails (cleanupId : N) (dateNow : N) (s : State)
    : Result CleanupDetails :=
  match SUBMISSION_ADDRESS env with
  | None =>
      Returned
        {| cd_id := cleanupId; cd_user := zeroAddress;
           cd_beforePhotoHash := ""; cd_afterPhotoHash := "";
           cd_timestamp := dateNow; cd_latitude := 0; cd_longitude := 0;
           cd_verified := false; cd_claimed := false;
           cd_rejected := false; cd_level := 0 |}
  | Some _ =>
      match getSubmissionDetails cleanupId s with
      | inl e => Threw (ReadFailed e)
      | inr result =>
          let status := statusCode (status result) in
          Returned
            {| cd_id := id result; cd_user := submitter result;
               cd_beforePhotoHash := beforeEvidenceRef result;
               cd_afterPhotoHash := afterEvidenceRef result;
               cd_timestamp := createdAt result;
               cd_latitude := latitude result;
               cd_longitude := longitude result;
               cd_verified := status =? CleanupStatus_Approved;
               cd_rejected := status =? CleanupStatus_Rejected;
               cd_claimed := rewarded result;
               cd_level :=
                 if status =? CleanupStatus_Approved then 1 else 0 |}
      end
  end.

End Client.


(** [getClaimableRewards(_address)]: always [0n]. *)
Definition getClaimableRewards (_address : Address) : Z := 0.

(** [getUserLevel(_address)]: always [0]. *)
Definition getUserLevel (_address : Address) : Z := 0.

(** [getDCUBalance(_address)]: always [0n]. *)
Definition getDCUBalance (_address : Address) : Z := 0.

(** [getCleanupCounter()]: [0n] without a configured address, otherwise
    the counter read from the contract. *)
Definition getCleanupCounter (env : Env) (s : State) : N :=
  match SUBMISSION_ADDRESS env with
  | None => 0%N
  | Some _ => readSubmissionCount s
  end.

(** [isVerifier(_address)]: reads the [VERIFIER_ROLE] constant and then
    [hasRole] with it; [false] without a configured address. *)
Definition isVerifier (env : Env) (_address : Address) (s : State) : bool :=
  match SUBMISSION_ADDRESS env with
  | None => false
  | Some _ =>
      let verifierRole := VERIFIER in
      hasRole verifierRole _address s
  end.

(** What the wallet and the node do with one write, beyond what the
    contract decides:
    - [sends]: [writeContract] hands the transaction to the network; when
      false it rejects and nothing is sent (the user declines in the
      wallet, the node cannot be reached);
    - [simulates]: the call is simulated before it is sent, so that a call
      the contract refuses makes [writeContract] reject; when false such a
      call is sent all the same and reverts on chain;
    - [receiptArrives]: [waitForTransactionReceipt] resolves; when false
      it rejects (timeout, node failure). The receipt of a reverted
      transaction resolves as well. *)
Record Transport := {
  sends : bool;
  simulates : bool;
  receiptArrives : bool
}.

(** A wallet and a node that deliver. *)
Definition reliable : Transport :=
  {| sends := true; simulates := true; receiptArrives := true |}.

(** What [verifyCleanup], [rejectCleanup] and
    [attachRecyclablesToSubmission] throw: the two guards, or, behind the
    wrapper's own message, what was caught inside the [try]: the
    rejection of [writeContract] without a transaction, the rejection of
    [writeContract] with the error of the contract call, or the rejection
    of [waitForTransactionReceipt]. *)
Inductive WriteError :=
| AddressNotConfigured
| NoWallet
| NotSent (message : string)
| CallFailed (message : string) (cause : Error)
| ReceiptFailed (message : string).

Inductive WriteResult :=
| Sent
| Raised (e : WriteError).

(** The common shape of the three wrappers: the guards, then inside one
    [try] the transaction sent from the connected account and the wait
    for its receipt. The contract handles a transaction that was sent,
    whatever becomes of the receipt; the wrappers return the hash without
    reading the status of the receipt, so a reverted transaction returns
    like a successful one. *)
Definition writeWith (env : Env) (t : Transport) (message : string)
    (call : Address -> State -> Outcome * State) (s : State)
    : WriteResult * State :=
  match SUBMISSION_ADDRESS env with
  | None => (Raised AddressNotConfigured, s)
  | Some _ =>
      match account_address env with
      | None => (Raised NoWallet, s)
      | Some account =>
          if negb (sends t) then (Raised (NotSent message), s)
          else
            match call account s with
            | (Done _ _, s1) =>
                if receiptArrives t then (Sent, s1)
                else (Raised (ReceiptFailed message), s1)
            | (Failed e, s1) =>
                if simulates t then (Raised (CallFailed message e), s1)
                else if receiptArrives t then (Sent, s1)
                else (Raised (ReceiptFailed message), s1)
            end
      end
  end.

(** [verifyCleanup(cleanupId, level)]: calls [approveSubmission] with the
    id alone. *)
Definition verifyCleanup (p : Params) (env : Env) (t : Transport)
    (cleanupId : N) (level : Z) (s : State) : WriteResult * State :=
  writeWith env t "Failed to verify cleanup"
    (fun account => approve p cleanupId account) s.

(** [rejectCleanup(cleanupId)] *)
Definition rejectCleanup (env : Env) (t : Transport) (cleanupId : N)
    (s : State) : WriteResult * State :=
  writeWith env t "Failed to reject cleanup"
    (fun account => reject cleanupId account) s.

(** [attachRecyclablesToSubmission(submissionId, recyclablesPhotoHash,
    recyclablesReceiptHash)]; [recyclablesReceiptHash || ''] leaves a
    string as it is. *)
Definition attachRecyclablesToSubmission (env : Env) (t : Transport)
    (submissionId : N) (recyclablesPhotoHash recyclablesReceiptHash : string)
    (s : State) : WriteResult * State :=
  writeWith env t "Failed to attach recyclables"
    (fun _ =>
       attachRecyclables submissionId recyclablesPhotoHash
         recyclablesReceiptHash) s.

(** [cleanupId.toString(16)] on a bigint: lower-case digits, a minus sign
    for a negative number. *)
Definition toString16 (n : Z) : string :=
  match n with
  | Z0 => "0"
  | Zpos q => HexString.Raw.of_pos q ""
  | Zneg q => "-" +:+ HexString.Raw.of_pos q ""
  end.

(** [n] copies of the character 0. *)
Fixpoint zeros (n : nat) : string :=
  match n with
  | O => ""
  | S k => "0" +:+ zeros k
  end.

(** [s.padStart(targetLength, '0')] *)
Definition padStart0 (targetLength : nat) (str : string) : string :=
  if (String.length str <? targetLength)%nat
  then zeros (targetLength - String.length str) +:+ str
  else str.

(** [claimImpactProductFromVerification(cleanupId)]: the simulated
    transaction hash. *)
Definition claimImpactProductFromVerification (cleanupId : Z) : string :=
  let fakeHash := "0x" +:+ padStart0 64 (toString16 cleanupId) in
  fakeHash.

End Contracts.

(** ** The impact-product IPFS helpers *)

Module ImpactProductIpfs.
Import ImpactProduct.

(** A browser [File]: of its fields the helpers read only [type]. *)
Record File := {
  file_name : string;
  file_type : string
}.

(** [IPFSUploadResult] *)
Record IPFSUploadResult := {
  hash : string;
  url : string
}.

Inductive AttrValue :=
| VString (v : string)
| VNumber (v : Z).

(** [export interface ImpactProductMetadata] *)
Record ImpactProductMetadata := {
  name : string;
  description : string;
  image : string;
  animation_url : option string;
  external_url : option string;
  attributes : list (string * AttrValue)
}.

(** What reached the pinning service. *)
Inductive Upload :=
| FileUpload (f : File)
| JSONUpload (m : ImpactProductMetadata) (label : string).

Definition World := list Upload.

Inductive UploadError :=
| LevelOutOfRange      (* 'Level must be between 1 and 10' *)
| BadFileType          (* 'File must be PNG or GIF' *)
| WrongImageCount      (* 'Must provide exactly 10 image files ...' *)
| MissingImage (level : Z)
| ServiceError.

Inductive Res (A : Type) :=
| Ok (a : A)
| Err (e : UploadError).
Arguments Ok {A} a.
Arguments Err {A} e.

(** Computations that may upload and may throw; what was uploaded before
    a throw stays uploaded. *)
Definition M (A : Type) : Type := World -> Res A * World.

Definition ret {A} (a : A) : M A := fun w => (Ok a, w).

Definition throw {A} (e : UploadError) : M A := fun w => (Err e, w).

Definition bind {A B} (c : M A) (k : A -> M B) : M B :=
  fun w =>
    match c w with
    | (Ok a, w1) => k a w1
    | (Err e, w1) => (Err e, w1)
    end.

Notation "'await' x <- c 'in' k" := (bind c (fun x => k))
  (at level 10, x name, c at level 99, k at level 200).

(** [CONSTANT_TRAITS] of impact-product.ts *)
Definition CONSTANT_TRAITS_type : string := "Dynamic".
Definition CONSTANT_TRAITS_impact : string := "Environment".
Definition CONSTANT_TRAITS_category : string := "Cleanup NFT".

(** A [LevelName] is the string of its name. *)
Definition levelNameString (n : LevelName) : string :=
  match n with
  | Newbie => "Newbie" | Pro => "Pro" | Hero => "Hero"
  | Guardian => "Guardian"
  end.

Definition validTypes : list string := ["image/png"; "image/gif"].

Section Service.

(** The pinning service behind [uploadToIPFS] and [uploadJSONToIPFS]:
    what it answers to a request, [None] when the request fails. *)
Variable pinFile : File -> option IPFSUploadResult.
Variable pinJSON : ImpactProductMetadata -> string -> option IPFSUploadResult.

(** [process.env.NEXT_PUBLIC_APP_URL] *)
Variable NEXT_PUBLIC_APP_URL : option string.

Definition uploadToIPFS (file : File) : M IPFSUploadResult :=
  fun w =>
    match pinFile file with
    | Some r => (Ok r, w ++ [FileUpload file])
    | None => (Err ServiceError, w ++ [FileUpload file])
    end.

Definition uploadJSONToIPFS (m : ImpactProductMetadata) (label : string)
    : M IPFSUploadResult :=
  fun w =>
    match pinJSON m label with
    | Some r => (Ok r, w ++ [JSONUpload m label])
    | None => (Err ServiceError, w ++ [JSONUpload m label])
    end.

(** [uploadImpactProductImage(file, level)] *)
Definition uploadImpactProductImage (file : File) (level : Z)
    : M IPFSUploadResult :=
  if (level <? 1) || (10 <? level) then throw LevelOutOfRange
  else if negb (bool_decide (file_type file ∈ validTypes))
  then throw BadFileType
  else
    await result <- uploadToIPFS file in
    ret result.

(** The callbacks of [images.map(async (file, index) => ...)]: each one
    is started in index order, whatever happened to the ones before
    it; a callback whose level exceeds 10 does nothing. The reply of
    every started callback is kept with its level. *)
Fixpoint startUploads (images : list File) (index : Z) (w : World)
    : list (Z * Res IPFSUploadResult) * World :=
  match images with
  | [] => ([], w)
  | file :: rest =>
      let level := index + 1 in
      if level <=? 10 then
        let '(r, w1) := uploadImpactProductImage file level w in
        let '(rs, w2) := startUploads rest (index + 1) w1 in
        ((level, r) :: rs, w2)
      else startUploads rest (index + 1) w
  end.

Definition isValidationError (e : UploadError) : bool :=
  match e with
  | LevelOutOfRange | BadFileType => true
  | _ => false
  end.

(** The rejection [Promise.all] reports: a callback rejected by a
    validation check settles before any answer of the service, so such
    a rejection wins; otherwise the failed request of lowest index is
    taken. *)
Definition firstRejection (rs : list (Z * Res IPFSUploadResult))
    : option UploadError :=
  let errs :=
    omap (fun lr => match lr.2 with Err e => Some e | Ok _ => None end) rs in
  match filter (fun e => isValidationError e = true) errs with
  | e :: _ => Some e
  | [] => head errs
  end.

Definition collectResults (rs : list (Z * Res IPFSUploadResult))
    : gmap Z IPFSUploadResult :=
  foldl (fun m lr => match lr.2 with
                     | Ok r => <[lr.1 := r]> m
                     | Err _ => m
                     end) ∅ rs.

(** [uploadAllImpactProductImages(images)] *)
Definition uploadAllImpactProductImages (images : list File)
    : M (gmap Z IPFSUploadResult) :=
  fun w =>
    let '(rs, w1) := startUploads images 0 w in
    match firstRejection rs with
    | Some e => (Err e, w1)
    | None => (Ok (collectResults rs), w1)
    end.

(** [createImpactProductMetadata(level, imageHash, animationHash?,
    cleanupsCompleted?, hypercertsEarned = 0)] *)
Definition createImpactProductMetadata (level : Z) (imageHash : string)
    (animationHash : option string) (cleanupsCompleted : option Z)
    (hypercertsEarned : option Z) : ImpactProductMetadata :=
  let hypercerts := default 0 hypercertsEarned in
  let levelName := levelNameString (getLevelName level) in
  let impactValue := pretty level in
  let actualCleanupsCompleted := default level cleanupsCompleted in
  let imageUrl := "ipfs://" +:+ imageHash in
  let animationUrl :=
    match animationHash with
    | Some h => if bool_decide (h = "") then None else Some ("ipfs://" +:+ h)
    | None => None
    end in
  {| name := "DeCleanup Impact Product - Level " +:+ pretty level;
     description :=
       "A tokenized representation of environmental cleanup impact. Level "
       +:+ pretty level +:+ " (" +:+ levelName
       +:+ ") Impact Product with " +:+ pretty actualCleanupsCompleted
       +:+ " cleanups completed and " +:+ pretty hypercerts
       +:+ " hypercerts earned.";
     image := imageUrl;
     external_url :=
       Some (match NEXT_PUBLIC_APP_URL with
             | Some u => if bool_decide (u = "")
                         then "https://decleanup.network" else u
             | None => "https://decleanup.network"
             end);
     attributes :=
       [("Type", VString CONSTANT_TRAITS_type);
        ("Impact", VString CONSTANT_TRAITS_impact);
        ("Category", VString CONSTANT_TRAITS_category);
        ("Impact Value", VString impactValue);
        ("Level", VString levelName);
        ("Level Number", VNumber level);
        ("Cleanups Completed", VNumber actualCleanupsCompleted);
        ("Hypercerts Earned", VNumber hypercerts)];
     animation_url := if level =? 10 then animationUrl else None |}.

(** [uploadImpactProductMetadata(level, imageHash, animationHash?,
    cleanupsCompleted = 0, hypercertsEarned = 0)] *)
Definition uploadImpactProductMetadata (level : Z) (imageHash : string)
    (animationHash : option string) (cleanupsCompleted : option Z)
    (hypercertsEarned : option Z) : M IPFSUploadResult :=
  let metadata :=
    createImpactProductMetadata level imageHash animationHash
      (Some (default 0 cleanupsCompleted))
      (Some (default 0 hypercertsEarned)) in
  await result <- uploadJSONToIPFS metadata
              ("impact-product-level-" +:+ pretty level) in
  ret result.

(** One entry of the map [batchUploadImpactProducts] returns. *)
Record BatchEntry := {
  imageHash : string;
  metadataHash : string;
  animationHash : option string
}.

(** The body of [for (let level = 1; level <= 10; level++)], run over
    the levels still to do. *)
Fixpoint uploadMetadataLoop (levels : list Z)
    (imageResults : gmap Z IPFSUploadResult) (animation : option string)
    (results : gmap Z BatchEntry) : M (gmap Z BatchEntry) :=
  match levels with
  | [] => ret results
  | level :: rest =>
      match imageResults !! level with
      | None => throw (MissingImage level)
      | Some imageResult =>
          await metadataResult <-
            uploadImpactProductMetadata level (hash imageResult)
              (if level =? 10 then animation else None)
              (Some 0) (Some 0) in
          uploadMetadataLoop rest imageResults animation
            (<[level :=
                {| imageHash := hash imageResult;
                   metadataHash := hash metadataResult;
                   animationHash :=
                     if level =? 10 then animation else None |}]> results)
      end
  end.

(** [batchUploadImpactProducts(images, animation?)] *)
Definition batchUploadImpactProducts (images : list File)
    (animation : option File) : M (gmap Z BatchEntry) :=
  if negb (length images =? 10)%nat then throw WrongImageCount
  else
    await imageResults <- uploadAllImpactProductImages images in
    await animationHash <-
      match animation with
      | Some a =>
          await animationResult <- uploadImpactProductImage a 10 in
          ret (Some (hash animationResult))
      | None => ret None
      end in
    uploadMetadataLoop (seqZ 1 10) imageResults animationHash ∅.

End Service.

(** [getImpactProductIPFSUrl(hash)]: [hash.replace(/^ipfs:\/\//, '')]
    removes one leading [ipfs://], then the gateway is put in front. *)
Definition stripIpfsScheme (hash : string) : string :=
  if String.prefix "ipfs://" hash
  then String.substring 7 (String.length hash - 7) hash
  else hash.

Definition getImpactProductIPFSUrl (NEXT_PUBLIC_IPFS_GATEWAY : option string)
    (hash : string) : string :=
  let cleanHash := stripIpfsScheme hash in
  let gateway := ipfsGateway NEXT_PUBLIC_IPFS_GATEWAY in
  gateway +:+ cleanHash.

End ImpactProductIpfs.

(** ** The leaderboard *)

Module Leaderboard.
Import Chain Contracts.

Abbreviation Q := QArith_base.Q (only parsing).

(** The value kept per user in [userMap]. Coordinates are the stored
    integers divided by 1e6. *)
Record UserData := {
  ud_totalDCU : Q;
  ud_cleanups : Z;
  ud_coordinates : list (Q * Q)
}.

(** [export interface LeaderboardUser] *)
Record LeaderboardUser := {
  lu_address : Address;
  lu_totalDCU : Q;
  lu_country : option string;
  lu_cleanups : Z;
  lu_rank : Z
}.

(** A JavaScript [Map] keeps its entries in insertion order: a list of
    pairs with distinct keys. *)
Definition mapHas (user : Address) (userMap : list (Address * UserData))
    : bool :=
  bool_decide (user ∈ userMap.*1).

(** An update of the object [userMap.get(user)] in place. *)
Definition mapModify (user : Address) (f : UserData -> UserData)
    (userMap : list (Address * UserData)) : list (Address * UserData) :=
  (fun kv => if decide (kv.1 = user) then (kv.1, f kv.2) else kv)
  <$> userMap.

Definition Qlt_bool (x y : Q) : bool := negb (QArith_base.Qle_bool y x).

Section Board.

Variable env : Env.

(** [Date.now()], read by the local fallback of [getCleanupDetails]. *)
Variable dateNow : N.

(** The state of the chain the reads go to. *)
Variable s : State.

(** [parseFloat(formatEther(b))] and [Number(b) / 1e18], the two ways the
    code turns a balance in wei into a number. *)
Variable parseFloatFormatEther : Z -> Q.
Variable numberOver1e18 : Z -> Q.

(** [getCountryFromCoordinates(lat, lng)]: the answer of the geocoding
    service, [None] for [undefined] (also when the request fails). *)
Variable getCountryFromCoordinates : Q -> Q -> option string.

(** Lines 59 to 91: the balance of a user as a number. The balance is a
    bigint, so the first [typeof] branch is taken; a result above 1000000
    is replaced by the manual division. *)
Definition totalDCUOf (user : Address) : Q :=
  let balanceBigInt := getDCUBalance user in
  let totalDCU := parseFloatFormatEther balanceBigInt in
  if Qlt_bool (QArith_base.inject_Z 1000000) totalDCU
  then numberOver1e18 balanceBigInt
  else totalDCU.

(** The body of the scan loop for one id: a failed read is caught and the
    loop continues. *)
Definition visit (id : Z) (userMap : list (Address * UserData))
    : list (Address * UserData) :=
  match getCleanupDetails env (Z.to_N id) dateNow s with
  | Threw _ => userMap
  | Returned details =>
      let user := cd_user details in
      let userMap1 :=
        if mapHas user userMap then userMap
        else userMap
             ++ [(user, {| ud_totalDCU := totalDCUOf user;
                           ud_cleanups := 0;
                           ud_coordinates := [] |})] in
      let lat := cd_latitude details in
      let lng := cd_longitude details in
      mapModify user
        (fun userData =>
           {| ud_totalDCU := ud_totalDCU userData;
              ud_cleanups := ud_cleanups userData + 1;
              ud_coordinates :=
                if negb (lat =? 0) && negb (lng =? 0)
                then ud_coordinates userData
                     ++ [(QArith_base.Qmake lat 1000000,
                          QArith_base.Qmake lng 1000000)]
                else ud_coordinates userData |})
        userMap1
  end.

(** [for (let id = cleanupCount - 1n; id >= startId && id >= 1n; id--)]:
    [None] when the fuel runs out before the loop ends. *)
Fixpoint scanLoop (fuel : nat) (id startId : Z)
    (userMap : list (Address * UserData))
    : option (list (Address * UserData)) :=
  if (startId <=? id) && (1 <=? id) then
    match fuel with
    | O => None
    | S fuel' => scanLoop fuel' (id - 1) startId (visit id userMap)
    end
  else Some userMap.

(** [users.sort((a, b) => b.totalDCU - a.totalDCU)]: the sort is stable,
    so its result is the one of a stable insertion sort. *)
Fixpoint insertByTotalDCU (x : Address * UserData)
    (l : list (Address * UserData)) : list (Address * UserData) :=
  match l with
  | [] => [x]
  | y :: rest =>
      if Qlt_bool (ud_totalDCU x.2) (ud_totalDCU y.2)
      then y :: insertByTotalDCU x rest
      else x :: l
  end.

Definition sortByTotalDCU (users : list (Address * UserData))
    : list (Address * UserData) :=
  foldr insertByTotalDCU [] users.

(** One entry of the result: the country comes from the most recent
    coordinates, when there are any. *)
Definition toLeaderboardUser (index : nat) (user : Address * UserData)
    : LeaderboardUser :=
  {| lu_address := user.1;
     lu_totalDCU := ud_totalDCU user.2;
     lu_country :=
       match last (ud_coordinates user.2) with
       | Some latestCoords =>
           getCountryFromCoordinates latestCoords.1 latestCoords.2
       | None => None
       end;
     lu_cleanups := ud_cleanups user.2;
     lu_rank := Z.of_nat index + 1 |}.

(** [getLeaderboardData()] *)
Definition getLeaderboardData (fuel : nat) : option (list LeaderboardUser) :=
  let cleanupCount := Z.of_N (getCleanupCounter env s) in
  if cleanupCount =? 0 then Some []
  else
    let maxCheck := 100 in
    let startId :=
      if maxCheck <? cleanupCount then cleanupCount - maxCheck else 1 in
    match scanLoop fuel (cleanupCount - 1) startId [] with
    | None => None
    | Some userMap =>
        let users := sortByTotalDCU userMap in
        let topUsers := take 10 users in
        Some (imap toLeaderboardUser topUsers)
    end.

End Board.

End Leaderboard.

(** ** reset-cleanup.ts: clearing the browser's local storage *)

Module ResetCleanup.

(** [String.prototype.toLowerCase] on the ASCII letters; an address is a
    hexadecimal string, other characters are left as they are. *)
Definition lowerAscii (c : Ascii.ascii) : Ascii.ascii :=
  let n := Ascii.nat_of_ascii c in
  if (65 <=? n)%nat && (n <=? 90)%nat then Ascii.ascii_of_nat (n + 32)
  else c.

Fixpoint toLowerCase (str : string) : string :=
  match str with
  | EmptyString => EmptyString
  | String c rest => String (lowerAscii c) (toLowerCase rest)
  end.

(** The [cleanupId] argument: a bigint or a string, when given. *)
Inductive CleanupId :=
| IdBigint (n : Z)
| IdString (str : string).

(** [cleanupId?.toString() || ''] *)
Definition cleanupIdStrOf (cleanupId : option CleanupId) : string :=
  match cleanupId with
  | Some (IdBigint n) => pretty n
  | Some (IdString str) => str
  | None => ""
  end.

(** An element of a parsed JSON array: a string, or anything else. *)
Inductive JsonElem :=
| JString (str : string)
| JOther (text : string).

#[global] Instance JsonElem_eq_dec : EqDecision JsonElem.
Proof. solve_decision. Defined.

(** [localStorage]: string keys, string values. *)
Abbreviation Storage := (gmap string string) (only parsing).

Definition pendingKey (addressLower : string) : string :=
  "pending_cleanup_id_" +:+ addressLower.

Definition locationKey (addressLower : string) : string :=
  "pending_cleanup_location_" +:+ addressLower.

Definition claimedKey (addressLower : string) : string :=
  "claimed_cleanup_ids_" +:+ addressLower.

Section Json.

(** [JSON.parse] of a stored value, followed by the use of [.filter]:
    [None] when either throws (malformed text, or not an array). *)
Variable parseArray : string -> option (list JsonElem).

(** [JSON.stringify] of an array. *)
Variable stringify : list JsonElem -> string.

(** [parsed.filter(id => id !== cleanupIdStr)] *)
Definition withoutId (cleanupIdStr : string) (parsed : list JsonElem)
    : list JsonElem :=
  filter (fun e => e <> JString cleanupIdStr) parsed.

(** [resetCleanupState(userAddress, cleanupId?)]; [hasWindow] is
    [typeof window !== 'undefined']. *)
Definition resetCleanupState (hasWindow : bool) (userAddress : string)
    (cleanupId : option CleanupId) (localStorage : gmap string string)
    : gmap string string :=
  if negb hasWindow then localStorage
  else
    let addressLower := toLowerCase userAddress in
    let cleanupIdStr := cleanupIdStrOf cleanupId in
    let st1 := delete (pendingKey addressLower) localStorage in
    let st2 := delete (locationKey addressLower) st1 in
    let st3 :=
      if bool_decide (cleanupIdStr = "") then
        delete (claimedKey addressLower) st2
      else
        match st2 !! claimedKey addressLower with
        | Some claimedIds =>
            if bool_decide (claimedIds = "") then st2
            else
              match parseArray claimedIds with
              | Some parsed =>
                  let filtered := withoutId cleanupIdStr parsed in
                  if bool_decide (filtered = [])
                  then delete (claimedKey addressLower) st2
                  else <[claimedKey addressLower := stringify filtered]> st2
              | None => delete (claimedKey addressLower) st2
              end
        | None => st2
        end in
    delete "last_cleanup_location"
      (delete "pending_cleanup_location"
         (delete "pending_cleanup_id" st3)).

End Json.

(** [resetAllCleanupState(userAddress)]: [keysToRemove.forEach] removes
    the six keys in the order of the array. *)
Definition resetAllCleanupState (hasWindow : bool) (userAddress : string)
    (localStorage : gmap string string) : gmap string string :=
  if negb hasWindow then localStorage
  else
    let addressLower := toLowerCase userAddress in
    let keysToRemove :=
      [ pendingKey addressLower; locationKey addressLower;
        claimedKey addressLower; "last_cleanup_location";
        "pending_cleanup_id"; "pending_cleanup_location" ] in
    foldl (fun st key => delete key st) localStorage keysToRemove.

End ResetCleanup.

(** ** The dashboard actions panel *)

Module DashboardActions.

(** The [cleanupStatus] prop. *)
Record CleanupStatus := {
  hasPendingCleanup : bool;
  canClaim : bool;
  cleanupId : option N;
  level : option Z
}.

(** [cleanupStatus?.hasPendingCleanup] and [cleanupStatus?.canClaim] as
    conditions: [null] gives [undefined], which is falsy. *)
Definition pendingOf (cleanupStatus : option CleanupStatus) : bool :=
  match cleanupStatus with Some c => hasPendingCleanup c | None => false end.

Definition canClaimOf (cleanupStatus : option CleanupStatus) : bool :=
  match cleanupStatus with Some c => canClaim c | None => false end.

Definition canSubmit (cleanupStatus : option CleanupStatus) : bool :=
  negb (pendingOf cleanupStatus) && negb (canClaimOf cleanupStatus).

Definition canClaimLevel (cleanupStatus : option CleanupStatus)
    (isClaiming : bool) : bool :=
  canClaimOf cleanupStatus && negb isClaiming.

Definition isUnderVerification (cleanupStatus : option CleanupStatus)
    : bool :=
  pendingOf cleanupStatus && negb (canClaimOf cleanupStatus).

(** The [claimFeeInfo] prop. *)
Record ClaimFeeInfo := {
  fee : Z;
  enabled : bool
}.

(** What the panel renders of its three state-dependent blocks. The claim
    button, its spinner, the level and the fee display sit inside the
    claim block. *)
Record Rendered := {
  submitButton : bool;
  claimBlock : bool;
  claimButtonDisabled : bool;
  claimingSpinner : bool;
  feeDisplay : bool;
  underReviewNotice : bool;
  (** [cleanupStatus.level || 1], shown inside the claim block *)
  shownLevel : Z
}.

Definition render (cleanupStatus : option CleanupStatus) (isClaiming : bool)
    (claimFeeInfo : option ClaimFeeInfo) : Rendered :=
  {| submitButton := canSubmit cleanupStatus;
     claimBlock := canClaimOf cleanupStatus;
     claimButtonDisabled := negb (canClaimLevel cleanupStatus isClaiming);
     claimingSpinner := canClaimOf cleanupStatus && isClaiming;
     feeDisplay :=
       canClaimOf cleanupStatus
       && match claimFeeInfo with
          | Some info => enabled info && (0 <? fee info)
          | None => false
          end;
     underReviewNotice := isUnderVerification cleanupStatus;
     shownLevel :=
       match cleanupStatus with
       | Some c =>
           match level c with
           | Some l => if l =? 0 then 1 else l
           | None => 1
           end
       | None => 1
       end |}.

(** The click handler of the claim button: [onClaim], a required prop, is
    called only under [canClaimLevel && !isClaiming && onClaim]. *)
Definition clickCallsOnClaim (cleanupStatus : option CleanupStatus)
    (isClaiming : bool) : bool :=
  canClaimLevel cleanupStatus isClaiming && negb isClaiming.

End DashboardActions.

(** ** verify-contracts.ts and the Ignition module DCUContracts *)

Module Deployment.

(** A value read from [deployed_addresses.json] or passed as a
    constructor argument: a string, or [undefined]. *)
Definition truthy (v : option string) : bool :=
  match v with
  | Some str => negb (bool_decide (str = ""))
  | None => false
  end.

(** [getConstructorArgs(contractName, deployedAddresses)];
    [deployedAddresses.X] is the lookup of the key X. *)
Definition getConstructorArgs (contractName : string)
    (deployedAddresses : gmap string string) : list (option string) :=
  if bool_decide (contractName = "DCUToken") then []
  else if bool_decide (contractName = "DCURewardManager") then
    [deployedAddresses !! "DCUToken"; deployedAddresses !! "ImpactProductNFT"]
  else if bool_decide (contractName = "Submission") then
    [deployedAddresses !! "DCUToken"; deployedAddresses !! "DCURewardManager";
     Some "10000000000000000000"]
  else if bool_decide (contractName = "ImpactProductNFT") then
    [deployedAddresses !! "DCURewardManager"]
  else if bool_decide (contractName = "RecyclablesReward") then
    if negb (truthy (deployedAddresses !! "cRecyToken"))
    then [deployedAddresses !! "Submission"]
    else [deployedAddresses !! "cRecyToken"; deployedAddresses !! "Submission"]
  else if bool_decide (contractName = "cRecyToken") then []
  else [].

(** [interface ContractInfo] *)
Record ContractInfo := {
  name : string;
  address : option string;
  constructorArgs : list (option string)
}.

(** The list [main] verifies: the four contracts whose address is set, in
    this order, then RecyclablesReward when it has an address. *)
Definition contractsToVerify (deployedAddresses : gmap string string)
    : list ContractInfo :=
  let info (contractName : string) :=
    {| name := contractName;
       address := deployedAddresses !! contractName;
       constructorArgs :=
         getConstructorArgs contractName deployedAddresses |} in
  let contractsToVerify :=
    List.filter (fun contract => truthy (address contract))
      [ info "DCUToken"; info "ImpactProductNFT"; info "DCURewardManager";
        info "Submission" ] in
  if truthy (deployedAddresses !! "RecyclablesReward")
  then contractsToVerify ++ [info "RecyclablesReward"]
  else contractsToVerify.

(** An argument of the Ignition module: a literal, or the future of a
    contract deployed by the module. *)
Inductive IgnitionArg :=
| Literal (value : string)
| ContractFuture (contractName : string).

(** What the module asks Ignition to do. *)
Inductive IgnitionStep :=
| DeployContract (contractName : string) (args : list IgnitionArg)
| CallContract (target functionName : string) (args : list IgnitionArg).

(** [buildModule("DCUContracts", ...)]; [MINTER_ROLE] is
    [keccak256(toBytes("MINTER_ROLE"))]. *)
Definition DCUContracts (MINTER_ROLE : string) : list IgnitionStep :=
  let impactProductNFTPlaceholder :=
    "0x0000000000000000000000000000000000000000" in
  [ DeployContract "DCUToken" [];
    DeployContract "DCURewardManager"
      [ContractFuture "DCUToken"; Literal impactProductNFTPlaceholder];
    CallContract "DCUToken" "grantRole"
      [Literal MINTER_ROLE; ContractFuture "DCURewardManager"];
    DeployContract "ImpactProductNFT" [ContractFuture "DCURewardManager"];
    CallContract "DCURewardManager" "updateNftCollection"
      [ContractFuture "ImpactProductNFT"];
    DeployContract "Submission"
      [ ContractFuture "DCUToken"; ContractFuture "DCURewardManager";
        Literal "10000000000000000000" ] ].

(** The value an argument has once the futures are resolved to the
    addresses recorded under the contracts' names. *)
Definition resolve (deployedAddresses : gmap string string)
    (arg : IgnitionArg) : option string :=
  match arg with
  | Literal value => Some value
  | ContractFuture contractName => deployedAddresses !! contractName
  end.

(** The constructor arguments a contract of the module was deployed
    with. *)
Definition deployedWith (steps : list IgnitionStep)
    (deployedAddresses : gmap string string) (contractName : string)
    : option (list (option string)) :=
  match
    List.find
      (fun step =>
         match step with
         | DeployContract n _ => bool_decide (n = contractName)
         | CallContract _ _ _ => false
         end) steps
  with
  | Some (DeployContract _ args) => Some (resolve deployedAddresses <$> args)
  | _ => None
  end.

End Deployment.

(** ** wagmi.ts: the chain the application requires *)

Module Wagmi.

(** Of a viem [Chain] the module reads the id, the name and the
    [testnet] flag. *)
Record Chain := {
  id : Z;
  name : string;
  testnet : option bool
}.

(** [process.env.X || fallback] *)
Definition orElse (value : option string) (fallback : string) : string :=
  match value with
  | Some str => if bool_decide (str = "") then fallback else str
  | None => fallback
  end.

Section Env.

Variable NEXT_PUBLIC_RPC_URL : option string.
Variable NEXT_PUBLIC_SEPOLIA_RPC_URL : option string.
Variable NEXT_PUBLIC_CHAIN_ID : option string.

(** [Number(str)] when it is an integer; [None] stands for every other
    number, NaN included, none of which is the id of a chain. *)
Variable Number : string -> option Z.

(** The chain [celo] of wagmi/chains. *)
Variable celo : Chain.

Definition celoMainnetRpcUrl : string :=
  orElse NEXT_PUBLIC_RPC_URL "https://forno.celo.org".

Definition celoSepoliaRpcUrl : string :=
  orElse NEXT_PUBLIC_SEPOLIA_RPC_URL
    "https://forno.celo-sepolia.celo-testnet.org".

(** [{ ...celo, rpcUrls, blockExplorers }] keeps id, name and testnet. *)
Definition celoMainnet : Chain := celo.

Definition celoSepoliaChain : Chain :=
  {| id := 11142220; name := "Celo Sepolia Testnet"; testnet := Some true |}.

Definition configuredChains : list Chain := [celoSepoliaChain; celoMainnet].

Definition requiredChainId : option Z :=
  match NEXT_PUBLIC_CHAIN_ID with
  | Some str =>
      if bool_decide (str = "") then Some (id celoSepoliaChain)
      else Number str
  | None => Some (id celoSepoliaChain)
  end.

Definition requiredChain : Chain :=
  default celoSepoliaChain
    (List.find (fun chain => bool_decide (Some (id chain) = requiredChainId))
       configuredChains).

Definition requiredChainLabel : string :=
  if default false (testnet requiredChain) then name requiredChain
  else "Celo Mainnet".

Definition requiredBlockExplorerUrl : string :=
  if id requiredChain =? id celoMainnet then "https://celoscan.io"
  else "https://celo-sepolia.blockscout.com".

Definition requiredRpcUrl : string :=
  if id requiredChain =? id celoMainnet then celoMainnetRpcUrl
  else celoSepoliaRpcUrl.

Definition REQUIRED_CHAIN_ID : option Z := requiredChainId.
Definition REQUIRED_CHAIN_NAME : string := requiredChainLabel.
Definition REQUIRED_BLOCK_EXPLORER_URL : string := requiredBlockExplorerUrl.
Definition REQUIRED_RPC_URL : string := requiredRpcUrl.
Definition REQUIRED_CHAIN_IS_TESTNET : bool :=
  default false (testnet requiredChain).

End Env.

End Wagmi.

(** ** Invariants of the store and the shapes of a step *)

Module ChainInvariants.
Import Chain.

(** Well-formed stores: every stored submission sits under an allocated
    id, carries that id, and has not been rewarded while Pending. *)
Definition wf (s : State) : Prop :=
  forall i sub,
    submissions s !! i = Some sub ->
    (i < submissionCount s)%N /\ id sub = i
    /\ (status sub = Pending -> rewarded sub = false).

(** What one transaction can do to the submissions: nothing, append a
    new Pending record under the next id, or update one Pending
    record. Only the second reports a new id. *)
Inductive SubsStep (s : State) (out : Outcome) (s' : State) : Prop :=
| SubsSame :
    submissions s' = submissions s ->
    submissionCount s' = submissionCount s ->
    (forall n sig, out <> Done (RId n) sig) ->
    SubsStep s out s'
| SubsNew (sub : Submission) :
    out = Done (RId (submissionCount s)) None ->
    submissions s' = <[submissionCount s := sub]> (submissions s) ->
    submissionCount s' = N.succ (submissionCount s) ->
    id sub = submissionCount s ->
    status sub = Pending ->
    rewarded sub = false ->
    SubsStep s out s'
| SubsUpd (i : N) (sub sub' : Submission) :
    submissions s !! i = Some sub ->
    submissions s' = <[i := sub']> (submissions s) ->
    submissionCount s' = submissionCount s ->
    (forall n sig, out <> Done (RId n) sig) ->
    id sub' = id sub ->
    submitter sub' = submitter sub ->
    status sub = Pending ->
    (status sub' = Pending -> rewarded sub' = rewarded sub) ->
    SubsStep s out s'.

(** The amount accrual adds to category [c] of account [a]. *)
Definition accrualCredit (p : Params) (sub : Submission) (a : Address)
    (c : Category) : Z :=
  (if decide (submitter sub = a /\ BaseImpact = c)
   then baseReward p else 0)
  + (if decide (impactReportRef sub <> "" /\ submitter sub = a
                /\ ImpactReport = c)
     then impactReportBonus p else 0)
  + (if decide (referrer sub <> zeroAddress /\ referrer sub = a
                /\ Referral = c)
     then referralReward p else 0).

(** The amount a successful approval of [sub] adds to category [c] of
    account [a], with [paid] telling whether the reserve paid out. *)
Definition approvalCredit (p : Params) (sub : Submission) (paid : bool)
    (a : Address) (c : Category) : Z :=
  accrualCredit p sub a c
  + (if decide (paid = true /\ submitter sub = a /\ Recyclables = c)
     then unitReward p else 0).

(** An approval that succeeds on a submission with recyclables attached:
    the approvals the reserve payout is invoked for. *)
Definition isEligibleApproval (p : Params) (o : Op) (s : State) : bool :=
  match o with
  | OpApprove i actor =>
      succeeded (approve p i actor s).1
      && match submissions s !! i with
         | Some sub => hasRecyclables sub
         | None => false
         end
  | _ => false
  end.

(** How many such approvals a run contains. *)
Fixpoint eligibleApprovals (p : Params) (ops : list Op) (s : State) : nat :=
  match ops with
  | [] => 0
  | o :: rest =>
      ((if isEligibleApproval p o s then 1 else 0)
       + eligibleApprovals p rest (exec p o s).2)%nat
  end.

Definition isSync (o : Op) : bool :=
  match o with OpSyncReserve _ _ => true | _ => false end.

(** Runs during which the reserve is not re-synchronised. *)
Definition noSync (ops : list Op) : bool :=
  forallb (fun o => negb (isSync o)) ops.

(** Every balance is non-negative. *)
Definition ledgerNonneg (s : State) : Prop := forall a c, 0 <= balance a c s.

End ChainInvariants.

(** ** A small deployment used for concrete runs *)

Module Scenario.
Import Chain.

(** 10 for a verified cleanup, 5 for an impact report, 3 for a
    referral, 5 from the recyclables reserve. *)
Definition demo : Params :=
  {| baseReward := 10; impactReportBonus := 5; referralReward := 3;
     unitReward := 5 |}.

Definition deployer : Address := 1%N.
Definition alice : Address := 2%N.
Definition verifier : Address := 7%N.
Definition stranger : Address := 9%N.

(** A reserve of 5000 and one verifier. *)
Definition setup : list Op := [OpGrantRole VERIFIER verifier deployer].

Abbreviation deployed := (stateAfter demo setup (init 5000 deployer)).

(** Alice submits a cleanup without recyclables, without an impact
    report and without a referrer. *)
Definition aliceCreates : Op :=
  OpCreate alice "before" "after" 52520008 13404954 "" zeroAddress 0 0%N.

(** Alice's first submission is created and approved. *)
Definition approvedOnceOps : list Op :=
  setup ++ [aliceCreates; OpApprove 0%N verifier].

Abbreviation approvedOnce :=
  (stateAfter demo approvedOnceOps (init 5000 deployer)).

(** Four submissions of Alice, all approved. *)
Definition approvedFourOps : list Op :=
  setup
  ++ [aliceCreates; aliceCreates; aliceCreates; aliceCreates;
      OpApprove 0%N verifier; OpApprove 1%N verifier;
      OpApprove 2%N verifier; OpApprove 3%N verifier].

Abbreviation approvedFour :=
  (stateAfter demo approvedFourOps (init 5000 deployer)).

(** One round of the reserve scenario: Alice submits, attaches
    recyclables, and the verifier approves. [k] is the id the submission
    gets. *)
Definition eligibleRound (k : nat) : list Op :=
  [aliceCreates;
   OpAttachRecyclables (N.of_nat k) "photo" "receipt";
   OpApprove (N.of_nat k) verifier].

Definition eligibleRounds (n : nat) : list Op :=
  concat (eligibleRound <$> seq 0 n).

(** Bob, who submits while Alice's client is between two awaits. *)
Definition bob : Address := 3%N.

Definition bobCreates : Op :=
  OpCreate bob "b-before" "b-after" 0 0 "" zeroAddress 0 0%N.

(** A pinning service that accepts everything, and ten PNG files. *)
Definition pinAll (f : ImpactProductIpfs.File)
    : option ImpactProductIpfs.IPFSUploadResult :=
  Some {| ImpactProductIpfs.hash := "Qm" +:+ ImpactProductIpfs.file_name f;
          ImpactProductIpfs.url := "" |}.

Definition pinAllJSON (m : ImpactProductIpfs.ImpactProductMetadata)
    (label : string) : option ImpactProductIpfs.IPFSUploadResult :=
  Some {| ImpactProductIpfs.hash := "Qm" +:+ label;
          ImpactProductIpfs.url := "" |}.

Definition png (k : Z) : ImpactProductIpfs.File :=
  {| ImpactProductIpfs.file_name := "IP" +:+ pretty k +:+ ".png";
     ImpactProductIpfs.file_type := "image/png" |}.

Definition tenImages : list ImpactProductIpfs.File := png <$> seqZ 1 10.

End Scenario.

(** ** What the upload helpers send and get back *)

Module UploadShapes.
Import ImpactProductIpfs.

(** What the callback for one image with a level in 1..10 settles to. *)
Definition imageReply (pinFile : File -> option IPFSUploadResult)
    (file : File) : Res IPFSUploadResult :=
  if bool_decide (file_type file ∈ validTypes) then
    match pinFile file with
    | Some r => Ok r
    | None => Err ServiceError
    end
  else Err BadFileType.

(** The requests a list of images leads to: one per file of a valid
    type, in order. *)
Definition sentImages (images : list File) : list Upload :=
  FileUpload <$> filter (fun f => file_type f ∈ validTypes) images.

(** The replies of the callbacks started from [index] on: at most
    [10 - index] of them, with their levels. *)
Definition expectedReplies (pinFile : File -> option IPFSUploadResult)
    (images : list File) (index : Z) : list (Z * Res IPFSUploadResult) :=
  imap (fun k f => (index + 1 + Z.of_nat k, imageReply pinFile f))
    (take (Z.to_nat (10 - index)) images).

(** The metadata document the batch uploads for a level. *)
Definition batchMetadata (NEXT_PUBLIC_APP_URL : option string) (level : Z)
    (imageHash : string) (animation : option string)
    : ImpactProductMetadata :=
  createImpactProductMetadata NEXT_PUBLIC_APP_URL level imageHash
    (if level =? 10 then animation else None) (Some 0) (Some 0).

Definition batchLabel (level : Z) : string :=
  "impact-product-level-" +:+ pretty level.

End UploadShapes.

(** ** What the leaderboard scan reads *)

Module LeaderboardShapes.
Import Chain Contracts Leaderboard.

(** The ids from [cleanupCount - 1] down to the larger of 1 and
    [cleanupCount - 100]. *)
Definition scannedIds (cleanupCount : Z) : list Z :=
  let lo := Z.max 1 (cleanupCount - 100) in
  reverse (seqZ lo (cleanupCount - lo)).

Section Reads.

Variable env : Env.
Variable dateNow : N.
Variable s : State.

(** Whether the read of [id] succeeds and names [user] as the submitter. *)
Definition readsUser (user : Address) (id : Z) : bool :=
  match getCleanupDetails env (Z.to_N id) dateNow s with
  | Returned details => bool_decide (cd_user details = user)
  | Threw _ => false
  end.

(** How many of the reads of [ids] name [user]. *)
Definition cleanupsOf (user : Address) (ids : list Z) : Z :=
  Z.of_nat (length (filter (fun id => readsUser user id = true) ids)).

Variable parseFloatFormatEther : Z -> Q.
Variable numberOver1e18 : Z -> Q.

(** What the scan keeps true of [userMap] once [ids] have been read: the
    keys are distinct, every entry counts the reads that name its key and
    carries the balance of its key, and every user named by a read has an
    entry. *)
Definition scanInv (userMap : list (Address * UserData)) (ids : list Z)
    : Prop :=
  NoDup userMap.*1
  /\ (forall a d, (a, d) ∈ userMap ->
        ud_cleanups d = cleanupsOf a ids
        /\ 0 < ud_cleanups d
        /\ ud_totalDCU d
           = totalDCUOf parseFloatFormatEther numberOver1e18 a)
  /\ (forall a, 0 < cleanupsOf a ids -> a ∈ userMap.*1).

End Reads.

End LeaderboardShapes.

(** ** Concrete inputs for the leaderboard, the browser storage and the
    deployment record *)

Module MoreScenarios.
Import Chain Contracts.

Definition boardEnv : Env :=
  {| SUBMISSION_ADDRESS := Some 100%N; account_address := None |}.

(** A balance in wei as a number of tokens. *)
Definition weiToNumber (balance : Z) : QArith_base.Q :=
  QArith_base.Qmake balance 1000000000000000000.

Definition countryOf (lat lng : QArith_base.Q) : option string :=
  Some "Germany".

(** Alice submits twice, then Bob, then Alice again: ids 0 to 3. *)
Definition mixedOps : list Op :=
  Scenario.setup
  ++ [Scenario.aliceCreates; Scenario.aliceCreates; Scenario.bobCreates;
      Scenario.aliceCreates].

Abbreviation mixed :=
  (stateAfter Scenario.demo mixedOps (init 5000 Scenario.deployer)).

(** A toy JSON reader and writer that know one stored list. *)
Definition parseDemo (text : string) : option (list ResetCleanup.JsonElem) :=
  if bool_decide (text = "[1,2]")
  then Some [ResetCleanup.JString "1"; ResetCleanup.JString "2"]
  else None.

Definition stringifyDemo (l : list ResetCleanup.JsonElem) : string :=
  "["
  +:+ String.concat ","
        ((fun e => match e with
                   | ResetCleanup.JString str => str
                   | ResetCleanup.JOther text => text
                   end) <$> l)
  +:+ "]".

Definition storageDemo : gmap string string :=
  <["pending_cleanup_id_0xabc" := "2"]>
    (<["claimed_cleanup_ids_0xabc" := "[1,2]"]>
       (<["pending_cleanup_id_0xdef" := "7"]>
          (<["pending_cleanup_id" := "2"]> ∅))).

Definition recorded : gmap string string :=
  <["DCUToken" := "0x01"]>
    (<["DCURewardManager" := "0x02"]>
       (<["ImpactProductNFT" := "0x03"]>
          (<["Submission" := "0x04"]> ∅))).

End MoreScenarios.

(** * Properties *)

(** ** Level names and ranges *)

Module ImpactProductFacts.
Import ImpactProduct.

Lemma getLevelName_cases (n : Z) :
  getLevelName n =
    if decide (n <= 0) then Newbie
    else if decide (n <= 3) then Newbie
    else if decide (n <= 6) then Pro
    else if decide (n <= 9) then Hero
    else Guardian.
Proof.
  unfold getLevelName.
  repeat case_decide;
    repeat match goal with
           | |- context [?a <=? ?b] => destruct (Z.leb_spec a b)
           end; simpl; try reflexivity; lia.
Qed.

Lemma getImpactValueRange_cases (n : Z) :
  getImpactValueRange n =
    if decide (n <= 0) then "0"
    else if decide (n <= 3) then "1-3"
    else if decide (n <= 6) then "4-6"
    else if decide (n <= 9) then "7-9"
    else "10+".
Proof.
  unfold getImpactValueRange.
  repeat case_decide;
    repeat match goal with
           | |- context [?a <=? ?b] => destruct (Z.leb_spec a b)
           end; simpl; try reflexivity; lia.
Qed.

Lemma tier_clamped (n : Z) : 1 <= tier n <= 10.
Proof. unfold tier. lia. Qed.

(** C3: for every count n >= 1 the leveling rule gives Newbie for 1..3,
    Pro for 4..6, Hero for 7..9 and Guardian from 10 on, with the tier
    equal to the count up to 10 and held at 10 beyond; the range helper
    follows the same brackets; level(3), level(4), level(9), level(10)
    and level(25) are Newbie/3, Pro/4, Hero/9, Guardian/10 and
    Guardian/10. *)
Theorem level_mapping (n : Z) (Hn : 1 <= n) :
  (n <= 3 ->
     level n = {| level_tier := n; level_name := Newbie |}
     /\ getImpactValueRange n = "1-3")
  /\ (4 <= n <= 6 ->
     level n = {| level_tier := n; level_name := Pro |}
     /\ getImpactValueRange n = "4-6")
  /\ (7 <= n <= 9 ->
     level n = {| level_tier := n; level_name := Hero |}
     /\ getImpactValueRange n = "7-9")
  /\ (10 <= n ->
     level n = {| level_tier := 10; level_name := Guardian |}
     /\ getImpactValueRange n = "10+")
  /\ level 3 = {| level_tier := 3; level_name := Newbie |}
  /\ level 4 = {| level_tier := 4; level_name := Pro |}
  /\ level 9 = {| level_tier := 9; level_name := Hero |}
  /\ level 10 = {| level_tier := 10; level_name := Guardian |}
  /\ level 25 = {| level_tier := 10; level_name := Guardian |}.
Proof.
  unfold level, tier.
  repeat split; try reflexivity;
    try (rewrite getImpactValueRange_cases; repeat case_decide;
         (reflexivity || lia)).
  all: rewrite getLevelName_cases; repeat case_decide; try lia.
  all: f_equal; lia.
Qed.

Lemma level_mapping_witness :
  1 <= 25
  /\ level 25 = {| level_tier := 10; level_name := Guardian |}
  /\ getImpactValueRange 25 = "10+".
Proof.
  assert (H : 1 <= 25) by lia.
  split; [exact H |].
  destruct (level_mapping 25 H) as (_ & _ & _ & H10 & _).
  apply H10. lia.
Defined.

(** C9: the helpers are defined on every integer, and at the lower edge
    they fall through to the last return: for every count n <= 0,
    getLevelName gives Newbie and getImpactValueRange gives the string
    0; the range 0 is returned for no other count. *)
Theorem leveling_lower_edge (n : Z) :
  (n <= 0 -> getLevelName n = Newbie /\ getImpactValueRange n = "0")
  /\ (getImpactValueRange n = "0" -> n <= 0).
Proof.
  split.
  - intros Hn. rewrite getLevelName_cases, getImpactValueRange_cases.
    repeat case_decide; try lia. done.
  - rewrite getImpactValueRange_cases.
    repeat case_decide; try lia; discriminate.
Qed.

Lemma leveling_lower_edge_witness :
  0 <= 0 /\ getLevelName 0 = Newbie /\ getImpactValueRange 0 = "0".
Proof.
  split; [lia |].
  apply (proj1 (leveling_lower_edge 0)). lia.
Defined.

End ImpactProductFacts.

(** ** Validation in the upload helpers *)

Module ImpactProductIpfsFacts.
Import ImpactProductIpfs.

Section Service.

Variable pinFile : File -> option IPFSUploadResult.
Variable pinJSON : ImpactProductMetadata -> string -> option IPFSUploadResult.
Variable NEXT_PUBLIC_APP_URL : option string.

Lemma valid_type_iff (file : File) :
  file_type file ∈ validTypes
  <-> file_type file = "image/png" \/ file_type file = "image/gif".
Proof.
  unfold validTypes. rewrite !elem_of_cons, elem_of_nil. tauto.
Qed.

Lemma upload_level_out_of_range (file : File) (level : Z) (w : World) :
  level < 1 \/ 10 < level ->
  uploadImpactProductImage pinFile file level w = (Err LevelOutOfRange, w).
Proof.
  intros H. unfold uploadImpactProductImage.
  destruct (Z.ltb_spec level 1); [done |].
  destruct (Z.ltb_spec 10 level); [done |]. lia.
Qed.

Lemma upload_bad_type (file : File) (level : Z) (w : World) :
  1 <= level <= 10 ->
  file_type file <> "image/png" -> file_type file <> "image/gif" ->
  uploadImpactProductImage pinFile file level w = (Err BadFileType, w).
Proof.
  intros H Hpng Hgif. unfold uploadImpactProductImage.
  destruct (Z.ltb_spec level 1); [lia |].
  destruct (Z.ltb_spec 10 level); [lia |]. simpl.
  rewrite bool_decide_eq_false_2; [done |].
  rewrite valid_type_iff. tauto.
Qed.

(** A call that passes both checks does reach the service. *)
Lemma upload_valid (file : File) (level : Z) (w : World) :
  1 <= level <= 10 ->
  file_type file ∈ validTypes ->
  (uploadImpactProductImage pinFile file level w).2 = w ++ [FileUpload file].
Proof.
  intros H Hty. unfold uploadImpactProductImage.
  destruct (Z.ltb_spec level 1); [lia |].
  destruct (Z.ltb_spec 10 level); [lia |]. simpl.
  rewrite bool_decide_eq_true_2 by done. simpl.
  unfold bind, uploadToIPFS. by destruct (pinFile file).
Qed.

(** C10: validation comes before any upload. uploadImpactProductImage
    throws and leaves the uploads as they were when the level is
    outside 1..10 or the file type is neither image/png nor image/gif;
    batchUploadImpactProducts throws and uploads nothing unless exactly
    10 images are given. *)
Theorem validation_before_upload (file : File) (level : Z)
    (images : list File) (animation : option File) (w : World) :
  ((level < 1 \/ 10 < level)
   \/ (file_type file <> "image/png" /\ file_type file <> "image/gif") ->
   exists e, uploadImpactProductImage pinFile file level w = (Err e, w))
  /\ (length images <> 10%nat ->
      batchUploadImpactProducts pinFile pinJSON NEXT_PUBLIC_APP_URL
        images animation w = (Err WrongImageCount, w)).
Proof.
  split.
  - intros [Hlevel | [Hpng Hgif]].
    + exists LevelOutOfRange. by apply upload_level_out_of_range.
    + destruct (decide (1 <= level <= 10)) as [Hin | Hout].
      * exists BadFileType. by apply upload_bad_type.
      * exists LevelOutOfRange. apply upload_level_out_of_range. lia.
  - intros Hlen. unfold batchUploadImpactProducts.
    destruct (Nat.eqb_spec (length images) 10); [done |]. done.
Qed.

End Service.

(** With ten PNG files and a service that answers, the batch goes through:
    ten images and ten metadata documents reach the service. *)
Example batch_of_ten_uploads_twenty :
  exists results w,
    batchUploadImpactProducts Scenario.pinAll Scenario.pinAllJSON None
      Scenario.tenImages None [] = (Ok results, w)
    /\ length w = 20%nat
    /\ dom results = list_to_set (seqZ 1 10).
Proof.
  eexists _, _. split; [vm_compute; reflexivity |].
  split; [reflexivity |]. vm_compute. reflexivity.
Qed.

(** One bad file among ten: the batch is rejected for its type, and the
    other nine images have been sent all the same. *)
Example batch_with_one_bad_file :
  let jpeg := {| file_name := "IP3.jpg"; file_type := "image/jpeg" |} in
  let images := <[2%nat := jpeg]> Scenario.tenImages in
  exists w,
    batchUploadImpactProducts Scenario.pinAll Scenario.pinAllJSON None
      images None [] = (Err BadFileType, w)
    /\ length w = 9%nat.
Proof.
  intros jpeg images. eexists. split; [vm_compute; reflexivity |].
  reflexivity.
Qed.

Lemma validation_before_upload_witness :
  let f := {| file_name := "IP1.jpg"; file_type := "image/jpeg" |} in
  (exists e,
     uploadImpactProductImage (fun _ => None) f 11 [] = (Err e, []))
  /\ batchUploadImpactProducts (fun _ => None) (fun _ _ => None) None
       [f] None [] = (Err WrongImageCount, []).
Proof.
  intros f.
  pose proof (validation_before_upload (fun _ => None) (fun _ _ => None)
                None f 11 [f] None []) as [H1 H2].
  split.
  - apply H1. left. right. lia.
  - apply H2. simpl. lia.
Defined.

End ImpactProductIpfsFacts.

(** ** The submission state machine, the ledger and the reserve *)

Module ChainFacts.
Import Chain.

Import ChainInvariants.

Lemma set_rewarded_true_id (sub : Submission) :
  rewarded sub = true -> set_rewarded true sub = sub.
Proof. destruct sub; simpl; intros ->; reflexivity. Qed.

Section WithParams.

Variable p : Params.

(** What accrual does to the store outside the ledger: it marks the
    submission as rewarded. *)
Lemma creditOnApproval_submissions (i : N) (s : State) (sub : Submission) :
  submissions s !! i = Some sub ->
  submissions (creditOnApproval p i s)
  = <[i := set_rewarded true sub]> (submissions s).
Proof.
  intros Hi. unfold creditOnApproval. rewrite Hi.
  destruct (rewarded sub) eqn:Hr.
  - rewrite set_rewarded_true_id by done. by rewrite insert_id.
  - simpl. repeat case_bool_decide; reflexivity.
Qed.

Lemma creditOnApproval_frame (i : N) (s : State) :
  submissionCount (creditOnApproval p i s) = submissionCount s
  /\ capacity (creditOnApproval p i s) = capacity s
  /\ distributed (creditOnApproval p i s) = distributed s
  /\ roles (creditOnApproval p i s) = roles s
  /\ creationFee (creditOnApproval p i s) = creationFee s
  /\ claimFee (creditOnApproval p i s) = claimFee s
  /\ events (creditOnApproval p i s) = events s.
Proof.
  unfold creditOnApproval.
  destruct (submissions s !! i) as [sub |]; [| done].
  destruct (rewarded sub); [done |].
  simpl. repeat case_bool_decide; done.
Qed.

Lemma payoutIfEligible_frame (sub : Submission) (s : State) :
  let s' := (payoutIfEligible p sub s).2 in
  submissionCount s' = submissionCount s
  /\ submissions s' = submissions s
  /\ capacity s' = capacity s
  /\ roles s' = roles s
  /\ creationFee s' = creationFee s
  /\ claimFee s' = claimFee s
  /\ events s' = events s.
Proof.
  unfold payoutIfEligible.
  destruct (unitReward p <=? capacity s - distributed s); done.
Qed.

(** A successful approval, spelled out. *)
Lemma approve_done (i : N) (actor : Address) (s s' : State)
    (r : Reply) (sig : option Signal) :
  approve p i actor s = (Done r sig, s') ->
  exists sub,
    canVerify actor s = true
    /\ submissions s !! i = Some sub
    /\ status sub = Pending
    /\ r = RUnit
    /\ submissions s'
       = <[i := set_rewarded true (set_status Approved sub)]> (submissions s)
    /\ submissionCount s' = submissionCount s
    /\ roles s' = roles s
    /\ capacity s' = capacity s
    /\ creationFee s' = creationFee s.
Proof.
  unfold approve.
  destruct (canVerify actor s); [| done]. simpl.
  destruct (submissions s !! i) as [sub |] eqn:Hi; [| done].
  destruct (status sub) eqn:Hst; try done.
  set (s1 := with_submission i (set_status Approved sub) s).
  assert (H1 : submissions s1 !! i = Some (set_status Approved sub))
    by (subst s1; simpl; apply lookup_insert_eq).
  pose proof (creditOnApproval_submissions i s1 _ H1) as Hsub.
  pose proof (creditOnApproval_frame i s1) as (Hc & Hcap & _ & Hr & Hf & _).
  set (s2 := creditOnApproval p i s1) in *.
  destruct (hasRecyclables sub).
  - pose proof (payoutIfEligible_frame sub s2)
      as (Hc' & Hs' & Hcap' & Hr' & Hf' & _).
    destruct (payoutIfEligible p sub s2) as [sig' s3]. simpl in *.
    intros [= <- <- <-]. exists sub. simpl.
    rewrite Hs', Hsub, Hc', Hc, Hr', Hr, Hcap', Hcap, Hf', Hf.
    subst s1; simpl. rewrite insert_insert_eq. done.
  - intros [= <- <- <-]. exists sub. simpl.
    rewrite Hsub, Hc, Hr, Hcap, Hf.
    subst s1; simpl. rewrite insert_insert_eq. done.
Qed.

(** A transaction that fails leaves the store as it was. *)
Lemma exec_failed_same (o : Op) (s s' : State) (e : Error) :
  exec p o s = (Failed e, s') -> s' = s.
Proof.
  destruct o; simpl.
  - unfold create. repeat case_match; congruence.
  - unfold attachRecyclables. repeat case_match; congruence.
  - unfold approve. repeat case_match; congruence.
  - unfold reject. repeat case_match; congruence.
  - unfold claim. repeat case_match; congruence.
  - unfold syncReserve. repeat case_match; congruence.
  - unfold grantRole. repeat case_match; congruence.
  - unfold revokeRole. repeat case_match; congruence.
  - unfold updateTreasury. repeat case_match; congruence.
  - unfold setFee. repeat case_match; congruence.
Qed.

Lemma exec_shape (o : Op) (s : State) :
  SubsStep s (exec p o s).1 (exec p o s).2.
Proof.
  destruct o; simpl.
  - unfold create.
    destruct (_ || _); [by apply SubsSame |].
    destruct (_ && _); [by apply SubsSame |].
    simpl. eapply SubsNew; simpl; done.
  - unfold attachRecyclables.
    destruct (submissions s !! i) as [sub |] eqn:Hi; [| by apply SubsSame].
    destruct (status sub) eqn:Hst; try by apply SubsSame.
    destruct (recyclablesEvidenceRef sub); [by apply SubsSame |].
    simpl. eapply (SubsUpd _ _ _ i sub); simpl; done.
  - destruct (approve p i actor s) as [[r sig | e] s'] eqn:Ha; simpl.
    + apply approve_done in Ha
        as (sub & _ & Hi & Hst & -> & Hs & Hc & _).
      eapply (SubsUpd _ _ _ i sub); simpl; try done.
    + apply (exec_failed_same (OpApprove i actor)) in Ha as ->.
      by apply SubsSame.
  - unfold reject.
    destruct (canVerify actor s); [| by apply SubsSame]. simpl.
    destruct (submissions s !! i) as [sub |] eqn:Hi; [| by apply SubsSame].
    destruct (status sub) eqn:Hst; try by apply SubsSame.
    simpl. eapply (SubsUpd _ _ _ i sub); simpl; done.
  - unfold claim. destruct (_ =? _); by apply SubsSame.
  - unfold syncReserve. destruct (negb _); by apply SubsSame.
  - unfold grantRole. destruct (negb _); by apply SubsSame.
  - unfold revokeRole. destruct (negb _); by apply SubsSame.
  - unfold updateTreasury. destruct (negb _); by apply SubsSame.
  - unfold setFee. destruct (negb _); by apply SubsSame.
Qed.

Lemma wf_init (cap : Z) (deployer : Address) : wf (init cap deployer).
Proof. intros i sub. simpl. by rewrite lookup_empty. Qed.

Lemma wf_exec (o : Op) (s : State) : wf s -> wf (exec p o s).2.
Proof.
  intros Hwf.
  destruct (exec_shape o s)
    as [Hs Hc _ | sub _ Hs Hc Hid Hst Hrw
        | i sub sub' Hi Hs Hc _ Hid _ Hst Hrw];
    intros j subj; rewrite Hs, Hc.
  - apply Hwf.
  - rewrite lookup_insert. case_decide as Hj.
    + intros [= <-]. subst j. repeat split; [lia | done | done].
    + intros Hj'. destruct (Hwf _ _ Hj') as (? & ? & ?).
      repeat split; [lia | done | done].
  - rewrite lookup_insert. case_decide as Hj.
    + intros [= <-]. subst j.
      destruct (Hwf _ _ Hi) as (? & ? & Hp).
      repeat split; [done | congruence |].
      intros Hp'. rewrite Hrw by done. by apply Hp.
    + apply Hwf.
Qed.

Lemma wf_stateAfter (ops : list Op) (s : State) :
  wf s -> wf (stateAfter p ops s).
Proof.
  revert s. induction ops as [| o ops IH]; intros s Hwf; [done |].
  unfold stateAfter in *. simpl.
  pose proof (wf_exec o s Hwf) as Hwf'.
  destruct (exec p o s) as [out s1]. simpl in Hwf'.
  specialize (IH s1 Hwf').
  destruct (run p ops s1) as [outs s2]. done.
Qed.

Lemma stateAfter_cons (o : Op) (ops : list Op) (s : State) :
  stateAfter p (o :: ops) s = stateAfter p ops (exec p o s).2.
Proof.
  unfold stateAfter. simpl.
  destruct (exec p o s) as [out s1]. simpl.
  by destruct (run p ops s1).
Qed.

Lemma outcomesOf_cons (o : Op) (ops : list Op) (s : State) :
  outcomesOf p (o :: ops) s
  = (exec p o s).1 :: outcomesOf p ops (exec p o s).2.
Proof.
  unfold outcomesOf. simpl.
  destruct (exec p o s) as [out s1]. simpl.
  by destruct (run p ops s1).
Qed.

Lemma stateAfter_app (ops1 ops2 : list Op) (s : State) :
  stateAfter p (ops1 ++ ops2) s
  = stateAfter p ops2 (stateAfter p ops1 s).
Proof.
  revert s. induction ops1 as [| o ops1 IH]; intros s; [done |].
  simpl. rewrite !stateAfter_cons. apply IH.
Qed.

(** One step moves the status of a stored submission only out of
    Pending, and only to Approved or Rejected. *)
Lemma status_step (o : Op) (s : State) (i : N) (st : Status) :
  wf s ->
  statusOf i s = Some st ->
  exists st',
    statusOf i (exec p o s).2 = Some st'
    /\ (st' = st
        \/ (st = Pending /\ (st' = Approved \/ st' = Rejected))).
Proof.
  intros Hwf. unfold statusOf. intros Hst.
  destruct (submissions s !! i) as [subi |] eqn:Hi; [| done].
  simpl in Hst. injection Hst as <-.
  destruct (exec_shape o s)
    as [Hs Hc _ | sub _ Hs Hc Hid Hst Hrw
        | j sub sub' Hj Hs Hc _ Hid _ Hst Hrw]; rewrite Hs.
  - rewrite Hi. simpl. eauto.
  - rewrite lookup_insert_ne.
    + rewrite Hi. simpl. eauto.
    + intros <-. destruct (Hwf _ _ Hi). lia.
  - rewrite lookup_insert. case_decide as Hij.
    + subst j. simpl. rewrite Hi in Hj. injection Hj as <-.
      exists (status sub'). split; [done |].
      rewrite Hst. destruct (status sub'); eauto.
    + rewrite Hi. simpl. eauto.
Qed.

(** *** The ledger *)

Lemma balance_credit (a a' : Address) (c c' : Category) (amt : Z)
    (s : State) :
  balance a c (credit a' c' amt s)
  = balance a c s + (if decide (a' = a /\ c' = c) then amt else 0).
Proof.
  unfold balance at 1, credit. simpl.
  rewrite lookup_insert. repeat case_decide; simpl.
  - simplify_eq. reflexivity.
  - simplify_eq. tauto.
  - destruct_and!. simplify_eq.
  - unfold balance. lia.
Qed.

Lemma balance_with_submission (a : Address) (c : Category) (i : N)
    (sub : Submission) (s : State) :
  balance a c (with_submission i sub s) = balance a c s.
Proof. reflexivity. Qed.

Lemma balance_with_event (a : Address) (c : Category) (e : Event)
    (s : State) :
  balance a c (with_event e s) = balance a c s.
Proof. reflexivity. Qed.

Lemma balance_with_reserve (a : Address) (c : Category) (cap dist : Z)
    (s : State) :
  balance a c (with_reserve cap dist s) = balance a c s.
Proof. reflexivity. Qed.

Lemma creditOnApproval_balance (i : N) (s : State) (sub : Submission) :
  submissions s !! i = Some sub ->
  rewarded sub = false ->
  forall a c,
    balance a c (creditOnApproval p i s)
    = balance a c s + accrualCredit p sub a c.
Proof.
  intros Hi Hrw a c. unfold creditOnApproval, accrualCredit.
  rewrite Hi, Hrw. rewrite balance_with_submission.
  repeat case_bool_decide; rewrite ?balance_credit;
    repeat case_decide; destruct_and?; simplify_eq; try tauto; lia.
Qed.

Lemma payoutIfEligible_spec (sub : Submission) (s : State) :
  let paid := unitReward p <=? capacity s - distributed s in
  let s' := (payoutIfEligible p sub s).2 in
  (payoutIfEligible p sub s).1
  = (if paid then None else Some ReserveExhausted)
  /\ distributed s' = distributed s + (if paid then unitReward p else 0)
  /\ (forall a c,
        balance a c s'
        = balance a c s
          + (if decide (paid = true /\ submitter sub = a /\ Recyclables = c)
             then unitReward p else 0)).
Proof.
  unfold payoutIfEligible.
  destruct (unitReward p <=? capacity s - distributed s); simpl.
  - split; [done |]. split; [done |]. intros a c.
    rewrite balance_credit, balance_with_reserve.
    repeat case_decide; destruct_and?; simplify_eq; try tauto; lia.
  - split; [done |]. split; [lia |]. intros a c. lia.
Qed.

(** The complete effect of approving a Pending, not yet rewarded
    submission by a caller who may verify. *)
Lemma approve_spec (i : N) (actor : Address) (s : State)
    (sub : Submission) :
  canVerify actor s = true ->
  submissions s !! i = Some sub ->
  status sub = Pending ->
  rewarded sub = false ->
  let paid :=
    hasRecyclables sub && (unitReward p <=? capacity s - distributed s) in
  let s' := (approve p i actor s).2 in
  (approve p i actor s).1
  = Done RUnit (if hasRecyclables sub && negb paid
                then Some ReserveExhausted else None)
  /\ distributed s' = distributed s + (if paid then unitReward p else 0)
  /\ capacity s' = capacity s
  /\ (forall a c,
        balance a c s' = balance a c s + approvalCredit p sub paid a c).
Proof.
  intros Hv Hi Hst Hrw. unfold approve, approvalCredit.
  rewrite Hv, Hi, Hst. simpl.
  set (s1 := with_submission i (set_status Approved sub) s).
  assert (H1 : submissions s1 !! i = Some (set_status Approved sub))
    by (subst s1; simpl; apply lookup_insert_eq).
  pose proof (creditOnApproval_balance i s1 _ H1 Hrw) as Hbal.
  pose proof (creditOnApproval_frame i s1) as (_ & Hcap & Hdist & _).
  set (s2 := creditOnApproval p i s1) in *.
  destruct (hasRecyclables sub); simpl.
  - pose proof (payoutIfEligible_spec sub s2) as (Hsig & Hd & Hb).
    pose proof (payoutIfEligible_frame sub s2) as (_ & _ & Hcap' & _).
    rewrite Hcap, Hdist in Hsig, Hd, Hb.
    destruct (payoutIfEligible p sub s2) as [sig s3]. simpl in *.
    subst sig.
    split; [by destruct (unitReward p <=? capacity s - distributed s) |].
    split; [done |]. split; [congruence |].
    intros a c. rewrite balance_with_event, Hb, Hbal.
    subst s1. rewrite balance_with_submission.
    unfold accrualCredit. simpl.
    repeat case_decide; destruct_and?; simplify_eq; try tauto; lia.
  - simpl in Hcap, Hdist.
    split; [done |]. split; [lia |]. split; [done |].
    intros a c. rewrite balance_with_event, Hbal.
    subst s1. rewrite balance_with_submission.
    unfold accrualCredit. simpl.
    repeat case_decide; destruct_and?; simplify_eq; try tauto; lia.
Qed.

(** *** One-way status *)

Lemma approve_not_pending (i : N) (actor : Address) (s : State)
    (st : Status) :
  statusOf i s = Some st -> st <> Pending ->
  approve p i actor s
  = (Failed (if canVerify actor s then InvalidState else Unauthorized), s).
Proof.
  unfold statusOf, approve. intros Hst Hne.
  destruct (canVerify actor s); [| done]. simpl.
  destruct (submissions s !! i) as [sub |]; [| done].
  simpl in Hst. injection Hst as Hst.
  destruct (status sub); congruence.
Qed.

Lemma reject_not_pending (i : N) (actor : Address) (s : State)
    (st : Status) :
  statusOf i s = Some st -> st <> Pending ->
  reject i actor s
  = (Failed (if canVerify actor s then InvalidState else Unauthorized), s).
Proof.
  unfold statusOf, reject. intros Hst Hne.
  destruct (canVerify actor s); [| done]. simpl.
  destruct (submissions s !! i) as [sub |]; [| done].
  simpl in Hst. injection Hst as Hst.
  destruct (status sub); congruence.
Qed.

Lemma status_stays (later : list Op) (s : State) (i : N) (st : Status) :
  wf s -> statusOf i s = Some st -> st <> Pending ->
  statusOf i (stateAfter p later s) = Some st.
Proof.
  revert s. induction later as [| o later IH]; intros s Hwf Hst Hne.
  - done.
  - rewrite stateAfter_cons. apply IH; [by apply wf_exec | | done].
    destruct (status_step o s i st Hwf Hst) as (st' & Hst' & [-> | [? _]]);
      done.
Qed.

(** C1, as the store has it: once a submission is Approved or Rejected,
    no later sequence of transactions changes its status; a further
    approve or reject by a holder of ADMIN or VERIFIER fails with
    InvalidState (by any other caller with Unauthorized, the guard
    coming first) and leaves the store untouched; and a single
    transaction moves a status only from Pending to Approved or to
    Rejected. *)
Theorem terminal_status_final (cap : Z) (deployer : Address)
    (history : list Op) (i : N) (st : Status) :
  let s := stateAfter p history (init cap deployer) in
  statusOf i s = Some st ->
  st <> Pending ->
  (forall later, statusOf i (stateAfter p later s) = Some st)
  /\ (forall actor,
        canVerify actor s = true ->
        approve p i actor s = (Failed InvalidState, s)
        /\ reject i actor s = (Failed InvalidState, s))
  /\ (forall actor,
        canVerify actor s = false ->
        approve p i actor s = (Failed Unauthorized, s)
        /\ reject i actor s = (Failed Unauthorized, s))
  /\ (forall o j stj,
        statusOf j s = Some stj ->
        exists st',
          statusOf j (exec p o s).2 = Some st'
          /\ (st' = stj
              \/ (stj = Pending /\ (st' = Approved \/ st' = Rejected)))).
Proof.
  intros s Hst Hne.
  assert (Hwf : wf s) by (apply wf_stateAfter, wf_init).
  split; [| split; [| split]].
  - intros later. by apply status_stays.
  - intros actor Hv.
    rewrite (approve_not_pending i actor s st),
      (reject_not_pending i actor s st), Hv by done.
    done.
  - intros actor Hv.
    rewrite (approve_not_pending i actor s st),
      (reject_not_pending i actor s st), Hv by done.
    done.
  - intros o j stj Hj. by apply status_step.
Qed.

(** *** Two approvals racing for one submission *)

Lemma canVerify_roles (a : Address) (s s' : State) :
  roles s' = roles s -> canVerify a s' = canVerify a s.
Proof. unfold canVerify, hasRole. by intros ->. Qed.

(** C2: the two invocations are two atomic transactions, ordered one
    way or the other. For a Pending submission and two callers who may
    verify, in either order the first approval succeeds, the second
    fails with InvalidState and changes nothing, and every ledger
    category holds exactly one approval's credit: base-impact of the
    submitter grew by the base reward, once. *)
Theorem concurrent_approve_exactly_once (cap : Z) (deployer : Address)
    (history : list Op) (i : N) (sub : Submission) (a1 a2 : Address) :
  let s := stateAfter p history (init cap deployer) in
  submissions s !! i = Some sub ->
  status sub = Pending ->
  canVerify a1 s = true ->
  canVerify a2 s = true ->
  forall first second,
    (first = a1 /\ second = a2) \/ (first = a2 /\ second = a1) ->
    exists sig s1 paid,
      approve p i first s = (Done RUnit sig, s1)
      /\ approve p i second s1 = (Failed InvalidState, s1)
      /\ outcomesOf p [OpApprove i first; OpApprove i second] s
         = [Done RUnit sig; Failed InvalidState]
      /\ stateAfter p [OpApprove i first; OpApprove i second] s = s1
      /\ balance (submitter sub) BaseImpact s1
         = balance (submitter sub) BaseImpact s + baseReward p
      /\ (forall a c,
            balance a c s1 = balance a c s + approvalCredit p sub paid a c).
Proof.
  intros s Hi Hst Hv1 Hv2 first second Horder.
  assert (Hwf : wf s) by (apply wf_stateAfter, wf_init).
  assert (Hrw : rewarded sub = false) by (by apply (Hwf i sub Hi)).
  assert (Hvf : canVerify first s = true)
    by (destruct Horder as [[-> _] | [-> _]]; done).
  assert (Hvs : canVerify second s = true)
    by (destruct Horder as [[_ ->] | [_ ->]]; done).
  destruct (approve_spec i first s sub Hvf Hi Hst Hrw)
    as (Hout & _ & _ & Hbal).
  destruct (approve p i first s) as [out s1] eqn:Ha. simpl in *.
  subst out.
  pose proof Ha as Hd.
  apply approve_done in Hd as (sub0 & _ & Hi0 & _ & _ & Hsubs & _ & Hr & _).
  assert (Hst1 : statusOf i s1 = Some Approved).
  { unfold statusOf. rewrite Hsubs, lookup_insert_eq. done. }
  assert (H2 : approve p i second s1 = (Failed InvalidState, s1)).
  { rewrite (approve_not_pending i second s1 Approved) by done.
    by rewrite (canVerify_roles second s s1 Hr), Hvs. }
  eexists _, s1, _. split; [done |]. split; [done |].
  split; [| split; [| split]].
  - rewrite outcomesOf_cons. simpl. rewrite Ha. simpl.
    rewrite outcomesOf_cons. simpl. rewrite H2. done.
  - rewrite !stateAfter_cons. simpl. rewrite Ha. simpl. rewrite H2. done.
  - rewrite Hbal. unfold approvalCredit, accrualCredit.
    repeat case_decide; destruct_and?; simplify_eq; try tauto; lia.
  - exact Hbal.
Qed.

(** *** Submission ids *)

Lemma createdIds_cons (out : Outcome) (outs : list Outcome) :
  createdIds (out :: outs)
  = match out with
    | Done (RId i) _ => i :: createdIds outs
    | _ => createdIds outs
    end.
Proof. unfold createdIds. simpl. by destruct out as [[] |]. Qed.

Lemma createdIds_cons_other (out : Outcome) (outs : list Outcome) :
  (forall n sig, out <> Done (RId n) sig) ->
  createdIds (out :: outs) = createdIds outs.
Proof.
  intros Hno. rewrite createdIds_cons.
  destruct out as [[| n |] sig |]; try done. by destruct (Hno n sig).
Qed.

(** From any store, the ids handed out by a run are the consecutive
    counter values, and the counter ends that many steps further. *)
Lemma createdIds_from (ops : list Op) (s : State) :
  let ids := createdIds (outcomesOf p ops s) in
  ids = (fun j => (submissionCount s + N.of_nat j)%N) <$> seq 0 (length ids)
  /\ submissionCount (stateAfter p ops s)
     = (submissionCount s + N.of_nat (length ids))%N.
Proof.
  revert s. induction ops as [| o ops IH]; intros s; simpl.
  - split; [done |]. unfold stateAfter. simpl. lia.
  - rewrite outcomesOf_cons, stateAfter_cons.
    destruct (IH (exec p o s).2) as [IHids IHcount].
    destruct (exec_shape o s)
      as [_ Hc Hno | sub Hout _ Hc _ _ _ | i sub sub' _ _ Hc Hno _ _ _ _].
    + rewrite createdIds_cons_other by done.
      rewrite Hc in IHids, IHcount. done.
    + rewrite Hout, createdIds_cons. rewrite Hc in IHids, IHcount.
      set (ids := createdIds (outcomesOf p ops (exec p o s).2)) in *.
      simpl. split.
      * f_equal; [lia |]. rewrite <- fmap_S_seq, <- list_fmap_compose.
        rewrite IHids at 1. apply list_fmap_ext. intros _ j _. simpl. lia.
      * rewrite IHcount. lia.
    + rewrite createdIds_cons_other by done.
      rewrite Hc in IHids, IHcount. done.
Qed.

(** The part of C4 that holds: over any run from deployment, the ids
    returned by the successful creations are 0, 1, 2, ... in that order,
    hence pairwise distinct and strictly increasing, and the counter
    equals their number. On the client side, submitCleanup returns the
    counter value it read before sending the creation; only when no other
    transaction comes in between is the new Pending record of the sender
    stored under that id. *)
Theorem created_ids_sequential (cap : Z) (deployer : Address)
    (ops : list Op) (env : Contracts.Env)
    (beforeHash afterHash : string) (latScaled lngScaled : Z)
    (_referrer : option Address) (_hasImpactForm : bool)
    (_impactReportHash : string) (_fee : option Z) (now : N)
    (others1 others2 : list Op) (s s' : State) (i : N) :
  let ids := createdIds (outcomesOf p ops (init cap deployer)) in
  (ids = N.of_nat <$> seq 0 (length ids)
   /\ NoDup ids
   /\ (forall j k a b,
         (j < k)%nat -> ids !! j = Some a -> ids !! k = Some b -> (a < b)%N)
   /\ submissionCount (stateAfter p ops (init cap deployer))
      = N.of_nat (length ids))
  /\ (Contracts.submitCleanup p env beforeHash afterHash latScaled lngScaled
        _referrer _hasImpactForm _impactReportHash _fee now
        others1 others2 s = (Contracts.Returned i, s') ->
      i = submissionCount s
      /\ (others1 = [] -> others2 = [] ->
          exists account sub,
            Contracts.account_address env = Some account
            /\ submissions s' !! i = Some sub
            /\ id sub = i /\ submitter sub = account
            /\ status sub = Pending
            /\ submissionCount s' = N.succ i)).
Proof.
  intros ids. split.
  - destruct (createdIds_from ops (init cap deployer)) as [Hids Hcount].
    fold ids in Hids, Hcount. simpl in Hids, Hcount.
    assert (Heq : ids = N.of_nat <$> seq 0 (length ids)).
    { rewrite Hids at 1. apply list_fmap_ext. intros _ j _. lia. }
    split; [exact Heq |]. split; [| split].
    + rewrite Heq. apply NoDup_fmap_2; [apply _ | apply NoDup_seq].
    + intros j k a b Hjk. rewrite Heq, !list_lookup_fmap.
      intros Hj Hk.
      destruct (seq 0 (length ids) !! j) as [j' |] eqn:Hj'; [| done].
      destruct (seq 0 (length ids) !! k) as [k' |] eqn:Hk'; [| done].
      apply lookup_seq in Hj' as [-> _]. apply lookup_seq in Hk' as [-> _].
      simpl in Hj, Hk. simplify_eq. lia.
    + rewrite Hcount. lia.
  - unfold Contracts.submitCleanup.
    destruct (Contracts.SUBMISSION_ADDRESS env); [| done].
    destruct (Contracts.account_address env) as [account |]; [| done].
    destruct (Contracts.writeCreateSubmission _ now (stateAfter p others1 s))
      as [[r sig | e] s2] eqn:Hw; [| done].
    intros [= <- <-]. split; [done |].
    intros -> ->. exists account.
    unfold Contracts.writeCreateSubmission, create in Hw.
    unfold stateAfter in Hw. simpl in Hw.
    destruct (_ || _); [done |]. destruct (_ && _); [done |].
    injection Hw as <- <- <-.
    eexists. split; [done |]. unfold stateAfter. simpl.
    rewrite lookup_insert_eq. done.
Qed.

(** *** The recyclables reserve *)

(** What one transaction other than a reserve sync does to the reserve:
    the capacity stays, and the unit reward is paid out exactly when the
    transaction is an eligible approval and the remainder covers it. *)
Lemma exec_reserve_step (o : Op) (s : State) :
  wf s ->
  isSync o = false ->
  capacity (exec p o s).2 = capacity s
  /\ distributed (exec p o s).2
     = distributed s
       + (if isEligibleApproval p o s
             && (unitReward p <=? capacity s - distributed s)
          then unitReward p else 0).
Proof.
  intros Hwf Hsync. destruct o; try done; simpl.
  - unfold create. repeat case_match; simpl; split; (done || lia).
  - unfold attachRecyclables. repeat case_match; simpl; split; (done || lia).
  - destruct (approve p i actor s) as [[r sig | e] s'] eqn:Ha; simpl.
    + pose proof Ha as Hd.
      apply approve_done in Hd as (sub & Hv & Hi & Hst & _).
      assert (Hrw : rewarded sub = false) by (by apply (Hwf i sub Hi)).
      destruct (approve_spec i actor s sub Hv Hi Hst Hrw)
        as (_ & Hdist & Hcap & _).
      rewrite Ha in Hdist, Hcap. simpl in Hdist, Hcap.
      rewrite Hi. done.
    + apply (exec_failed_same (OpApprove i actor)) in Ha as ->.
      split; (done || lia).
  - unfold reject. repeat case_match; simpl; split; (done || lia).
  - unfold claim. repeat case_match; simpl; split; (done || lia).
  - unfold grantRole. repeat case_match; simpl; split; (done || lia).
  - unfold revokeRole. repeat case_match; simpl; split; (done || lia).
  - unfold updateTreasury. repeat case_match; simpl; split; (done || lia).
  - unfold setFee. repeat case_match; simpl; split; (done || lia).
Qed.

Lemma exec_reserve_le (o : Op) (s : State) :
  wf s ->
  distributed s <= capacity s ->
  distributed (exec p o s).2 <= capacity (exec p o s).2.
Proof.
  intros Hwf Hle. destruct (isSync o) eqn:Hsync.
  - destruct o; try done. simpl. unfold syncReserve.
    destruct (negb _); simpl; lia.
  - destruct (exec_reserve_step o s Hwf Hsync) as [-> ->].
    destruct (isEligibleApproval p o s); simpl; [| lia].
    destruct (Z.leb_spec (unitReward p) (capacity s - distributed s)); lia.
Qed.

Lemma reserve_le_stateAfter (ops : list Op) (s : State) :
  wf s ->
  distributed s <= capacity s ->
  distributed (stateAfter p ops s) <= capacity (stateAfter p ops s).
Proof.
  revert s. induction ops as [| o ops IH]; intros s Hwf Hle; [done |].
  rewrite stateAfter_cons. apply IH; [by apply wf_exec |].
  by apply exec_reserve_le.
Qed.

(** An eligible approval against an exhausted reserve. *)
Lemma approve_exhausted (i : N) (actor : Address) (s : State)
    (sub : Submission) :
  wf s ->
  canVerify actor s = true ->
  submissions s !! i = Some sub ->
  status sub = Pending ->
  hasRecyclables sub = true ->
  capacity s - distributed s < unitReward p ->
  (approve p i actor s).1 = Done RUnit (Some ReserveExhausted)
  /\ statusOf i (approve p i actor s).2 = Some Approved
  /\ distributed (approve p i actor s).2 = distributed s
  /\ capacity (approve p i actor s).2 = capacity s
  /\ (forall a,
        balance a Recyclables (approve p i actor s).2
        = balance a Recyclables s).
Proof.
  intros Hwf Hv Hi Hst Hrec Hlt.
  assert (Hrw : rewarded sub = false) by (by apply (Hwf i sub Hi)).
  destruct (approve_spec i actor s sub Hv Hi Hst Hrw)
    as (Hout & Hdist & Hcap & Hbal).
  rewrite Hrec in Hout, Hdist, Hbal.
  destruct (Z.leb_spec (unitReward p) (capacity s - distributed s)); [lia |].
  simpl in Hout, Hdist, Hbal.
  split; [done |]. split; [| split; [lia | split; [done |]]].
  - destruct (approve p i actor s) as [out s'] eqn:Ha. simpl in *. subst out.
    apply approve_done in Ha as (sub0 & _ & _ & _ & _ & Hs & _).
    unfold statusOf. rewrite Hs, lookup_insert_eq. done.
  - intros a. rewrite Hbal. unfold approvalCredit, accrualCredit.
    repeat case_decide; destruct_and?; simplify_eq; lia.
Qed.

(** With a capacity of 5000 and a unit reward of 5 the reserve has paid 5
    per eligible approval, up to the thousandth. *)
Lemma distributed_by_count (ops : list Op) (s : State) (k0 : Z) :
  wf s ->
  capacity s = 5000 ->
  unitReward p = 5 ->
  noSync ops = true ->
  0 <= k0 ->
  distributed s = 5 * Z.min k0 1000 ->
  capacity (stateAfter p ops s) = 5000
  /\ distributed (stateAfter p ops s)
     = 5 * Z.min (k0 + Z.of_nat (eligibleApprovals p ops s)) 1000.
Proof.
  intros Hwf Hcap Hunit. revert s k0 Hwf Hcap.
  induction ops as [| o ops IH]; intros s k0 Hwf Hcap Hns Hk0 Hdist.
  - unfold stateAfter. simpl. split; [done |]. rewrite Hdist. f_equal. lia.
  - simpl in Hns. apply andb_true_iff in Hns as [Ho Hns].
    apply negb_true_iff in Ho.
    destruct (exec_reserve_step o s Hwf Ho) as [Hc Hd].
    rewrite stateAfter_cons. simpl.
    destruct (isEligibleApproval p o s); simpl in Hd.
    + destruct (IH (exec p o s).2 (k0 + 1)) as [IHc IHd];
        [by apply wf_exec | congruence | done | lia | | ].
      * rewrite Hd, Hunit, Hcap, Hdist.
        destruct (Z.leb_spec 5 (5000 - 5 * Z.min k0 1000)); lia.
      * split; [done |]. rewrite IHd. f_equal. lia.
    + destruct (IH (exec p o s).2 k0) as [IHc IHd];
        [by apply wf_exec | congruence | done | lia | lia | ].
      split; [done |]. rewrite IHd. f_equal.
Qed.

(** C5: in every store reached from a deployment with a non-negative
    capacity the reserve has distributed at most its capacity; an eligible
    approval that finds less than the unit reward left still sets the
    submission to Approved, reports ReserveExhausted, and credits nothing
    to recyclables; and with capacity 5000 and unit reward 5 the amount
    distributed is 5 per eligible approval up to the thousandth, so after
    1000 of them it is 5000 and the next one gets no recyclables credit. *)
Theorem reserve_capped (cap : Z) (deployer : Address) (ops : list Op)
    (i : N) (actor : Address) (sub : Submission) :
  let s := stateAfter p ops (init cap deployer) in
  let n := eligibleApprovals p ops (init cap deployer) in
  let eligible :=
    canVerify actor s = true /\ submissions s !! i = Some sub
    /\ status sub = Pending /\ hasRecyclables sub = true in
  let withheld :=
    (approve p i actor s).1 = Done RUnit (Some ReserveExhausted)
    /\ statusOf i (approve p i actor s).2 = Some Approved
    /\ distributed (approve p i actor s).2 = distributed s
    /\ (forall a,
          balance a Recyclables (approve p i actor s).2
          = balance a Recyclables s) in
  (0 <= cap -> distributed s <= capacity s)
  /\ (eligible -> capacity s - distributed s < unitReward p -> withheld)
  /\ (cap = 5000 -> unitReward p = 5 -> noSync ops = true ->
      distributed s = 5 * Z.min (Z.of_nat n) 1000
      /\ (n = 1000%nat -> distributed s = 5000)
      /\ ((1000 <= n)%nat -> eligible -> withheld)).
Proof.
  intros s n eligible withheld.
  assert (Hwf : wf s) by (apply wf_stateAfter, wf_init).
  assert (Hwithheld :
    eligible -> capacity s - distributed s < unitReward p -> withheld).
  { intros (Hv & Hi & Hst & Hrec) Hlt.
    destruct (approve_exhausted i actor s sub Hwf Hv Hi Hst Hrec Hlt)
      as (? & ? & ? & _ & ?).
    done. }
  split; [| split; [exact Hwithheld |]].
  - intros Hcap. apply reserve_le_stateAfter; [apply wf_init | done].
  - intros -> Hunit Hns.
    destruct (distributed_by_count ops (init 5000 deployer) 0)
      as [Hc Hd]; [apply wf_init | done | done | done | lia | done |].
    fold s in Hc, Hd. fold n in Hd. rewrite Z.add_0_l in Hd.
    split; [exact Hd |]. split.
    + intros Hn. rewrite Hd, Hn. reflexivity.
    + intros Hn Hel. apply Hwithheld; [exact Hel |]. lia.
Qed.

(** *** Claiming *)

Lemma balance_zeroAll (a a' : Address) (c : Category) (s : State) :
  balance a' c (zeroAll a s) = if decide (a = a') then 0 else balance a' c s.
Proof.
  unfold balance, zeroAll, categories. simpl.
  case_decide as Ha.
  - subst a'. destruct c;
      repeat (rewrite lookup_insert; case_decide; simplify_eq; try done).
  - rewrite !lookup_insert_ne by congruence. done.
Qed.

Lemma claimable_zeroAll (a : Address) (s : State) :
  claimable a (zeroAll a s) = 0.
Proof.
  unfold claimable, categories. simpl.
  rewrite !balance_zeroAll. rewrite !decide_True by done. reflexivity.
Qed.

(** [claim] returns the sum over the categories and leaves every category
    of the account at zero; a zero sum is only signalled. *)
Lemma claim_spec (a : Address) (s : State) :
  (claimable a s <> 0 ->
   claim a s = (Done (RAmount (claimable a s)) None, zeroAll a s)
   /\ claimable a (claim a s).2 = 0)
  /\ (claimable a s = 0 ->
      claim a s = (Done (RAmount 0) (Some NothingToClaim), s)).
Proof.
  unfold claim. destruct (Z.eqb_spec (claimable a s) 0) as [H0 | Hne].
  - split; [done |]. done.
  - split; [| done]. intros _. split; [done |]. simpl.
    apply claimable_zeroAll.
Qed.

Lemma approvalCredit_nonneg (sub : Submission) (paid : bool) (a : Address)
    (c : Category) :
  0 <= baseReward p -> 0 <= impactReportBonus p -> 0 <= referralReward p ->
  0 <= unitReward p ->
  0 <= approvalCredit p sub paid a c.
Proof.
  intros. unfold approvalCredit, accrualCredit. repeat case_decide; lia.
Qed.

Lemma ledgerNonneg_exec (o : Op) (s : State) :
  0 <= baseReward p -> 0 <= impactReportBonus p -> 0 <= referralReward p ->
  0 <= unitReward p ->
  wf s -> ledgerNonneg s -> ledgerNonneg (exec p o s).2.
Proof.
  intros Hb Hi Hr Hu Hwf Hnn a c. destruct o; simpl.
  - unfold create. repeat case_match; simpl; apply Hnn.
  - unfold attachRecyclables. repeat case_match; simpl; apply Hnn.
  - destruct (approve p i actor s) as [[r sig | e] s'] eqn:Ha; simpl.
    + pose proof Ha as Hd.
      apply approve_done in Hd as (sub & Hv & Hsub & Hst & _).
      assert (Hrw : rewarded sub = false) by (by apply (Hwf i sub Hsub)).
      destruct (approve_spec i actor s sub Hv Hsub Hst Hrw)
        as (_ & _ & _ & Hbal).
      rewrite Ha in Hbal. simpl in Hbal. rewrite Hbal.
      pose proof (Hnn a c).
      pose proof (approvalCredit_nonneg sub
        (hasRecyclables sub && (unitReward p <=? capacity s - distributed s))
        a c Hb Hi Hr Hu).
      lia.
    + apply (exec_failed_same (OpApprove i actor)) in Ha as ->. apply Hnn.
  - unfold reject. repeat case_match; simpl; apply Hnn.
  - unfold claim. destruct (_ =? _); simpl; [apply Hnn |].
    rewrite balance_zeroAll. case_decide; [lia | apply Hnn].
  - unfold syncReserve. repeat case_match; simpl; apply Hnn.
  - unfold grantRole. repeat case_match; simpl; apply Hnn.
  - unfold revokeRole. repeat case_match; simpl; apply Hnn.
  - unfold updateTreasury. repeat case_match; simpl; apply Hnn.
  - unfold setFee. repeat case_match; simpl; apply Hnn.
Qed.

Lemma ledgerNonneg_stateAfter (ops : list Op) (s : State) :
  0 <= baseReward p -> 0 <= impactReportBonus p -> 0 <= referralReward p ->
  0 <= unitReward p ->
  wf s -> ledgerNonneg s -> ledgerNonneg (stateAfter p ops s).
Proof.
  intros Hb Hi Hr Hu. revert s.
  induction ops as [| o ops IH]; intros s Hwf Hnn; [done |].
  rewrite stateAfter_cons. apply IH; [by apply wf_exec |].
  by apply ledgerNonneg_exec.
Qed.

Lemma claimable_nonneg_ge (a : Address) (c : Category) (s : State) :
  ledgerNonneg s -> balance a c s <= claimable a s.
Proof.
  intros Hnn. unfold claimable, categories. simpl.
  pose proof (Hnn a BaseImpact). pose proof (Hnn a Streak).
  pose proof (Hnn a Referral). pose proof (Hnn a ImpactReport).
  pose proof (Hnn a VerifierIncentive). pose proof (Hnn a Recyclables).
  destruct c; lia.
Qed.

(** C7, as the client has it: getClaimableRewards answers 0 for every
    account, whatever has accrued; the sum of the accrued amounts across
    the categories is what the on-chain claim returns (zeroing them), and
    after an approval with a positive base reward that sum is positive for
    the submitter while the client read still answers 0. *)
Theorem claimable_read_is_stub (cap : Z) (deployer : Address)
    (history : list Op) (i : N) (actor : Address) (sub : Submission)
    (a : Address) :
  let s := stateAfter p history (init cap deployer) in
  Contracts.getClaimableRewards a = 0
  /\ (claimable a s <> 0 ->
      claim a s = (Done (RAmount (claimable a s)) None, zeroAll a s)
      /\ claimable a (claim a s).2 = 0)
  /\ (0 < baseReward p -> 0 <= impactReportBonus p ->
      0 <= referralReward p -> 0 <= unitReward p ->
      canVerify actor s = true -> submissions s !! i = Some sub ->
      status sub = Pending ->
      0 < claimable (submitter sub) (approve p i actor s).2
      /\ Contracts.getClaimableRewards (submitter sub) = 0).
Proof.
  intros s. split; [reflexivity |]. split.
  - apply claim_spec.
  - intros Hb Hib Hr Hu Hv Hi Hst. split; [| reflexivity].
    assert (Hwf : wf s) by (apply wf_stateAfter, wf_init).
    assert (Hnn : ledgerNonneg s).
    { apply ledgerNonneg_stateAfter; try lia; [apply wf_init |].
      intros a' c'. unfold balance. simpl. by rewrite lookup_empty. }
    assert (Hrw : rewarded sub = false) by (by apply (Hwf i sub Hi)).
    destruct (approve_spec i actor s sub Hv Hi Hst Hrw)
      as (_ & _ & _ & Hbal).
    pose proof (ledgerNonneg_exec (OpApprove i actor) s) as Hnn'.
    simpl in Hnn'.
    specialize (Hnn' ltac:(lia) Hib Hr Hu Hwf Hnn).
    pose proof (claimable_nonneg_ge (submitter sub) BaseImpact _ Hnn') as Hge.
    rewrite Hbal in Hge.
    pose proof (Hnn (submitter sub) BaseImpact).
    assert (baseReward p
            <= approvalCredit p sub
                 (hasRecyclables sub
                  && (unitReward p <=? capacity s - distributed s))
                 (submitter sub) BaseImpact).
    { unfold approvalCredit, accrualCredit.
      repeat case_decide; destruct_and?; simplify_eq; try tauto; lia. }
    lia.
Qed.


(** C6, as the client has it: getUserLevel answers 0 for every account;
    getCleanupDetails reports, per submission, level 1 when the submission
    is Approved and 0 otherwise (and 0 in its local fallback). Neither
    reads the number of approved submissions of the user. *)
Theorem level_read_is_stub (env : Contracts.Env) (cleanupId dateNow : N)
    (s : State) (a : Address) :
  Contracts.getUserLevel a = 0
  /\ (forall addr sub,
        Contracts.SUBMISSION_ADDRESS env = Some addr ->
        submissions s !! cleanupId = Some sub ->
        exists d,
          Contracts.getCleanupDetails env cleanupId dateNow s
          = Contracts.Returned d
          /\ Contracts.cd_user d = submitter sub
          /\ Contracts.cd_verified d = bool_decide (status sub = Approved)
          /\ Contracts.cd_level d
             = (if bool_decide (status sub = Approved) then 1 else 0))
  /\ (Contracts.SUBMISSION_ADDRESS env = None ->
      exists d,
        Contracts.getCleanupDetails env cleanupId dateNow s
        = Contracts.Returned d
        /\ Contracts.cd_level d = 0).
Proof.
  split; [reflexivity |]. split.
  - intros addr sub Henv Hi. unfold Contracts.getCleanupDetails.
    rewrite Henv. unfold Contracts.getSubmissionDetails. rewrite Hi.
    eexists. split; [reflexivity |]. simpl.
    by destruct (status sub).
  - intros Henv. unfold Contracts.getCleanupDetails. rewrite Henv.
    eexists. split; reflexivity.
Qed.

End WithParams.

(** At the concrete store where Alice's submission 0 is Approved, an
    approve by a caller without a role is refused as Unauthorized, not
    as InvalidState. *)
Lemma terminal_approve_by_stranger :
  statusOf 0%N Scenario.approvedOnce = Some Approved
  /\ (approve Scenario.demo 0%N Scenario.stranger Scenario.approvedOnce).1
     = Failed Unauthorized
  /\ (approve Scenario.demo 0%N Scenario.stranger Scenario.approvedOnce).1
     <> Failed InvalidState.
Proof.
  split; [vm_compute; reflexivity |]. split; [vm_compute; reflexivity |].
  vm_compute. discriminate.
Qed.

Lemma terminal_status_final_witness :
  statusOf 0%N Scenario.approvedOnce = Some Approved
  /\ (forall later,
        statusOf 0%N (stateAfter Scenario.demo later Scenario.approvedOnce)
        = Some Approved)
  /\ approve Scenario.demo 0%N Scenario.verifier Scenario.approvedOnce
     = (Failed InvalidState, Scenario.approvedOnce).
Proof.
  assert (H0 : statusOf 0%N Scenario.approvedOnce = Some Approved)
    by (vm_compute; reflexivity).
  assert (Hne : Approved <> Pending) by discriminate.
  assert (Hv : canVerify Scenario.verifier Scenario.approvedOnce = true)
    by (vm_compute; reflexivity).
  destruct (terminal_status_final Scenario.demo 5000 Scenario.deployer
              Scenario.approvedOnceOps 0%N Approved H0 Hne)
    as (Hlater & Hver & _).
  destruct (Hver Scenario.verifier Hv) as [Happrove _].
  split; [exact H0 |]. split; [exact Hlater | exact Happrove].
Defined.

Lemma created_ids_sequential_witness :
  let env := {| Contracts.SUBMISSION_ADDRESS := Some 100%N;
                Contracts.account_address := Some Scenario.alice |} in
  exists s',
    Contracts.submitCleanup Scenario.demo env "before" "after"
      52520008 13404954 None false "" None 0%N [] [] Scenario.deployed
    = (Contracts.Returned 0%N, s')
    /\ 0%N = submissionCount Scenario.deployed.
Proof.
  intros env. eexists. split; [vm_compute; reflexivity |].
  eapply (created_ids_sequential Scenario.demo 5000 Scenario.deployer []
            env "before" "after" 52520008 13404954 None false "" None 0%N
            [] [] Scenario.deployed).
  vm_compute. reflexivity.
Defined.

(** When another creation is ordered between the read of the counter and
    the client's own creation, the value returned is still the counter
    read before, under which the other caller's record is stored. *)
Remark submitCleanup_returns_stale_count :
  let env := {| Contracts.SUBMISSION_ADDRESS := Some 100%N;
                Contracts.account_address := Some Scenario.alice |} in
  exists s' sub,
    Contracts.submitCleanup Scenario.demo env "before" "after"
      52520008 13404954 None false "" None 0%N [Scenario.bobCreates] []
      Scenario.deployed
    = (Contracts.Returned 0%N, s')
    /\ submissions s' !! 0%N = Some sub
    /\ submitter sub = Scenario.bob.
Proof.
  intros env. eexists _, _. split; [vm_compute; reflexivity |].
  split; [vm_compute; reflexivity |]. reflexivity.
Qed.

(** C4, where the code departs from it: Bob's creation is ordered between
    Alice's read of the counter and her own creation. The contract gives
    Alice's submission the id 1, the counter value before her creation was
    applied; submitCleanup returns 0, the count it read earlier, and under
    id 0 the contract holds Bob's submission. *)
Theorem submitCleanup_returns_another_callers_id :
  let env := {| Contracts.SUBMISSION_ADDRESS := Some 100%N;
                Contracts.account_address := Some Scenario.alice |} in
  let cfg :=
    Contracts.contractConfig Scenario.alice "before" "after" 52520008
      13404954 None false "" None in
  let atCreation :=
    stateAfter Scenario.demo [Scenario.bobCreates] Scenario.deployed in
  exists s' bobs alices,
    Contracts.submitCleanup Scenario.demo env "before" "after"
      52520008 13404954 None false "" None 0%N [Scenario.bobCreates] []
      Scenario.deployed
    = (Contracts.Returned 0%N, s')
    /\ submissionCount Scenario.deployed = 0%N
    /\ submissionCount atCreation = 1%N
    /\ (Contracts.writeCreateSubmission cfg 0%N atCreation).1
       = Done (RId 1%N) None
    /\ submissions s' !! 0%N = Some bobs
    /\ submitter bobs = Scenario.bob
    /\ submissions s' !! 1%N = Some alices
    /\ submitter alices = Scenario.alice
    /\ id alices = 1%N.
Proof.
  intros env cfg atCreation. eexists _, _, _.
  split; [vm_compute; reflexivity |].
  split; [vm_compute; reflexivity |].
  split; [vm_compute; reflexivity |].
  split; [vm_compute; reflexivity |].
  split; [vm_compute; reflexivity |].
  split; [reflexivity |].
  split; [vm_compute; reflexivity |].
  split; reflexivity.
Qed.

Lemma concurrent_approve_exactly_once_witness :
  let s := stateAfter Scenario.demo
             (Scenario.setup
              ++ [OpGrantRole ADMIN Scenario.deployer Scenario.deployer;
                  Scenario.aliceCreates])
             (init 5000 Scenario.deployer) in
  exists s1,
    stateAfter Scenario.demo
      [OpApprove 0%N Scenario.verifier; OpApprove 0%N Scenario.deployer] s
    = s1
    /\ balance Scenario.alice BaseImpact s1 = 10.
Proof.
  intros s.
  assert (Hi : is_Some (submissions s !! 0%N)) by (vm_compute; eauto).
  destruct Hi as [sub Hi].
  assert (Hst : status sub = Pending).
  { revert Hi. vm_compute. intros [= <-]. reflexivity. }
  assert (Hsub : submitter sub = Scenario.alice).
  { revert Hi. vm_compute. intros [= <-]. reflexivity. }
  assert (Hv1 : canVerify Scenario.verifier s = true)
    by (vm_compute; reflexivity).
  assert (Hv2 : canVerify Scenario.deployer s = true)
    by (vm_compute; reflexivity).
  destruct (concurrent_approve_exactly_once Scenario.demo 5000
              Scenario.deployer _ 0%N sub Scenario.verifier
              Scenario.deployer Hi Hst Hv1 Hv2
              Scenario.verifier Scenario.deployer (or_introl (conj eq_refl eq_refl)))
    as (sig & s1 & paid & _ & _ & _ & Hs1 & Hb & _).
  exists s1. split; [exact Hs1 |].
  rewrite Hsub in Hb. rewrite Hb. vm_compute. reflexivity.
Defined.

Lemma reserve_capped_witness :
  let ops :=
    Scenario.setup ++ Scenario.eligibleRounds 1000
    ++ [Scenario.aliceCreates; OpAttachRecyclables 1000%N "photo" "receipt"] in
  let s := stateAfter Scenario.demo ops (init 5000 Scenario.deployer) in
  let s' := (approve Scenario.demo 1000%N Scenario.verifier s).2 in
  distributed s <= capacity s
  /\ distributed s = 5000
  /\ (approve Scenario.demo 1000%N Scenario.verifier s).1
     = Done RUnit (Some ReserveExhausted)
  /\ statusOf 1000%N s' = Some Approved
  /\ balance Scenario.alice Recyclables s'
     = balance Scenario.alice Recyclables s.
Proof.
  intros ops s s'.
  assert (Hi : is_Some (submissions s !! 1000%N)) by (vm_compute; eauto).
  destruct Hi as [sub Hi].
  assert (Hst : status sub = Pending).
  { revert Hi. vm_compute. intros [= <-]. reflexivity. }
  assert (Hrec : hasRecyclables sub = true).
  { revert Hi. vm_compute. intros [= <-]. reflexivity. }
  assert (Hv : canVerify Scenario.verifier s = true)
    by (vm_compute; reflexivity).
  pose proof (reserve_capped Scenario.demo 5000 Scenario.deployer ops
                1000%N Scenario.verifier sub) as H.
  cbv zeta in H. destruct H as (Hle & _ & Hrun).
  assert (Hns : noSync ops = true) by (vm_compute; reflexivity).
  destruct (Hrun eq_refl eq_refl Hns) as (_ & H1000 & Hnext).
  assert (Hn : eligibleApprovals Scenario.demo ops (init 5000 Scenario.deployer)
               = 1000%nat) by (vm_compute; reflexivity).
  assert (Hge : (1000 <= eligibleApprovals Scenario.demo ops
                           (init 5000 Scenario.deployer))%nat)
    by (rewrite Hn; apply le_n).
  destruct (Hnext Hge (conj Hv (conj Hi (conj Hst Hrec))))
    as (Hout & Hstatus & _ & Hbal).
  split; [apply Hle; lia |]. split; [exact (H1000 Hn) |].
  split; [exact Hout |]. split; [exact Hstatus | exact (Hbal Scenario.alice)].
Defined.

(** With four approved submissions the leveling rule puts Alice at tier
    4, while getUserLevel answers 0. *)
Lemma user_level_ignores_approvals :
  approvedCount Scenario.alice Scenario.approvedFour = 4
  /\ ImpactProduct.level_tier
       (ImpactProduct.level
          (approvedCount Scenario.alice Scenario.approvedFour)) = 4
  /\ Contracts.getUserLevel Scenario.alice = 0
  /\ Contracts.getUserLevel Scenario.alice
     <> ImpactProduct.level_tier
          (ImpactProduct.level
             (approvedCount Scenario.alice Scenario.approvedFour)).
Proof.
  split; [vm_compute; reflexivity |]. split; [vm_compute; reflexivity |].
  split; [reflexivity |]. vm_compute. discriminate.
Qed.

Lemma level_read_is_stub_witness :
  let env := {| Contracts.SUBMISSION_ADDRESS := Some 100%N;
                Contracts.account_address := Some Scenario.alice |} in
  Contracts.getUserLevel Scenario.alice = 0
  /\ exists d,
       Contracts.getCleanupDetails env 0%N 0%N Scenario.approvedOnce
       = Contracts.Returned d
       /\ Contracts.cd_level d = 1.
Proof.
  intros env.
  assert (Hi : is_Some (submissions Scenario.approvedOnce !! 0%N))
    by (vm_compute; eauto).
  destruct Hi as [sub Hi].
  assert (Hst : status sub = Approved).
  { revert Hi. vm_compute. intros [= <-]. reflexivity. }
  destruct (level_read_is_stub env 0%N 0%N Scenario.approvedOnce
              Scenario.alice) as (H0 & Hread & _).
  split; [exact H0 |].
  destruct (Hread 100%N sub eq_refl Hi) as (d & Hd & _ & _ & Hl).
  exists d. split; [exact Hd |].
  rewrite Hl, Hst. reflexivity.
Defined.

(** After the approval of her submission Alice has 10 accrued on chain,
    while getClaimableRewards answers 0. *)
Lemma claimable_read_ignores_ledger :
  claimable Scenario.alice Scenario.approvedOnce = 10
  /\ Contracts.getClaimableRewards Scenario.alice = 0
  /\ Contracts.getClaimableRewards Scenario.alice
     <> claimable Scenario.alice Scenario.approvedOnce.
Proof.
  split; [vm_compute; reflexivity |]. split; [reflexivity |].
  vm_compute. discriminate.
Qed.

Lemma claimable_read_is_stub_witness :
  let s := stateAfter Scenario.demo
             (Scenario.setup ++ [Scenario.aliceCreates])
             (init 5000 Scenario.deployer) in
  exists sub,
    submissions s !! 0%N = Some sub
    /\ 0 < claimable (submitter sub)
             (approve Scenario.demo 0%N Scenario.verifier s).2
    /\ Contracts.getClaimableRewards (submitter sub) = 0.
Proof.
  intros s.
  assert (Hi : is_Some (submissions s !! 0%N)) by (vm_compute; eauto).
  destruct Hi as [sub Hi].
  assert (Hst : status sub = Pending).
  { revert Hi. vm_compute. intros [= <-]. reflexivity. }
  assert (Hv : canVerify Scenario.verifier s = true)
    by (vm_compute; reflexivity).
  pose proof (claimable_read_is_stub Scenario.demo 5000 Scenario.deployer
                (Scenario.setup ++ [Scenario.aliceCreates]) 0%N
                Scenario.verifier sub Scenario.alice) as H.
  cbv zeta in H. destruct H as (_ & _ & H).
  exists sub. split; [exact Hi |].
  apply H; [| | | | exact Hv | exact Hi | exact Hst]; simpl; lia.
Defined.


End ChainFacts.

(** ** Image paths and the progression table *)

Module ImpactProductPathFacts.
Import ImpactProduct.

Lemma in_range_cases (l : Z) :
  1 <= l <= 10 ->
  l = 1 \/ l = 2 \/ l = 3 \/ l = 4 \/ l = 5 \/ l = 6 \/ l = 7 \/ l = 8
  \/ l = 9 \/ l = 10.
Proof. lia. Qed.

Lemma imagePath_in_range (l : Z) :
  1 <= l <= 10 ->
  getImpactProductImagePath l
  = "/impact-products/IP" +:+ pretty l +:+ ".png".
Proof.
  intros H. unfold getImpactProductImagePath.
  destruct (Z.ltb_spec l 1); [lia |].
  destruct (Z.ltb_spec 10 l); [lia |]. reflexivity.
Qed.

Lemma imagePath_out_of_range (l : Z) :
  l < 1 \/ 10 < l ->
  getImpactProductImagePath l = "/impact-products/IP1.png".
Proof.
  intros H. unfold getImpactProductImagePath.
  destruct (Z.ltb_spec l 1); [done |].
  destruct (Z.ltb_spec 10 l); [done |]. lia.
Qed.

(** X1: the local image path always names one of the ten bundled images
    IP1.png .. IP10.png; levels within 1..10 get pairwise different
    images; every level outside 1..10 (0, negative, 11 and more) gets the
    image of level 1. *)
Theorem image_path_total_and_distinct (l1 l2 : Z) :
  (exists k,
     1 <= k <= 10
     /\ getImpactProductImagePath l1
        = "/impact-products/IP" +:+ pretty k +:+ ".png")
  /\ (1 <= l1 <= 10 -> 1 <= l2 <= 10 ->
      getImpactProductImagePath l1 = getImpactProductImagePath l2 ->
      l1 = l2)
  /\ (l1 < 1 \/ 10 < l1 ->
      getImpactProductImagePath l1 = getImpactProductImagePath 1).
Proof.
  split; [| split].
  - destruct (decide (1 <= l1 <= 10)) as [Hin | Hout].
    + exists l1. split; [done |]. by apply imagePath_in_range.
    + exists 1. split; [lia |]. rewrite imagePath_out_of_range by lia.
      reflexivity.
  - intros H1 H2.
    apply in_range_cases in H1. apply in_range_cases in H2.
    destruct_or!; subst; vm_compute; (reflexivity || discriminate).
  - intros H. rewrite imagePath_out_of_range by done. reflexivity.
Qed.

Lemma image_path_total_and_distinct_witness :
  getImpactProductImagePath 11 = getImpactProductImagePath 1
  /\ (getImpactProductImagePath 3 = getImpactProductImagePath 3 -> 3 = 3).
Proof.
  destruct (image_path_total_and_distinct 11 3) as (_ & _ & Hout).
  destruct (image_path_total_and_distinct 3 3) as (_ & Hinj & _).
  split; [apply Hout; lia | apply Hinj; lia].
Defined.

(** X2: getLevelName and getImpactValueRange agree with the
    LEVEL_PROGRESSION table: for every count n >= 1 the table has a row
    whose impact value is getImpactValueRange n, and that row carries the
    level getLevelName n; for n <= 0 the range 0 is in no row. *)
Theorem helpers_agree_with_progression_table (n : Z) :
  (1 <= n ->
   exists row,
     row ∈ LEVEL_PROGRESSION
     /\ row_impactValue row = getImpactValueRange n
     /\ row_cleanups row = getImpactValueRange n
     /\ row_level row = getLevelName n)
  /\ (n <= 0 ->
      forall row,
        row ∈ LEVEL_PROGRESSION ->
        row_impactValue row <> getImpactValueRange n).
Proof.
  split.
  - intros Hn.
    rewrite ImpactProductFacts.getImpactValueRange_cases,
      ImpactProductFacts.getLevelName_cases.
    unfold LEVEL_PROGRESSION.
    repeat case_decide; try lia.
    + exists {| row_cleanups := "1-3"; row_impactValue := "1-3";
                row_level := Newbie |}.
      rewrite !elem_of_cons. auto.
    + exists {| row_cleanups := "4-6"; row_impactValue := "4-6";
                row_level := Pro |}.
      rewrite !elem_of_cons. auto.
    + exists {| row_cleanups := "7-9"; row_impactValue := "7-9";
                row_level := Hero |}.
      rewrite !elem_of_cons. auto.
    + exists {| row_cleanups := "10+"; row_impactValue := "10+";
                row_level := Guardian |}.
      rewrite !elem_of_cons. auto 10.
  - intros Hn row.
    rewrite ImpactProductFacts.getImpactValueRange_cases.
    rewrite decide_True by done.
    unfold LEVEL_PROGRESSION. rewrite !elem_of_cons, elem_of_nil.
    intros [-> | [-> | [-> | [-> | []]]]]; discriminate.
Qed.

Lemma helpers_agree_with_progression_table_witness :
  exists row,
    row ∈ LEVEL_PROGRESSION
    /\ row_impactValue row = getImpactValueRange 5
    /\ row_level row = getLevelName 5.
Proof.
  destruct (helpers_agree_with_progression_table 5) as [H _].
  destruct (H ltac:(lia)) as (row & Hin & Hv & _ & Hl).
  exists row. split; [exact Hin |]. split; [exact Hv | exact Hl].
Defined.

(** X3: the level name never goes down when the count goes up: for
    n <= m the level of n stands in LEVEL_PROGRESSION at or before the
    level of m. *)
Theorem level_name_monotone (n m : Z) :
  n <= m ->
  exists i j,
    progressionIndex (getLevelName n) = Some i
    /\ progressionIndex (getLevelName m) = Some j
    /\ (i <= j)%nat.
Proof.
  intros Hnm. rewrite !ImpactProductFacts.getLevelName_cases.
  repeat case_decide; try lia;
    eexists _, _; (split; [vm_compute; reflexivity |]);
    (split; [vm_compute; reflexivity |]); lia.
Qed.

Lemma level_name_monotone_witness :
  exists i j,
    progressionIndex (getLevelName 2) = Some i
    /\ progressionIndex (getLevelName 8) = Some j
    /\ (i <= j)%nat.
Proof. apply (level_name_monotone 2 8). lia. Defined.

End ImpactProductPathFacts.

(** ** Gateway URLs and batch uploads *)

Module ImpactProductIpfsMoreFacts.
Import ImpactProduct ImpactProductIpfs UploadShapes.

Lemma substring_0_length (str : string) :
  String.substring 0 (String.length str) str = str.
Proof. induction str as [| c rest IH]; simpl; [done | by rewrite IH]. Qed.

Lemma prefix_nil (str : string) : String.prefix "" str = true.
Proof. by destruct str. Qed.

Lemma stripIpfsScheme_scheme (h : string) :
  stripIpfsScheme ("ipfs://" +:+ h) = h.
Proof.
  unfold stripIpfsScheme. simpl. rewrite prefix_nil.
  rewrite Nat.sub_0_r. apply substring_0_length.
Qed.

Lemma stripIpfsScheme_other (h : string) :
  String.prefix "ipfs://" h = false -> stripIpfsScheme h = h.
Proof. unfold stripIpfsScheme. by intros ->. Qed.

Section Urls.

Variable NEXT_PUBLIC_IPFS_GATEWAY : option string.
Variable NEXT_PUBLIC_APP_URL : option string.

(** X4: getImpactProductIPFSUrl puts the gateway in front of the hash
    with one leading ipfs:// removed, and only one; a hash without the
    scheme is used as it is. Applied to the image field of the metadata
    built by createImpactProductMetadata it gives the gateway followed by
    the image hash. *)
Theorem gateway_url_strips_scheme (h : string) (level : Z)
    (imageHash : string) (animationHash : option string)
    (cleanupsCompleted hypercertsEarned : option Z) :
  getImpactProductIPFSUrl NEXT_PUBLIC_IPFS_GATEWAY ("ipfs://" +:+ h)
  = ipfsGateway NEXT_PUBLIC_IPFS_GATEWAY +:+ h
  /\ (String.prefix "ipfs://" h = false ->
      getImpactProductIPFSUrl NEXT_PUBLIC_IPFS_GATEWAY h
      = ipfsGateway NEXT_PUBLIC_IPFS_GATEWAY +:+ h
      /\ getImpactProductIPFSUrl NEXT_PUBLIC_IPFS_GATEWAY ("ipfs://" +:+ h)
         = getImpactProductIPFSUrl NEXT_PUBLIC_IPFS_GATEWAY h)
  /\ getImpactProductIPFSUrl NEXT_PUBLIC_IPFS_GATEWAY
       ("ipfs://ipfs://" +:+ h)
     = ipfsGateway NEXT_PUBLIC_IPFS_GATEWAY +:+ "ipfs://" +:+ h
  /\ getImpactProductIPFSUrl NEXT_PUBLIC_IPFS_GATEWAY
       (image (createImpactProductMetadata NEXT_PUBLIC_APP_URL level
                 imageHash animationHash cleanupsCompleted
                 hypercertsEarned))
     = ipfsGateway NEXT_PUBLIC_IPFS_GATEWAY +:+ imageHash.
Proof.
  unfold getImpactProductIPFSUrl.
  split; [by rewrite stripIpfsScheme_scheme |].
  split; [| split].
  - intros Hno. rewrite stripIpfsScheme_scheme, stripIpfsScheme_other by done.
    done.
  - change ("ipfs://ipfs://" +:+ h) with ("ipfs://" +:+ ("ipfs://" +:+ h)).
    by rewrite stripIpfsScheme_scheme.
  - simpl image.
    by rewrite stripIpfsScheme_scheme.
Qed.

End Urls.

Lemma gateway_url_strips_scheme_witness :
  getImpactProductIPFSUrl None "QmImage"
  = "https://gateway.pinata.cloud/ipfs/QmImage"
  /\ getImpactProductIPFSUrl None "ipfs://QmImage"
     = getImpactProductIPFSUrl None "QmImage".
Proof.
  destruct (gateway_url_strips_scheme None None "QmImage" 1 "" None None None)
    as (_ & H & _).
  destruct (H eq_refl) as [H1 H2].
  split; [exact H1 | exact H2].
Defined.

Section Uploads.

Variable pinFile : File -> option IPFSUploadResult.
Variable pinJSON : ImpactProductMetadata -> string -> option IPFSUploadResult.
Variable NEXT_PUBLIC_APP_URL : option string.

Lemma upload_in_range (file : File) (level : Z) (w : World) :
  1 <= level <= 10 ->
  uploadImpactProductImage pinFile file level w
  = (imageReply pinFile file,
     if bool_decide (file_type file ∈ validTypes)
     then w ++ [FileUpload file] else w).
Proof.
  intros H. unfold uploadImpactProductImage, imageReply.
  destruct (Z.ltb_spec level 1); [lia |].
  destruct (Z.ltb_spec 10 level); [lia |]. simpl.
  case_bool_decide; simpl; [| done].
  unfold bind, uploadToIPFS, ret. by destruct (pinFile file).
Qed.

Lemma sentImages_cons (f : File) (images : list File) :
  sentImages (f :: images)
  = (if bool_decide (file_type f ∈ validTypes) then [FileUpload f] else [])
    ++ sentImages images.
Proof.
  unfold sentImages. rewrite filter_cons.
  case_decide; case_bool_decide; done.
Qed.

Lemma startUploads_spec (images : list File) (index : Z) (w : World) :
  0 <= index ->
  startUploads pinFile images index w
  = (expectedReplies pinFile images index,
     w ++ sentImages (take (Z.to_nat (10 - index)) images)).
Proof.
  revert index w. induction images as [| f rest IH]; intros index w Hi.
  - simpl. unfold expectedReplies, sentImages.
    rewrite take_nil. simpl. by rewrite app_nil_r.
  - simpl. destruct (Z.leb_spec (index + 1) 10) as [Hle | Hgt].
    + rewrite upload_in_range by lia.
      rewrite IH by lia.
      replace (Z.to_nat (10 - index))
        with (S (Z.to_nat (10 - (index + 1)))) by lia.
      simpl. unfold expectedReplies.
      replace (Z.to_nat (10 - index))
        with (S (Z.to_nat (10 - (index + 1)))) by lia.
      simpl. rewrite sentImages_cons. f_equal.
      * f_equal; [f_equal; lia |].
        apply imap_ext. intros k x _. simpl. f_equal. lia.
      * case_bool_decide; by rewrite <- ?app_assoc.
    + rewrite IH by lia. unfold expectedReplies.
      replace (Z.to_nat (10 - index)) with 0%nat by lia.
      replace (Z.to_nat (10 - (index + 1))) with 0%nat by lia.
      done.
Qed.

Lemma expectedReplies_lookup (images : list File) (index : Z) (k : nat)
    (lr : Z * Res IPFSUploadResult) :
  expectedReplies pinFile images index !! k = Some lr <->
  exists f,
    images !! k = Some f /\ (k < Z.to_nat (10 - index))%nat
    /\ lr = (index + 1 + Z.of_nat k, imageReply pinFile f).
Proof.
  unfold expectedReplies. rewrite list_lookup_imap.
  destruct (take _ images !! k) as [f |] eqn:Hk; simpl.
  - apply lookup_take_Some in Hk as [Hk Hlt]. split.
    + intros [= <-]. eauto.
    + intros (f' & Hf' & _ & ->). congruence.
  - split; [done |]. intros (f & Hf & Hlt & _).
    rewrite lookup_take_lt in Hk by done. congruence.
Qed.

Lemma expectedReplies_elem (images : list File) (index : Z)
    (lr : Z * Res IPFSUploadResult) :
  lr ∈ expectedReplies pinFile images index ->
  exists f, f ∈ take (Z.to_nat (10 - index)) images
            /\ lr.2 = imageReply pinFile f.
Proof.
  intros [k Hk]%list_elem_of_lookup.
  apply expectedReplies_lookup in Hk as (f & Hf & Hlt & ->).
  exists f. split; [| done].
  apply list_elem_of_lookup. exists k. by rewrite lookup_take_lt.
Qed.

Lemma expectedReplies_levels_NoDup (images : list File) (index : Z) :
  NoDup (expectedReplies pinFile images index).*1.
Proof.
  apply NoDup_alt. intros i j l. rewrite !list_lookup_fmap.
  destruct (expectedReplies pinFile images index !! i) as [lri |] eqn:Hi;
    [| done].
  destruct (expectedReplies pinFile images index !! j) as [lrj |] eqn:Hj;
    [| done].
  apply expectedReplies_lookup in Hi as (fi & _ & _ & ->).
  apply expectedReplies_lookup in Hj as (fj & _ & _ & ->).
  simpl. intros [= <-] [= Heq]. lia.
Qed.

Lemma firstRejection_none (rs : list (Z * Res IPFSUploadResult)) :
  (forall lr, lr ∈ rs -> exists r, lr.2 = Ok r) ->
  firstRejection rs = None.
Proof.
  intros Hall. unfold firstRejection.
  assert (Hnil : omap (fun lr : Z * Res IPFSUploadResult =>
                         match lr.2 with Err e => Some e | Ok _ => None end)
                   rs = []).
  { induction rs as [| lr rs IH]; [done |]. simpl.
    destruct (Hall lr) as [r Hr]; [left |]. rewrite Hr.
    apply IH. intros lr' Hin. apply Hall. by right. }
  rewrite Hnil. done.
Qed.

Lemma firstRejection_bad_type (rs : list (Z * Res IPFSUploadResult)) :
  (forall lr e, lr ∈ rs -> lr.2 = Err e -> e = BadFileType \/ e = ServiceError) ->
  (exists lr, lr ∈ rs /\ lr.2 = Err BadFileType) ->
  firstRejection rs = Some BadFileType.
Proof.
  intros Honly (lr & Hin & Hbad). unfold firstRejection.
  set (errs := omap _ rs).
  assert (Hmem : BadFileType ∈ errs).
  { subst errs. apply list_elem_of_omap. exists lr. by rewrite Hbad. }
  assert (Herrs : forall e, e ∈ errs -> e = BadFileType \/ e = ServiceError).
  { intros e He. subst errs. apply list_elem_of_omap in He as (lr' & Hin' & He).
    destruct (lr'.2) as [r | e'] eqn:Hlr; [done |]. injection He as <-.
    by apply (Honly lr'). }
  destruct (filter (fun e => isValidationError e = true) errs)
    as [| e rest] eqn:Hf.
  - assert (BadFileType ∈ filter (fun e => isValidationError e = true) errs)
      by (by apply list_elem_of_filter).
    rewrite Hf in H. by apply elem_of_nil in H.
  - assert (He : e ∈ filter (fun e => isValidationError e = true) errs)
      by (rewrite Hf; left).
    apply list_elem_of_filter in He as [Hv He].
    destruct (Herrs e He) as [-> | ->]; [done | done].
Qed.

Lemma collectResults_lookup (rs : list (Z * Res IPFSUploadResult))
    (m : gmap Z IPFSUploadResult) (l : Z) :
  NoDup rs.*1 ->
  (forall r, (l, Ok r) ∈ rs ->
     foldl (fun m lr => match lr.2 with
                        | Ok r => <[lr.1 := r]> m
                        | Err _ => m
                        end) m rs !! l = Some r)
  /\ (l ∉ rs.*1 ->
      foldl (fun m lr => match lr.2 with
                         | Ok r => <[lr.1 := r]> m
                         | Err _ => m
                         end) m rs !! l = m !! l).
Proof.
  revert m. induction rs as [| [l' r'] rs IH]; intros m Hnd.
  - split; [intros r Hin; by apply elem_of_nil in Hin | done].
  - simpl in Hnd. apply NoDup_cons in Hnd as [Hnotin Hnd]. simpl. split.
    + intros r Hin. apply elem_of_cons in Hin as [[= <- <-] | Hin].
      * destruct (IH (<[l := r]> m) Hnd) as [_ Hout].
        rewrite Hout by done. apply lookup_insert_eq.
      * by apply IH.
    + intros Hl. apply not_elem_of_cons in Hl as [Hne Hl].
      destruct (IH (match r' with Ok r => <[l' := r]> m | Err _ => m end) Hnd)
        as [_ Hout].
      rewrite Hout by done.
      destruct r'; [by rewrite lookup_insert_ne | done].
Qed.

Lemma uploadAll_spec (images : list File) (w : World) :
  uploadAllImpactProductImages pinFile images w
  = (match firstRejection (expectedReplies pinFile images 0) with
     | Some e => Err e
     | None => Ok (collectResults (expectedReplies pinFile images 0))
     end,
     w ++ sentImages (take 10 images)).
Proof.
  unfold uploadAllImpactProductImages.
  rewrite startUploads_spec by lia. simpl.
  by destruct (firstRejection _).
Qed.

Lemma imageReply_errors (f : File) (e : UploadError) :
  imageReply pinFile f = Err e -> e = BadFileType \/ e = ServiceError.
Proof.
  unfold imageReply. case_bool_decide; [| intros [= <-]; by left].
  destruct (pinFile f); [done |]. intros [= <-]. by right.
Qed.

Lemma length_sentImages (images : list File) :
  (length (sentImages images) <= length images)%nat.
Proof. unfold sentImages. rewrite length_fmap. apply length_filter. Qed.

(** X5: uploadAllImpactProductImages sends exactly the files of a valid
    type among the first ten images, in order, and never more than ten
    requests; files from the eleventh on are ignored. When the first ten
    are all of a valid type and the service answers for each, the result
    maps level k+1 to the answer for image k and has no other level; when
    one of them has a wrong type the call is rejected with the file-type
    error. *)
Theorem upload_all_sends_first_ten (images : list File) (w : World) :
  let out := uploadAllImpactProductImages pinFile images w in
  out.2 = w ++ sentImages (take 10 images)
  /\ (length out.2 <= length w + 10)%nat
  /\ ((forall f, f ∈ take 10 images ->
         file_type f ∈ validTypes /\ is_Some (pinFile f)) ->
      exists m,
        out.1 = Ok m
        /\ (forall k f, (k < 10)%nat -> images !! k = Some f ->
             m !! (Z.of_nat k + 1) = pinFile f)
        /\ (forall l, is_Some (m !! l) ->
             1 <= l <= 10 /\ l <= Z.of_nat (length images)))
  /\ ((exists f, f ∈ take 10 images /\ file_type f ∉ validTypes) ->
      out.1 = Err BadFileType).
Proof.
  intros out. subst out. rewrite uploadAll_spec. simpl.
  split; [done |]. split; [| split].
  - rewrite length_app. pose proof (length_sentImages (take 10 images)).
    rewrite length_take in H. lia.
  - intros Hall.
    assert (Hok : forall lr, lr ∈ expectedReplies pinFile images 0 ->
                             exists r, lr.2 = Ok r).
    { intros lr Hin. apply expectedReplies_elem in Hin as (f & Hf & ->).
      destruct (Hall f Hf) as [Hty [r Hr]]. exists r.
      unfold imageReply. by rewrite bool_decide_eq_true_2, Hr. }
    rewrite firstRejection_none by done. eexists. split; [done |].
    pose proof (expectedReplies_levels_NoDup images 0) as Hnd.
    split.
    + intros k f Hk Hf.
      assert (Hin : f ∈ take 10 images).
      { apply list_elem_of_lookup. exists k. by rewrite lookup_take_lt. }
      destruct (Hall f Hin) as [Hty [r Hr]]. rewrite Hr.
      apply (collectResults_lookup _ ∅ _ Hnd).
      apply list_elem_of_lookup. exists k.
      apply expectedReplies_lookup. exists f.
      split; [done |]. split; [simpl; lia |].
      unfold imageReply. rewrite bool_decide_eq_true_2, Hr by done.
      f_equal. lia.
    + intros l Hl.
      destruct (decide (l ∈ (expectedReplies pinFile images 0).*1))
        as [Hin | Hout].
      * apply list_elem_of_fmap in Hin as (lr & -> & Hin).
        apply list_elem_of_lookup in Hin as [k Hk].
        apply expectedReplies_lookup in Hk as (f & Hf & Hlt & ->).
        apply lookup_lt_Some in Hf. simpl in *. lia.
      * destruct (collectResults_lookup _ ∅ l Hnd) as [_ Hnone].
        unfold collectResults in Hl. rewrite Hnone in Hl by done.
        rewrite lookup_empty in Hl. by destruct Hl.
  - intros (f & Hf & Hbad).
    rewrite firstRejection_bad_type; [done | |].
    + intros lr e Hin He.
      apply expectedReplies_elem in Hin as (f' & _ & Hr).
      rewrite Hr in He. by apply imageReply_errors in He.
    + apply list_elem_of_lookup in Hf as [k Hk].
      apply lookup_take_Some in Hk as [Hk Hlt].
      exists (0 + 1 + Z.of_nat k, imageReply pinFile f). split.
      * apply list_elem_of_lookup. exists k.
        apply expectedReplies_lookup. exists f. simpl. done.
      * simpl. unfold imageReply. by rewrite bool_decide_eq_false_2.
Qed.

Lemma firstRejection_None_inv (rs : list (Z * Res IPFSUploadResult)) :
  firstRejection rs = None ->
  forall lr, lr ∈ rs -> exists r, lr.2 = Ok r.
Proof.
  unfold firstRejection. set (errs := omap _ rs).
  intros Hnone lr Hin.
  destruct (lr.2) as [r | e] eqn:Hlr; [eauto |].
  assert (He : e ∈ errs).
  { subst errs. apply list_elem_of_omap. exists lr. by rewrite Hlr. }
  destruct (filter _ errs); [| done].
  destruct errs; [by apply elem_of_nil in He | done].
Qed.

Lemma imageReply_Ok_inv (f : File) (r : IPFSUploadResult) :
  imageReply pinFile f = Ok r ->
  file_type f ∈ validTypes /\ pinFile f = Some r.
Proof.
  unfold imageReply. case_bool_decide; [| done].
  destruct (pinFile f); [| done]. by intros [= ->].
Qed.

Lemma sentImages_all_valid (images : list File) :
  Forall (fun f => file_type f ∈ validTypes) images ->
  sentImages images = FileUpload <$> images.
Proof.
  intros Hall. unfold sentImages. f_equal.
  induction Hall as [| f l Hf Hl IH]; [done |].
  rewrite filter_cons_True by done. by rewrite IH.
Qed.

Lemma uploadMetadata_step (level : Z) (ih : string) (anim : option string)
    (w : World) :
  uploadImpactProductMetadata pinJSON NEXT_PUBLIC_APP_URL level ih
    (if level =? 10 then anim else None) (Some 0) (Some 0) w
  = (match pinJSON (batchMetadata NEXT_PUBLIC_APP_URL level ih anim)
             (batchLabel level) with
     | Some r => Ok r
     | None => Err ServiceError
     end,
     w ++ [JSONUpload (batchMetadata NEXT_PUBLIC_APP_URL level ih anim)
             (batchLabel level)]).
Proof.
  unfold uploadImpactProductMetadata, bind, uploadJSONToIPFS, ret.
  simpl default. fold (batchMetadata NEXT_PUBLIC_APP_URL level ih anim).
  fold (batchLabel level).
  by destruct (pinJSON _ _).
Qed.

Lemma uploadMetadataLoop_ok (levels : list Z)
    (IR : gmap Z IPFSUploadResult) (anim : option string)
    (results res : gmap Z BatchEntry) (w w' : World) :
  NoDup levels ->
  uploadMetadataLoop pinJSON NEXT_PUBLIC_APP_URL levels IR anim results w
  = (Ok res, w') ->
  length w' = (length w + length levels)%nat
  /\ (forall level, level ∉ levels -> res !! level = results !! level)
  /\ (forall level,
        level ∈ levels ->
        exists ir mr,
          IR !! level = Some ir
          /\ pinJSON (batchMetadata NEXT_PUBLIC_APP_URL level (hash ir) anim)
               (batchLabel level) = Some mr
          /\ res !! level
             = Some {| imageHash := hash ir; metadataHash := hash mr;
                       animationHash :=
                         if level =? 10 then anim else None |}).
Proof.
  revert results w. induction levels as [| level rest IH];
    intros results w Hnd Hrun.
  - simpl in Hrun. injection Hrun as <- <-.
    split; [simpl; lia |]. split; [done |].
    intros level Hin. by apply elem_of_nil in Hin.
  - apply NoDup_cons in Hnd as [Hnotin Hnd]. simpl in Hrun.
    destruct (IR !! level) as [ir |] eqn:Hir; [| done].
    unfold bind in Hrun at 1. rewrite uploadMetadata_step in Hrun.
    destruct (pinJSON _ _) as [mr |] eqn:Hmr; [| done].
    apply IH in Hrun as (Hlen & Hout & Hin); [| done].
    split; [rewrite Hlen, length_app; simpl; lia |]. split.
    + intros l Hl. apply not_elem_of_cons in Hl as [Hne Hl].
      rewrite Hout by done. by rewrite lookup_insert_ne.
    + intros l Hl. apply elem_of_cons in Hl as [-> | Hl].
      * exists ir, mr. split; [done |]. split; [done |].
        rewrite Hout by done. apply lookup_insert_eq.
      * by apply Hin.
Qed.

(** X6: a batch that returns has been given exactly ten images, all of a
    valid type; it has made twenty requests, plus one for the animation
    when there is one; its result has exactly the levels 1..10; and the
    entry of each level holds the hash the service gave for that level's
    image, the hash it gave for that level's metadata document, and the
    animation hash at level 10 only. *)
Theorem batch_success_postcondition (images : list File)
    (animation : option File) (w w' : World) (results : gmap Z BatchEntry) :
  batchUploadImpactProducts pinFile pinJSON NEXT_PUBLIC_APP_URL images
    animation w = (Ok results, w') ->
  let ah := hash <$> (animation ≫= pinFile) in
  length images = 10%nat
  /\ Forall (fun f => file_type f ∈ validTypes) images
  /\ length w'
     = (length w + 20 + match animation with Some _ => 1 | None => 0 end)%nat
  /\ (forall level, is_Some (results !! level) <-> 1 <= level <= 10)
  /\ (forall level e,
        results !! level = Some e ->
        exists f r mr,
          images !! Z.to_nat (level - 1) = Some f
          /\ pinFile f = Some r
          /\ pinJSON (batchMetadata NEXT_PUBLIC_APP_URL level (hash r) ah)
               (batchLabel level) = Some mr
          /\ e = {| imageHash := hash r; metadataHash := hash mr;
                    animationHash := if level =? 10 then ah else None |}).
Proof.
  unfold batchUploadImpactProducts.
  destruct (Nat.eqb_spec (length images) 10) as [Hlen | Hlen]; [| done].
  simpl. unfold bind at 1. rewrite uploadAll_spec.
  rewrite take_ge by lia.
  destruct (firstRejection _) as [e |] eqn:Hrej; [done |].
  pose proof (firstRejection_None_inv _ Hrej) as Hok.
  assert (Hreply : forall k f, images !! k = Some f ->
            exists r, imageReply pinFile f = Ok r
                      /\ collectResults (expectedReplies pinFile images 0)
                         !! (Z.of_nat k + 1) = Some r).
  { intros k f Hf. pose proof (lookup_lt_Some _ _ _ Hf) as Hk.
    assert (Hin : (0 + 1 + Z.of_nat k, imageReply pinFile f)
                  ∈ expectedReplies pinFile images 0).
    { apply list_elem_of_lookup. exists k. apply expectedReplies_lookup.
      exists f. split; [done |]. split; [simpl; lia | done]. }
    destruct (Hok _ Hin) as [r Hr]. simpl in Hr. exists r. split; [done |].
    apply (collectResults_lookup _ ∅ _ (expectedReplies_levels_NoDup images 0)).
    rewrite Hr in Hin. replace (Z.of_nat k + 1) with (0 + 1 + Z.of_nat k) by lia.
    done. }
  assert (Hvalid : Forall (fun f => file_type f ∈ validTypes) images).
  { apply Forall_lookup. intros k f Hf.
    destruct (Hreply k f Hf) as (r & Hr & _).
    by apply imageReply_Ok_inv in Hr as [? _]. }
  rewrite sentImages_all_valid by done.
  unfold bind at 1.
  set (IR := collectResults (expectedReplies pinFile images 0)) in *.
  set (w1 := w ++ (FileUpload <$> images)).
  assert (Hw1 : length w1 = (length w + 10)%nat)
    by (subst w1; rewrite length_app, length_fmap; lia).
  intros Hrun. set (ah := hash <$> (animation ≫= pinFile)).
  assert (Hloop : exists w2,
    length w2
    = (length w1 + match animation with Some _ => 1 | None => 0 end)%nat
    /\ uploadMetadataLoop pinJSON NEXT_PUBLIC_APP_URL (seqZ 1 10) IR ah ∅ w2
       = (Ok results, w')).
  { subst ah. destruct animation as [a |]; simpl in *.
    - unfold bind in Hrun at 1. rewrite upload_in_range in Hrun by lia.
      destruct (imageReply pinFile a) as [ar |] eqn:Har; [| done].
      apply imageReply_Ok_inv in Har as [Hty Hpin].
      rewrite bool_decide_eq_true_2 in Hrun by done. unfold ret in Hrun.
      rewrite Hpin. simpl. eexists. split; [| exact Hrun].
      rewrite length_app. simpl. lia.
    - unfold ret in Hrun. exists w1. split; [lia | done]. }
  destruct Hloop as (w2 & Hw2 & Hloop). clear Hrun.
  apply uploadMetadataLoop_ok in Hloop as (Hlen' & Hout & Hin);
    [| apply NoDup_seqZ].
  split; [done |]. split; [done |]. split.
  { rewrite Hlen', length_seqZ, Hw2, Hw1. lia. }
  assert (Hentry : forall level,
            1 <= level <= 10 ->
            exists f r mr,
              images !! Z.to_nat (level - 1) = Some f
              /\ pinFile f = Some r
              /\ pinJSON (batchMetadata NEXT_PUBLIC_APP_URL level (hash r) ah)
                   (batchLabel level) = Some mr
              /\ results !! level
                 = Some {| imageHash := hash r; metadataHash := hash mr;
                           animationHash :=
                             if level =? 10 then ah else None |}).
  { intros level Hl.
    destruct (Hin level) as (ir & mr & Hir & Hmr & Hres);
      [apply elem_of_seqZ; lia |].
    destruct (lookup_lt_is_Some_2 images (Z.to_nat (level - 1))) as [f Hf];
      [lia |].
    destruct (Hreply _ f Hf) as (r & Hr & Hcol).
    replace (Z.of_nat (Z.to_nat (level - 1)) + 1) with level in Hcol by lia.
    assert (ir = r) by congruence. subst ir.
    apply imageReply_Ok_inv in Hr as [_ Hpin].
    exists f, r, mr. done. }
  split.
  - intros level. split.
    + intros Hsome. destruct (decide (1 <= level <= 10)); [done |].
      rewrite Hout in Hsome by (rewrite elem_of_seqZ; lia).
      rewrite lookup_empty in Hsome. by destruct Hsome.
    + intros Hl. destruct (Hentry level Hl) as (f & r & mr & _ & _ & _ & ->).
      eauto.
  - intros level e He.
    assert (Hl : 1 <= level <= 10).
    { destruct (decide (1 <= level <= 10)); [done |].
      rewrite Hout in He by (rewrite elem_of_seqZ; lia).
      by rewrite lookup_empty in He. }
    destruct (Hentry level Hl) as (f & r & mr & Hf & Hpin & Hmr & Hres).
    exists f, r, mr. split; [done |]. split; [done |]. split; [done |].
    congruence.
Qed.

(** X7: a batch of ten images is not all-or-nothing. When one image has a
    wrong type the batch throws the file-type error, yet every image of a
    valid type has been sent and no metadata; when the ten images went
    through and the animation has a wrong type, the ten images stay
    uploaded and no metadata is sent. *)
Theorem batch_failure_keeps_uploaded_images (images : list File)
    (animation : option File) (w : World) :
  length images = 10%nat ->
  ((exists f, f ∈ images /\ file_type f ∉ validTypes) ->
   batchUploadImpactProducts pinFile pinJSON NEXT_PUBLIC_APP_URL images
     animation w = (Err BadFileType, w ++ sentImages images))
  /\ ((forall f, f ∈ images ->
         file_type f ∈ validTypes /\ is_Some (pinFile f)) ->
      forall a,
        animation = Some a -> file_type a ∉ validTypes ->
        batchUploadImpactProducts pinFile pinJSON NEXT_PUBLIC_APP_URL images
          animation w = (Err BadFileType, w ++ (FileUpload <$> images))).
Proof.
  intros Hlen. unfold batchUploadImpactProducts.
  rewrite Hlen. simpl.
  pose proof (upload_all_sends_first_ten images w) as Hall.
  cbv zeta in Hall. rewrite take_ge in Hall by lia.
  destruct Hall as (Hw & _ & Hgood & Hbad).
  destruct (uploadAllImpactProductImages pinFile images w) as [r w1] eqn:Hup.
  simpl in *. subst w1. split.
  - intros Hex. specialize (Hbad Hex). subst r.
    unfold bind at 1. by rewrite Hup.
  - intros Hok a -> Hty.
    destruct (Hgood Hok) as (m & -> & _).
    unfold bind at 1. rewrite Hup. unfold bind at 1.
    unfold bind at 1. rewrite upload_in_range by lia.
    unfold imageReply. rewrite bool_decide_eq_false_2 by done.
    rewrite sentImages_all_valid; [done |].
    apply Forall_forall. intros f Hf. by apply Hok.
Qed.

End Uploads.

Lemma upload_all_sends_first_ten_witness :
  let jpeg := {| file_name := "IP1.jpg"; file_type := "image/jpeg" |} in
  (uploadAllImpactProductImages Scenario.pinAll [jpeg] []).1
  = Err BadFileType.
Proof.
  intros jpeg.
  destruct (upload_all_sends_first_ten Scenario.pinAll [jpeg] [])
    as (_ & _ & _ & Hbad).
  apply Hbad. exists jpeg. split.
  - apply list_elem_of_lookup. exists 0%nat. reflexivity.
  - apply (bool_decide_unpack _). vm_compute. exact I.
Defined.

Lemma batch_success_postcondition_witness :
  exists results w',
    batchUploadImpactProducts Scenario.pinAll Scenario.pinAllJSON None
      Scenario.tenImages None [] = (Ok results, w')
    /\ length w' = 20%nat.
Proof.
  destruct (batchUploadImpactProducts Scenario.pinAll Scenario.pinAllJSON
              None Scenario.tenImages None [])
    as [[results | e] w'] eqn:Hrun.
  - exists results, w'. split; [reflexivity |].
    destruct (batch_success_postcondition Scenario.pinAll
                Scenario.pinAllJSON None Scenario.tenImages None [] w'
                results Hrun) as (_ & _ & Hlen & _).
    exact Hlen.
  - exfalso. vm_compute in Hrun. discriminate Hrun.
Defined.

Lemma batch_failure_keeps_uploaded_images_witness :
  let jpeg := {| file_name := "IP3.jpg"; file_type := "image/jpeg" |} in
  let images := <[2%nat := jpeg]> Scenario.tenImages in
  batchUploadImpactProducts Scenario.pinAll Scenario.pinAllJSON None
    images None [] = (Err BadFileType, [] ++ sentImages images).
Proof.
  intros jpeg images.
  destruct (batch_failure_keeps_uploaded_images Scenario.pinAll
              Scenario.pinAllJSON None images None [] eq_refl)
    as [Hbad _].
  apply Hbad. exists jpeg. split.
  - apply list_elem_of_lookup. exists 2%nat. reflexivity.
  - apply (bool_decide_unpack _). vm_compute. exact I.
Defined.

End ImpactProductIpfsMoreFacts.

(** ** The client wrappers of contracts.ts, continued *)

Module ContractsMoreFacts.
Import Chain Contracts ChainInvariants ChainFacts.

Lemma string_length_app (a b : string) :
  String.length (a +:+ b) = (String.length a + String.length b)%nat.
Proof.
  induction a as [| c a IH]; [done |].
  change (S (String.length (a +:+ b))
          = S (String.length a + String.length b)%nat).
  by rewrite IH.
Qed.

Lemma length_zeros (k : nat) : String.length (zeros k) = k.
Proof.
  induction k as [| k IH]; [done |].
  change (S (String.length (zeros k)) = S k). by rewrite IH.
Qed.

Lemma raw_to_N_zeros (k : nat) (str : string) :
  HexString.Raw.to_N (zeros k +:+ str) 0 = HexString.Raw.to_N str 0.
Proof. induction k as [| k IH]; [done | exact IH]. Qed.

Lemma of_pos_length (k : nat) :
  forall (q : positive) (rest : string),
    (N.pos q < 16 ^ N.of_nat k)%N ->
    (String.length (HexString.Raw.of_pos q rest)
     <= k + String.length rest)%nat.
Proof.
  induction k as [| k IH]; intros q rest H; [simpl in H; lia |].
  rewrite Nat2N.inj_succ, N.pow_succ_r' in H.
  do 4 try destruct q as [q | q |]; cbn [HexString.Raw.of_pos];
    try (match goal with
         | |- context [HexString.Raw.of_pos q ?r] =>
             pose proof (IH q r ltac:(lia)) as IH'
         end; simpl in IH'; lia);
    simpl; lia.
Qed.

Lemma toString16_round_trip (id : Z) :
  0 <= id -> HexString.Raw.to_N (toString16 id) 0 = Z.to_N id.
Proof.
  destruct id as [| q | q]; [done | | lia]. intros _. simpl.
  apply (HexString.Raw.to_N_of_pos q "" 0%N).
Qed.

Lemma toString16_length (id : Z) :
  0 <= id < 2 ^ 256 -> (String.length (toString16 id) <= 64)%nat.
Proof.
  destruct id as [| q | q]; [simpl; lia | | lia]. intros [_ H]. simpl.
  pose proof (of_pos_length 64 q "") as Hl. simpl String.length in Hl.
  rewrite Nat.add_0_r in Hl. apply Hl.
  change (16 ^ N.of_nat 64)%N with (Z.to_N (2 ^ 256)). lia.
Qed.

(** X8: the simulated transaction hash of claimImpactProductFromVerification
    encodes the cleanup id: read back as a hexadecimal number it is the id;
    for an id below 2^256 it has the 66 characters of a transaction hash;
    and two different ids never get the same hash. *)
Theorem fake_hash_round_trip (id id' : Z) :
  0 <= id ->
  HexString.to_N (claimImpactProductFromVerification id) = Z.to_N id
  /\ (id < 2 ^ 256 ->
      String.length (claimImpactProductFromVerification id) = 66%nat)
  /\ (0 <= id' ->
      claimImpactProductFromVerification id
      = claimImpactProductFromVerification id' ->
      id = id').
Proof.
  intros Hid.
  assert (Hrt : forall z, 0 <= z ->
            HexString.to_N (claimImpactProductFromVerification z) = Z.to_N z).
  { intros z Hz. unfold claimImpactProductFromVerification, padStart0.
    change (HexString.to_N ("0x" +:+ ?t)) with (HexString.Raw.to_N t 0).
    destruct (_ <? _)%nat; [rewrite raw_to_N_zeros |];
      by apply toString16_round_trip. }
  split; [by apply Hrt |]. split.
  - intros Hlt. unfold claimImpactProductFromVerification, padStart0.
    pose proof (toString16_length id ltac:(lia)) as Hl.
    destruct (Nat.ltb_spec (String.length (toString16 id)) 64);
      rewrite !string_length_app, ?length_zeros;
      change (String.length "0x") with 2%nat; lia.
  - intros Hid' Heq. apply (f_equal HexString.to_N) in Heq.
    rewrite !Hrt in Heq by done. lia.
Qed.

Section Wrappers.

Variable p : Params.
Variable env : Env.

Lemma isVerifier_canVerify (account : Address) (s : State) :
  isVerifier env account s = true ->
  SUBMISSION_ADDRESS env <> None /\ canVerify account s = true.
Proof.
  unfold isVerifier, canVerify.
  destruct (SUBMISSION_ADDRESS env); [| done].
  intros ->. split; [done | apply orb_true_r].
Qed.

(** With a wallet and a node that deliver, a wrapper returns exactly when
    the contract accepts the call, and throws the error of the contract
    with the store unchanged when it refuses. *)
Lemma writeWith_reliable (message : string)
    (call : Address -> State -> Outcome * State) (s : State) :
  writeWith env reliable message call s
  = match SUBMISSION_ADDRESS env with
    | None => (Raised AddressNotConfigured, s)
    | Some _ =>
        match account_address env with
        | None => (Raised NoWallet, s)
        | Some account =>
            match call account s with
            | (Done _ _, s1) => (Sent, s1)
            | (Failed e, s1) => (Raised (CallFailed message e), s1)
            end
        end
    end.
Proof.
  unfold writeWith. simpl.
  destruct (SUBMISSION_ADDRESS env); [| done].
  destruct (account_address env) as [account |]; [| done].
  by destruct (call account s) as [[r sig | e] s1].
Qed.

Lemma writeWith_raised (t : Transport) (message : string)
    (call : Address -> State -> Outcome * State) (s s' : State)
    (e : WriteError) :
  (forall account err s1, call account s = (Failed err, s1) -> s1 = s) ->
  writeWith env t message call s = (Raised e, s') ->
  (SUBMISSION_ADDRESS env = None -> e = AddressNotConfigured)
  /\ (SUBMISSION_ADDRESS env <> None -> account_address env = None ->
      e = NoWallet)
  /\ ((forall m, e <> ReceiptFailed m) -> s' = s)
  /\ (s' <> s ->
      e = ReceiptFailed message
      /\ sends t = true /\ receiptArrives t = false
      /\ exists account reply sig,
           account_address env = Some account
           /\ call account s = (Done reply sig, s')).
Proof.
  intros Hcall. unfold writeWith.
  destruct (SUBMISSION_ADDRESS env) as [addr |];
    [| intros [= <- <-]; repeat split; done].
  destruct (account_address env) as [account |];
    [| intros [= <- <-]; repeat split; done].
  destruct (sends t); simpl; [| intros [= <- <-]; repeat split; done].
  destruct (call account s) as [[reply sig | err] s1] eqn:Hc.
  - destruct (receiptArrives t); [done |]. intros [= <- <-].
    repeat split; try done.
    + intros Hne. by destruct (Hne message).
    + eauto.
  - pose proof (Hcall _ _ _ Hc) as ->.
    destruct (simulates t); [intros [= <- <-]; repeat split; done |].
    destruct (receiptArrives t); [done |].
    intros [= <- <-]. repeat split; done.
Qed.

(** X9: verifyCleanup, rejectCleanup and attachRecyclablesToSubmission
    are fail-closed except for the receipt wait. When one of them throws
    the configuration error, the wallet error, the not-sent error or the
    error of the contract, the store is as before the call; a throw with
    a changed store is always the rejected receipt wait of a transaction
    that was sent. That does happen: the verifyCleanup of a verifier on a
    Pending submission whose receipt wait rejects throws, although the
    submission is Approved by then. Conversely a return does not show
    success: a call on a finalized submission that is sent without
    simulation reverts, and the wrapper returns all the same with the
    store unchanged. *)
Theorem write_wrappers_fail_closed_but_for_receipt (t : Transport)
    (cleanupId : N) (level : Z) (photo receipt : string) (s : State) :
  (forall r e,
     r = verifyCleanup p env t cleanupId level s
     \/ r = rejectCleanup env t cleanupId s
     \/ r = attachRecyclablesToSubmission env t cleanupId photo receipt s ->
     r.1 = Raised e ->
     (SUBMISSION_ADDRESS env = None -> e = AddressNotConfigured)
     /\ (SUBMISSION_ADDRESS env <> None -> account_address env = None ->
         e = NoWallet)
     /\ ((forall message, e <> ReceiptFailed message) -> r.2 = s)
     /\ (r.2 <> s ->
         (exists message, e = ReceiptFailed message)
         /\ sends t = true /\ receiptArrives t = false))
  /\ (forall account,
        isVerifier env account s = true ->
        account_address env = Some account ->
        statusOf cleanupId s = Some Pending ->
        sends t = true -> receiptArrives t = false ->
        exists s',
          verifyCleanup p env t cleanupId level s
          = (Raised (ReceiptFailed "Failed to verify cleanup"), s')
          /\ statusOf cleanupId s' = Some Approved
          /\ s' <> s)
  /\ (forall account st,
        isVerifier env account s = true ->
        account_address env = Some account ->
        statusOf cleanupId s = Some st -> st <> Pending ->
        sends t = true -> simulates t = false -> receiptArrives t = true ->
        verifyCleanup p env t cleanupId level s = (Sent, s)
        /\ rejectCleanup env t cleanupId s = (Sent, s)).
Proof.
  split; [| split].
  - assert (Hgen : forall r e message call,
      (forall account err s1,
         call account s = (Failed err, s1) -> s1 = s) ->
      r = writeWith env t message call s ->
      r.1 = Raised e ->
      (SUBMISSION_ADDRESS env = None -> e = AddressNotConfigured)
      /\ (SUBMISSION_ADDRESS env <> None -> account_address env = None ->
          e = NoWallet)
      /\ ((forall message, e <> ReceiptFailed message) -> r.2 = s)
      /\ (r.2 <> s ->
          (exists message, e = ReceiptFailed message)
          /\ sends t = true /\ receiptArrives t = false)).
    { intros r e message call Hcall Hr He.
      destruct r as [res s']. simpl in He. subst res. symmetry in Hr.
      destruct (writeWith_raised _ _ _ _ _ _ Hcall Hr)
        as (H1 & H2 & H3 & H4).
      split; [done |]. split; [done |]. split; [done |].
      simpl. intros Hne. destruct (H4 Hne) as (-> & ? & ? & _). eauto. }
    intros r e [H | [H | H]]; revert H; apply Hgen.
    + intros account err s1. apply (exec_failed_same p (OpApprove _ _)).
    + intros account err s1. apply (exec_failed_same p (OpReject _ _)).
    + intros account err s1.
      apply (exec_failed_same p (OpAttachRecyclables _ _ _)).
  - intros account Hv Hacc Hst Hsends Hreceipt.
    destruct (isVerifier_canVerify _ _ Hv) as [Ha Hcan].
    destruct (approve p cleanupId account s) as [[r sig | e] s'] eqn:Happ.
    + pose proof (approve_done p _ _ _ _ _ _ Happ)
        as (sub & _ & Hi & _ & _ & Hs & _).
      assert (Hst' : statusOf cleanupId s' = Some Approved).
      { unfold statusOf. rewrite Hs, lookup_insert_eq. done. }
      exists s'. split; [| split; [done |]].
      * unfold verifyCleanup, writeWith.
        destruct (SUBMISSION_ADDRESS env); [| done].
        by rewrite Hacc, Hsends, Happ, Hreceipt.
      * intros ->. rewrite Hst in Hst'. done.
    + exfalso. revert Happ. unfold approve. rewrite Hcan. simpl.
      unfold statusOf in Hst.
      destruct (submissions s !! cleanupId) as [sub |]; [| done].
      simpl in Hst. injection Hst as ->.
      repeat case_match; done.
  - intros account st Hv Hacc Hst Hne Hsends Hsim Hreceipt.
    destruct (isVerifier_canVerify _ _ Hv) as [Ha Hcan].
    unfold verifyCleanup, rejectCleanup, writeWith.
    destruct (SUBMISSION_ADDRESS env); [| done].
    rewrite Hacc, Hsends. simpl.
    rewrite (approve_not_pending p _ _ _ _ Hst Hne).
    rewrite (reject_not_pending _ _ _ _ Hst Hne).
    by rewrite Hcan, Hsim, Hreceipt.
Qed.

End Wrappers.

Section Verify.

Variable p : Params.
Variable env : Env.



End Verify.

Section RoundTrip.

Variable p : Params.

Lemma exec_keeps_record (o : Op) (s : State) (i : N) (sub : Submission) :
  wf s ->
  submissions s !! i = Some sub ->
  exists sub',
    submissions (exec p o s).2 !! i = Some sub'
    /\ id sub' = id sub
    /\ submitter sub' = submitter sub
    /\ beforeEvidenceRef sub' = beforeEvidenceRef sub
    /\ afterEvidenceRef sub' = afterEvidenceRef sub
    /\ latitude sub' = latitude sub
    /\ longitude sub' = longitude sub
    /\ createdAt sub' = createdAt sub.
Proof.
  intros Hwf Hi.
  assert (Hsame : exists sub',
    submissions s !! i = Some sub'
    /\ id sub' = id sub
    /\ submitter sub' = submitter sub
    /\ beforeEvidenceRef sub' = beforeEvidenceRef sub
    /\ afterEvidenceRef sub' = afterEvidenceRef sub
    /\ latitude sub' = latitude sub
    /\ longitude sub' = longitude sub
    /\ createdAt sub' = createdAt sub) by (exists sub; done).
  destruct o; simpl.
  - unfold create. repeat case_match; try done. simpl.
    rewrite lookup_insert_ne; [done |].
    intros <-. destruct (Hwf _ _ Hi). lia.
  - unfold attachRecyclables.
    destruct (submissions s !! i0) as [sub0 |] eqn:Hi0; [| done].
    destruct (status sub0); try done.
    destruct (recyclablesEvidenceRef sub0); [done |]. simpl.
    rewrite lookup_insert. case_decide as Heq; [| done].
    subst i0. rewrite Hi in Hi0. injection Hi0 as <-.
    eexists. split; [done |]. done.
  - destruct (approve p i0 actor s) as [[r sig | e] s'] eqn:Ha; simpl.
    + apply approve_done in Ha as (sub0 & _ & Hi0 & _ & _ & Hs & _).
      rewrite Hs, lookup_insert. case_decide as Heq; [| done].
      subst i0. rewrite Hi in Hi0. injection Hi0 as <-.
      eexists. split; [done |]. done.
    + by apply (exec_failed_same p (OpApprove i0 actor)) in Ha as ->.
  - unfold reject.
    destruct (canVerify actor s); [| done]. simpl.
    destruct (submissions s !! i0) as [sub0 |] eqn:Hi0; [| done].
    destruct (status sub0); try done. simpl.
    rewrite lookup_insert. case_decide as Heq; [| done].
    subst i0. rewrite Hi in Hi0. injection Hi0 as <-.
    eexists. split; [done |]. done.
  - unfold claim. by destruct (_ =? _).
  - unfold syncReserve. by destruct (negb _).
  - unfold grantRole. by destruct (negb _).
  - unfold revokeRole. by destruct (negb _).
  - unfold updateTreasury. by destruct (negb _).
  - unfold setFee. by destruct (negb _).
Qed.

Lemma stateAfter_keeps_record (ops : list Op) (s : State) (i : N)
    (sub : Submission) :
  wf s ->
  submissions s !! i = Some sub ->
  exists sub',
    submissions (stateAfter p ops s) !! i = Some sub'
    /\ id sub' = id sub
    /\ submitter sub' = submitter sub
    /\ beforeEvidenceRef sub' = beforeEvidenceRef sub
    /\ afterEvidenceRef sub' = afterEvidenceRef sub
    /\ latitude sub' = latitude sub
    /\ longitude sub' = longitude sub
    /\ createdAt sub' = createdAt sub.
Proof.
  revert s sub. induction ops as [| o ops IH]; intros s sub Hwf Hi.
  - exists sub. done.
  - rewrite stateAfter_cons.
    destruct (exec_keeps_record o s i sub Hwf Hi)
      as (sub1 & Hi1 & E1 & E2 & E3 & E4 & E5 & E6 & E7).
    destruct (IH _ sub1 (wf_exec p o s Hwf) Hi1)
      as (sub2 & Hi2 & F1 & F2 & F3 & F4 & F5 & F6 & F7).
    exists sub2. split; [done |]. repeat split; congruence.
Qed.

Variable env : Env.

(** X11: when no other transaction comes between the read of the counter
    and the creation, a cleanup submitted with non-empty photo hashes while
    the creation fee is disabled can be read back under the id
    submitCleanup returned: getCleanupDetails gives that id, the connected
    account, both hashes, the scaled coordinates and the creation time,
    whatever other transactions follow; right after the submission it is
    neither verified, rejected nor claimed, at level 0. *)
Theorem submit_then_read_round_trip (contractAddr account : Address)
    (beforeHash afterHash : string) (latScaled lngScaled : Z)
    (_referrer : option Address) (_hasImpactForm : bool)
    (_impactReportHash : string) (_fee : option Z) (now dateNow : N)
    (others2 : list Op) (s : State) :
  wf s ->
  SUBMISSION_ADDRESS env = Some contractAddr ->
  account_address env = Some account ->
  beforeHash <> "" -> afterHash <> "" ->
  Chain.enabled (creationFee s) = false ->
  exists s' d,
    submitCleanup p env beforeHash afterHash latScaled lngScaled _referrer
      _hasImpactForm _impactReportHash _fee now [] others2 s
    = (Returned (submissionCount s), s')
    /\ getCleanupDetails env (submissionCount s) dateNow s' = Returned d
    /\ cd_id d = submissionCount s
    /\ cd_user d = account
    /\ cd_beforePhotoHash d = beforeHash
    /\ cd_afterPhotoHash d = afterHash
    /\ cd_latitude d = latScaled
    /\ cd_longitude d = lngScaled
    /\ cd_timestamp d = now
    /\ (others2 = [] ->
        cd_verified d = false /\ cd_rejected d = false
        /\ cd_claimed d = false /\ cd_level d = 0).
Proof.
  intros Hwf Henv Hacc Hb Ha Hoff.
  unfold submitCleanup. rewrite Henv, Hacc.
  change (stateAfter p [] s) with s.
  unfold writeCreateSubmission, create. simpl call_beforePhotoHash.
  simpl call_afterPhotoHash.
  rewrite !bool_decide_eq_false_2 by done. rewrite Hoff. simpl.
  match goal with
  | |- context [stateAfter p others2 ?st] => set (s1 := st)
  end.
  assert (Hwf1 : wf s1).
  { apply (wf_exec p
      (OpCreate account beforeHash afterHash latScaled lngScaled
         (call_impactFormDataHash
            (contractConfig account beforeHash afterHash latScaled
               lngScaled _referrer _hasImpactForm _impactReportHash _fee))
         (call_referrer
            (contractConfig account beforeHash afterHash latScaled
               lngScaled _referrer _hasImpactForm _impactReportHash _fee))
         (default 0 (call_value
            (contractConfig account beforeHash afterHash latScaled
               lngScaled _referrer _hasImpactForm _impactReportHash _fee)))
         now) s) in Hwf.
    revert Hwf. simpl. unfold create.
    rewrite !bool_decide_eq_false_2 by done. rewrite Hoff. done. }
  assert (H1 : exists sub, submissions s1 !! submissionCount s = Some sub
            /\ id sub = submissionCount s /\ submitter sub = account
            /\ beforeEvidenceRef sub = beforeHash
            /\ afterEvidenceRef sub = afterHash
            /\ latitude sub = latScaled /\ longitude sub = lngScaled
            /\ createdAt sub = now
            /\ status sub = Pending /\ rewarded sub = false).
  { eexists. split; [subst s1; simpl; apply lookup_insert_eq |]. done. }
  destruct H1 as (sub & Hi & G1 & G2 & G3 & G4 & G5 & G6 & G7 & G8 & G9).
  destruct (stateAfter_keeps_record others2 s1 _ sub Hwf1 Hi)
    as (sub' & Hi' & F1 & F2 & F3 & F4 & F5 & F6 & F7).
  eexists _, _. split; [reflexivity |].
  unfold getCleanupDetails, getSubmissionDetails. rewrite Henv, Hi'.
  split; [reflexivity |]. simpl.
  repeat (split; [congruence |]).
  intros ->. change (stateAfter p [] s1) with s1 in Hi'.
  rewrite Hi in Hi'. injection Hi' as <-. rewrite G8, G9. done.
Qed.

End RoundTrip.

Lemma fake_hash_round_trip_witness :
  0 <= 255
  /\ HexString.to_N (claimImpactProductFromVerification 255) = 255%N
  /\ String.length (claimImpactProductFromVerification 255) = 66%nat.
Proof.
  assert (H0 : 0 <= 255) by lia.
  destruct (fake_hash_round_trip 255 256 H0) as (Hrt & Hlen & _).
  split; [exact H0 |]. split; [exact Hrt |]. apply Hlen. reflexivity.
Defined.

Lemma write_wrappers_fail_closed_but_for_receipt_witness :
  let env := {| SUBMISSION_ADDRESS := Some 100%N;
                account_address := Some Scenario.verifier |} in
  let lost := {| sends := true; simulates := true;
                 receiptArrives := false |} in
  let s := stateAfter Scenario.demo
             (Scenario.setup ++ [Scenario.aliceCreates])
             (init 5000 Scenario.deployer) in
  statusOf 0%N s = Some Pending
  /\ exists s',
       verifyCleanup Scenario.demo env lost 0%N 1 s
       = (Raised (ReceiptFailed "Failed to verify cleanup"), s')
       /\ statusOf 0%N s' = Some Approved.
Proof.
  intros env lost s.
  assert (Hv : isVerifier env Scenario.verifier s = true)
    by (vm_compute; reflexivity).
  assert (Hacc : account_address env = Some Scenario.verifier)
    by reflexivity.
  assert (Hst : statusOf 0%N s = Some Pending) by (vm_compute; reflexivity).
  assert (Hsends : sends lost = true) by reflexivity.
  assert (Hreceipt : receiptArrives lost = false) by reflexivity.
  split; [exact Hst |].
  destruct (write_wrappers_fail_closed_but_for_receipt Scenario.demo env
              lost 0%N 1 "" "" s) as (_ & Hlost & _).
  destruct (Hlost Scenario.verifier Hv Hacc Hst Hsends Hreceipt)
    as (s' & Hraised & Happ & _).
  exists s'. split; [exact Hraised | exact Happ].
Defined.


Lemma submit_then_read_round_trip_witness :
  let env := {| SUBMISSION_ADDRESS := Some 100%N;
                account_address := Some Scenario.alice |} in
  exists s' d,
    submitCleanup Scenario.demo env "before" "after" 52520008 13404954
      None false "" None 5%N [] [] Scenario.deployed
    = (Returned 0%N, s')
    /\ getCleanupDetails env 0%N 9%N s' = Returned d
    /\ cd_user d = Scenario.alice
    /\ cd_timestamp d = 5%N.
Proof.
  intros env.
  assert (Hwf : wf Scenario.deployed)
    by (apply wf_stateAfter, wf_init).
  assert (Henv : SUBMISSION_ADDRESS env = Some 100%N) by reflexivity.
  assert (Hacc : account_address env = Some Scenario.alice) by reflexivity.
  assert (Hb : "before" <> "") by discriminate.
  assert (Ha : "after" <> "") by discriminate.
  assert (Hoff : Chain.enabled (creationFee Scenario.deployed) = false)
    by (vm_compute; reflexivity).
  destruct (submit_then_read_round_trip Scenario.demo env 100%N
              Scenario.alice "before" "after" 52520008 13404954 None false
              "" None 5%N 9%N [] Scenario.deployed Hwf Henv Hacc Hb Ha Hoff)
    as (s' & d & Hsub & Hread & _ & Huser & _ & _ & _ & _ & Hts & _).
  exists s', d. split; [exact Hsub |]. split; [exact Hread |].
  split; [exact Huser | exact Hts].
Defined.

End ContractsMoreFacts.

(** ** The dashboard actions panel *)

Module DashboardActionsFacts.
Import DashboardActions.

(** X12: the actions panel shows exactly one of its three blocks: the
    submit button, the claim block, or the under-review notice. The
    spinner and the fee line appear only inside the claim block; a click
    reaches onClaim only while the claim block is shown with its button
    enabled and no claim running; while a claim runs the button is
    disabled and clicks are ignored; the level shown is never 0. *)
Theorem dashboard_shows_exactly_one_block
    (cleanupStatus : option CleanupStatus) (isClaiming : bool)
    (claimFeeInfo : option ClaimFeeInfo) :
  let r := render cleanupStatus isClaiming claimFeeInfo in
  ((submitButton r = true /\ claimBlock r = false
    /\ underReviewNotice r = false)
   \/ (submitButton r = false /\ claimBlock r = true
       /\ underReviewNotice r = false)
   \/ (submitButton r = false /\ claimBlock r = false
       /\ underReviewNotice r = true))
  /\ (claimBlock r = false ->
      claimingSpinner r = false /\ feeDisplay r = false)
  /\ (clickCallsOnClaim cleanupStatus isClaiming = true ->
      claimBlock r = true /\ claimButtonDisabled r = false
      /\ claimingSpinner r = false)
  /\ (isClaiming = true ->
      clickCallsOnClaim cleanupStatus isClaiming = false
      /\ claimButtonDisabled r = true)
  /\ shownLevel r <> 0.
Proof.
  intros r. subst r. unfold render, clickCallsOnClaim, canSubmit,
    canClaimLevel, isUnderVerification, pendingOf, canClaimOf. simpl.
  split; [| split; [| split; [| split]]].
  - destruct cleanupStatus as [[[] [] ? ?] |]; simpl; tauto.
  - destruct cleanupStatus as [[? [] ? ?] |]; simpl; done.
  - destruct cleanupStatus as [[? [] ? ?] |], isClaiming; simpl; done.
  - intros ->. rewrite !andb_false_r. done.
  - destruct cleanupStatus as [[? ? ? [l |]] |]; simpl; try done.
    destruct (Z.eqb_spec l 0); done.
Qed.

Lemma dashboard_shows_exactly_one_block_witness :
  let status := Some {| hasPendingCleanup := true; canClaim := true;
                        cleanupId := Some 3%N; level := Some 0 |} in
  clickCallsOnClaim status false = true
  /\ claimBlock (render status false None) = true
  /\ claimButtonDisabled (render status false None) = false.
Proof.
  intros status.
  assert (H : clickCallsOnClaim status false = true) by reflexivity.
  destruct (dashboard_shows_exactly_one_block status false None)
    as (_ & _ & Hclick & _).
  destruct (Hclick H) as (Hblock & Hbutton & _).
  split; [exact H |]. split; [exact Hblock | exact Hbutton].
Defined.

End DashboardActionsFacts.

(** ** The leaderboard *)

Module LeaderboardFacts.
Import Chain Contracts Leaderboard LeaderboardShapes.

Lemma Qlt_bool_irrefl (x : Q) : Qlt_bool x x = false.
Proof.
  unfold Qlt_bool.
  by rewrite (proj2 (QArith_base.Qle_bool_iff x x) (QArith_base.Qle_refl x)).
Qed.

Lemma Qlt_bool_true (x y : Q) :
  Qlt_bool x y = true -> QArith_base.Qle x y.
Proof.
  unfold Qlt_bool. intros H. apply QArith_base.Qlt_le_weak.
  apply QArith_base.Qnot_le_lt. intros Hle.
  apply QArith_base.Qle_bool_iff in Hle. by rewrite Hle in H.
Qed.

Lemma Qlt_bool_false (x y : Q) :
  Qlt_bool x y = false -> QArith_base.Qle y x.
Proof.
  unfold Qlt_bool. intros H. apply QArith_base.Qle_bool_iff.
  by destruct (QArith_base.Qle_bool y x).
Qed.

Lemma scannedIds_spec (cleanupCount id : Z) :
  id ∈ scannedIds cleanupCount
  <-> 1 <= id /\ cleanupCount - 100 <= id < cleanupCount.
Proof.
  unfold scannedIds. rewrite elem_of_reverse, elem_of_seqZ. lia.
Qed.

Lemma length_scannedIds (cleanupCount : Z) :
  (length (scannedIds cleanupCount) <= 100)%nat.
Proof.
  unfold scannedIds. rewrite length_reverse, length_seqZ. lia.
Qed.

Section Board.

Variable env : Env.
Variable dateNow : N.
Variable s : State.
Variable parseFloatFormatEther : Z -> Q.
Variable numberOver1e18 : Z -> Q.
Variable getCountryFromCoordinates : Q -> Q -> option string.

Local Abbreviation visit :=
  (visit env dateNow s parseFloatFormatEther numberOver1e18).
Local Abbreviation scanLoop :=
  (scanLoop env dateNow s parseFloatFormatEther numberOver1e18).
Local Abbreviation totalDCUOf :=
  (totalDCUOf parseFloatFormatEther numberOver1e18).
Local Abbreviation getLeaderboardData :=
  (getLeaderboardData env dateNow s parseFloatFormatEther numberOver1e18
     getCountryFromCoordinates).
Local Abbreviation toLeaderboardUser :=
  (toLeaderboardUser getCountryFromCoordinates).
Local Abbreviation readsUser := (readsUser env dateNow s).
Local Abbreviation cleanupsOf := (cleanupsOf env dateNow s).
Local Abbreviation scanInv :=
  (scanInv env dateNow s parseFloatFormatEther numberOver1e18).

Local Abbreviation scanFrom userMap ids :=
  (foldl (fun m id => visit id m) userMap ids).

Lemma scanLoop_spec (fuel : nat) :
  forall (id startId : Z) (m : list (Address * UserData)),
    scanLoop fuel id startId m
    = if decide (Z.to_nat (id - Z.max 1 startId + 1) <= fuel)%nat
      then Some (scanFrom m
                   (reverse (seqZ (Z.max 1 startId)
                                  (id - Z.max 1 startId + 1))))
      else None.
Proof.
  induction fuel as [| fuel IH]; intros id startId m.
  - simpl. destruct (decide (Z.max 1 startId <= id)) as [Hle | Hgt].
    + replace ((startId <=? id) && (1 <=? id)) with true
        by (symmetry; apply andb_true_iff; lia).
      rewrite decide_False by lia. done.
    + replace ((startId <=? id) && (1 <=? id)) with false
        by (symmetry; apply andb_false_iff; lia).
      rewrite decide_True by lia. rewrite seqZ_nil by lia. done.
  - simpl. destruct (decide (Z.max 1 startId <= id)) as [Hle | Hgt].
    + replace ((startId <=? id) && (1 <=? id)) with true
        by (symmetry; apply andb_true_iff; lia).
      rewrite IH.
      replace (id - 1 - Z.max 1 startId + 1) with (id - Z.max 1 startId)
        by lia.
      rewrite (seqZ_app _ (id - Z.max 1 startId) 1) by lia.
      replace (Z.max 1 startId + (id - Z.max 1 startId)) with id by lia.
      rewrite (seqZ_cons id 1) by lia.
      rewrite (seqZ_nil _ (Z.pred 1)) by lia.
      rewrite reverse_app. simpl.
      repeat case_decide; try done; lia.
    + replace ((startId <=? id) && (1 <=? id)) with false
        by (symmetry; apply andb_false_iff; lia).
      rewrite decide_True by lia. rewrite seqZ_nil by lia. done.
Qed.

Lemma scanLoop_window (fuel : nat) (cleanupCount : Z)
    (m : list (Address * UserData)) :
  scanLoop fuel (cleanupCount - 1)
    (if 100 <? cleanupCount then cleanupCount - 100 else 1) m
  = if decide (length (scannedIds cleanupCount) <= fuel)%nat
    then Some (scanFrom m (scannedIds cleanupCount))
    else None.
Proof.
  set (startId := if 100 <? cleanupCount then cleanupCount - 100 else 1).
  assert (Hlo : Z.max 1 startId = Z.max 1 (cleanupCount - 100)).
  { subst startId. destruct (Z.ltb_spec 100 cleanupCount); lia. }
  clearbody startId. rewrite scanLoop_spec. unfold scannedIds.
  rewrite length_reverse, length_seqZ, Hlo.
  replace (cleanupCount - 1 - Z.max 1 (cleanupCount - 100) + 1)
    with (cleanupCount - Z.max 1 (cleanupCount - 100)) by lia.
  done.
Qed.

(** X13: the scan of getLeaderboardData ends: with fuel for 100 rounds it
    returns, having read exactly the ids from cleanupCount - 1 down to the
    larger of 1 and cleanupCount - 100, in that order. It never reads
    id 0, never an id at or above the counter, and never more than 100
    ids. *)
Theorem scan_reads_recent_window (fuel : nat)
    (m : list (Address * UserData)) :
  let cleanupCount := Z.of_N (getCleanupCounter env s) in
  let startId :=
    if 100 <? cleanupCount then cleanupCount - 100 else 1 in
  (100 <= fuel)%nat ->
  scanLoop fuel (cleanupCount - 1) startId m
  = Some (foldl (fun userMap id => visit id userMap) m
            (scannedIds cleanupCount))
  /\ (forall id, id ∈ scannedIds cleanupCount
                 <-> 1 <= id /\ cleanupCount - 100 <= id < cleanupCount)
  /\ (length (scannedIds cleanupCount) <= 100)%nat
  /\ exists users, getLeaderboardData fuel = Some users.
Proof.
  intros cleanupCount startId Hfuel.
  pose proof (length_scannedIds cleanupCount) as Hlen.
  assert (Hscan : forall m0,
    scanLoop fuel (cleanupCount - 1) startId m0
    = Some (scanFrom m0 (scannedIds cleanupCount))).
  { intros m0. subst startId. rewrite scanLoop_window.
    rewrite decide_True by lia. done. }
  split; [apply Hscan |].
  split; [apply scannedIds_spec |].
  split; [done |].
  unfold Leaderboard.getLeaderboardData. fold cleanupCount.
  destruct (cleanupCount =? 0); [eauto |].
  cbv zeta. fold startId. rewrite Hscan. eauto.
Qed.


Lemma mapModify_keys (user : Address) (f : UserData -> UserData)
    (m : list (Address * UserData)) :
  (mapModify user f m).*1 = m.*1.
Proof.
  unfold mapModify. induction m as [| kv m IH]; [done |].
  rewrite !fmap_cons, IH. f_equal. by case_decide.
Qed.

Lemma elem_of_mapModify (user : Address) (f : UserData -> UserData)
    (m : list (Address * UserData)) (a : Address) (d : UserData) :
  (a, d) ∈ mapModify user f m
  <-> exists d0, (a, d0) ∈ m
                 /\ d = if decide (a = user) then f d0 else d0.
Proof.
  unfold mapModify. rewrite list_elem_of_fmap. split.
  - intros ([a0 d0] & Heq & Hin). simpl in Heq.
    case_decide as Hk; injection Heq as -> ->; exists d0;
      (split; [done |]); by rewrite ?decide_True, ?decide_False by done.
  - intros (d0 & Hin & ->). exists (a, d0). split; [| done]. simpl.
    by case_decide.
Qed.

Lemma cleanupsOf_snoc (a : Address) (ids : list Z) (id : Z) :
  cleanupsOf a (ids ++ [id])
  = cleanupsOf a ids + (if readsUser a id then 1 else 0).
Proof.
  unfold LeaderboardShapes.cleanupsOf. rewrite filter_app, length_app.
  rewrite Nat2Z.inj_add. f_equal.
  rewrite filter_cons, filter_nil.
  destruct (readsUser a id); by case_decide.
Qed.

Lemma cleanupsOf_nonneg (a : Address) (ids : list Z) : 0 <= cleanupsOf a ids.
Proof. unfold LeaderboardShapes.cleanupsOf. lia. Qed.

Lemma scanInv_nil : scanInv [] [].
Proof.
  split; [constructor |]. split.
  - intros a d Hin. by apply elem_of_nil in Hin.
  - intros a. unfold LeaderboardShapes.cleanupsOf. simpl. lia.
Qed.

Lemma scanInv_visit (m : list (Address * UserData)) (ids : list Z)
    (id : Z) :
  scanInv m ids -> scanInv (visit id m) (ids ++ [id]).
Proof.
  intros (Hnd & Hent & Hall).
  unfold Leaderboard.visit.
  destruct (getCleanupDetails env (Z.to_N id) dateNow s)
    as [details | t] eqn:Hread.
  - assert (Hru : forall a,
              readsUser a id = bool_decide (cd_user details = a)).
    { intros a. unfold LeaderboardShapes.readsUser. by rewrite Hread. }
    set (user := cd_user details) in *.
    set (fresh := {| ud_totalDCU := totalDCUOf user; ud_cleanups := 0;
                     ud_coordinates := [] |}).
    set (m1 := if mapHas user m then m else m ++ [(user, fresh)]).
    assert (Hkeys1 : m1.*1 = if mapHas user m then m.*1
                             else m.*1 ++ [user]).
    { subst m1. destruct (mapHas user m); [done |].
      by rewrite fmap_app. }
    assert (Hin1 : forall a d, (a, d) ∈ m1 ->
              (a, d) ∈ m
              \/ (mapHas user m = false /\ a = user /\ d = fresh)).
    { intros a d. subst m1. destruct (mapHas user m); [by left |].
      rewrite elem_of_app, list_elem_of_singleton.
      intros [H | [= -> ->]]; [by left | by right]. }
    assert (Hhas : mapHas user m = false -> cleanupsOf user ids = 0).
    { intros Hno. pose proof (cleanupsOf_nonneg user ids).
      destruct (decide (0 < cleanupsOf user ids)) as [Hpos |]; [| lia].
      apply Hall in Hpos. unfold mapHas in Hno.
      by rewrite bool_decide_eq_true_2 in Hno. }
    split; [| split].
    + rewrite mapModify_keys, Hkeys1.
      destruct (mapHas user m) eqn:Hm; [done |].
      apply NoDup_app. split; [done |]. split; [| apply NoDup_singleton].
      intros x Hx ->%list_elem_of_singleton. unfold mapHas in Hm.
      by rewrite bool_decide_eq_true_2 in Hm.
    + intros a d (d0 & Hd0 & ->)%elem_of_mapModify.
      rewrite cleanupsOf_snoc, Hru.
      destruct (Hin1 _ _ Hd0) as [Hin | (Hno & -> & ->)].
      * destruct (Hent _ _ Hin) as (Hc & Hpos & Htot).
        case_decide as Hau; simpl.
        -- subst a. rewrite bool_decide_eq_true_2 by done.
           repeat split; [lia | lia | done].
        -- rewrite bool_decide_eq_false_2 by done.
           repeat split; [lia | lia | done].
      * rewrite decide_True by done. simpl.
        rewrite bool_decide_eq_true_2 by done.
        rewrite (Hhas Hno). done.
    + intros a. rewrite cleanupsOf_snoc, Hru, mapModify_keys, Hkeys1.
      intros Hpos.
      destruct (decide (user = a)) as [<- | Hne].
      * destruct (mapHas user m) eqn:Hm.
        -- unfold mapHas in Hm. by apply bool_decide_eq_true_1 in Hm.
        -- apply elem_of_app. right. by apply list_elem_of_singleton.
      * rewrite bool_decide_eq_false_2 in Hpos by done.
        assert (Ha : a ∈ m.*1) by (apply Hall; lia).
        destruct (mapHas user m); [done |].
        apply elem_of_app. by left.
  - assert (Hru : forall a, readsUser a id = false).
    { intros a. unfold LeaderboardShapes.readsUser. by rewrite Hread. }
    split; [done |]. split.
    + intros a d Hin. rewrite cleanupsOf_snoc, Hru.
      destruct (Hent _ _ Hin) as (Hc & Hpos & Htot).
      repeat split; [lia | done | done].
    + intros a. rewrite cleanupsOf_snoc, Hru. intros Hpos.
      apply Hall. lia.
Qed.

Lemma scanInv_scan (ids : list Z) : scanInv (scanFrom [] ids) ids.
Proof.
  induction ids as [| id ids IH] using rev_ind; [apply scanInv_nil |].
  rewrite foldl_snoc. by apply scanInv_visit.
Qed.

Lemma insertByTotalDCU_perm (x : Address * UserData)
    (l : list (Address * UserData)) :
  insertByTotalDCU x l ≡ₚ x :: l.
Proof.
  induction l as [| y l IH]; [done |]. simpl.
  destruct (Qlt_bool _ _); [| done].
  rewrite IH. apply Permutation_swap.
Qed.

Lemma sortByTotalDCU_perm (l : list (Address * UserData)) :
  sortByTotalDCU l ≡ₚ l.
Proof.
  unfold sortByTotalDCU. induction l as [| x l IH]; [done |]. simpl.
  by rewrite insertByTotalDCU_perm, IH.
Qed.

Lemma insertByTotalDCU_sorted (x : Address * UserData)
    (l : list (Address * UserData)) :
  StronglySorted
    (fun a b => QArith_base.Qle (ud_totalDCU b.2) (ud_totalDCU a.2)) l ->
  StronglySorted
    (fun a b => QArith_base.Qle (ud_totalDCU b.2) (ud_totalDCU a.2))
    (insertByTotalDCU x l).
Proof.
  induction 1 as [| y l Hs IH Hall]; simpl.
  - repeat constructor.
  - destruct (Qlt_bool (ud_totalDCU x.2) (ud_totalDCU y.2)) eqn:Hlt.
    + constructor; [done |].
      rewrite Forall_forall. intros z Hz.
      rewrite insertByTotalDCU_perm in Hz.
      apply elem_of_cons in Hz as [-> | Hz].
      * by apply Qlt_bool_true.
      * rewrite Forall_forall in Hall. by apply Hall.
    + apply Qlt_bool_false in Hlt.
      constructor; [by constructor |].
      constructor; [done |].
      rewrite Forall_forall in Hall |- *. intros z Hz.
      eapply QArith_base.Qle_trans; [by apply Hall | done].
Qed.

Lemma sortByTotalDCU_sorted (l : list (Address * UserData)) :
  StronglySorted
    (fun a b => QArith_base.Qle (ud_totalDCU b.2) (ud_totalDCU a.2))
    (sortByTotalDCU l).
Proof.
  unfold sortByTotalDCU. induction l as [| x l IH]; simpl.
  - constructor.
  - by apply insertByTotalDCU_sorted.
Qed.

Lemma StronglySorted_lookup {A : Type} (R : A -> A -> Prop) (l : list A)
    (i j : nat) (a b : A) :
  StronglySorted R l -> (i < j)%nat ->
  l !! i = Some a -> l !! j = Some b -> R a b.
Proof.
  intros Hs. revert i j. induction Hs as [| x l Hs IH Hall]; intros i j.
  - done.
  - intros Hij Hi Hj. destruct j as [| j]; [lia |].
    destruct i as [| i]; simpl in *.
    + injection Hi as <-. rewrite Forall_forall in Hall.
      apply Hall. by eapply list_elem_of_lookup_2.
    + apply (IH i j); [lia | done | done].
Qed.

Lemma sortByTotalDCU_equal_totals (l : list (Address * UserData)) :
  (forall a b, a ∈ l -> b ∈ l -> ud_totalDCU a.2 = ud_totalDCU b.2) ->
  sortByTotalDCU l = l.
Proof.
  unfold sortByTotalDCU. induction l as [| x l IH]; [done |].
  intros Heq. simpl. rewrite IH.
  - destruct l as [| y l]; [done |]. simpl.
    rewrite (Heq x y) by (rewrite !elem_of_cons; auto).
    by rewrite Qlt_bool_irrefl.
  - intros a b Ha Hb. apply Heq; by apply elem_of_cons; right.
Qed.

Lemma getLeaderboardData_Some (fuel : nat) (users : list LeaderboardUser) :
  getLeaderboardData fuel = Some users ->
  let m := scanFrom [] (scannedIds (Z.of_N (getCleanupCounter env s))) in
  users = imap toLeaderboardUser (take 10 (sortByTotalDCU m)).
Proof.
  unfold Leaderboard.getLeaderboardData.
  set (cleanupCount := Z.of_N (getCleanupCounter env s)).
  destruct (Z.eqb_spec cleanupCount 0) as [H0 | Hne].
  - intros [= <-]. rewrite H0. done.
  - cbv zeta. rewrite scanLoop_window. case_decide; [| done].
    by intros [= <-].
Qed.

Lemma addresses_imap (l : list (Address * UserData)) :
  lu_address <$> imap toLeaderboardUser l = l.*1.
Proof.
  rewrite fmap_imap.
  rewrite (imap_ext _ (const fst)) by done.
  apply imap_const.
Qed.

(** X14: what getLeaderboardData returns has at most ten entries, ranked
    1, 2, 3, ... in order, with pairwise different addresses and totals
    that never increase down the list; the cleanups of an entry is the
    number of scanned ids whose record names that address, at least 1. *)
Theorem leaderboard_shape (fuel : nat) (users : list LeaderboardUser) :
  getLeaderboardData fuel = Some users ->
  (length users <= 10)%nat
  /\ (forall i u, users !! i = Some u -> lu_rank u = Z.of_nat i + 1)
  /\ NoDup (lu_address <$> users)
  /\ (forall i j u v,
        (i < j)%nat -> users !! i = Some u -> users !! j = Some v ->
        QArith_base.Qle (lu_totalDCU v) (lu_totalDCU u))
  /\ (forall u, u ∈ users ->
        1 <= lu_cleanups u
        /\ lu_cleanups u
           = cleanupsOf (lu_address u)
               (scannedIds (Z.of_N (getCleanupCounter env s)))).
Proof.
  intros Hsome. apply getLeaderboardData_Some in Hsome. cbv zeta in Hsome.
  set (ids := scannedIds (Z.of_N (getCleanupCounter env s))) in *.
  set (m := scanFrom [] ids) in *.
  destruct (scanInv_scan ids) as (Hnd & Hent & _). fold m in Hnd, Hent.
  set (top := take 10 (sortByTotalDCU m)) in *.
  assert (Htop : forall kv, kv ∈ top -> kv ∈ m).
  { intros kv Hkv. subst top.
    apply elem_of_take in Hkv as (i & Hi & _).
    apply list_elem_of_lookup_2 in Hi.
    by rewrite sortByTotalDCU_perm in Hi. }
  assert (Hlook : forall i u, users !! i = Some u ->
            exists kv, top !! i = Some kv /\ u = toLeaderboardUser i kv).
  { intros i u. rewrite Hsome, list_lookup_imap.
    destruct (top !! i) as [kv |]; [| done].
    intros [= <-]. eauto. }
  split; [| split; [| split; [| split]]].
  - rewrite Hsome, length_imap. subst top. rewrite length_take. lia.
  - intros i u (kv & _ & ->)%Hlook. done.
  - rewrite Hsome, addresses_imap. subst top. rewrite fmap_take.
    eapply sublist_NoDup; [| apply sublist_take].
    by rewrite sortByTotalDCU_perm.
  - intros i j u v Hij (kv & Hi & ->)%Hlook (kv' & Hj & ->)%Hlook. simpl.
    subst top. apply lookup_take_Some in Hi as [Hi _].
    apply lookup_take_Some in Hj as [Hj _].
    exact (StronglySorted_lookup _ _ _ _ _ _
             (sortByTotalDCU_sorted m) Hij Hi Hj).
  - intros u (i & Hi)%list_elem_of_lookup_1.
    apply Hlook in Hi as ([a d] & Hi & ->). simpl.
    apply list_elem_of_lookup_2, Htop in Hi.
    destruct (Hent _ _ Hi) as (Hc & Hpos & _). split; [lia | done].
Qed.

(** X15: since getDCUBalance answers 0 for every account, every user gets
    the same total, the sort moves nothing, and the leaderboard is the first
    ten users in the order in which the scan first met them. *)
Theorem stub_balance_keeps_scan_order (fuel : nat)
    (users : list LeaderboardUser) :
  getLeaderboardData fuel = Some users ->
  let m := scanFrom [] (scannedIds (Z.of_N (getCleanupCounter env s))) in
  users = imap toLeaderboardUser (take 10 m)
  /\ (forall u v, u ∈ users -> v ∈ users -> lu_totalDCU u = lu_totalDCU v)
  /\ (forall a b, totalDCUOf a = totalDCUOf b).
Proof.
  intros Hsome m. apply getLeaderboardData_Some in Hsome.
  cbv zeta in Hsome. fold m in Hsome.
  destruct (scanInv_scan (scannedIds (Z.of_N (getCleanupCounter env s))))
    as (_ & Hent & _). fold m in Hent.
  assert (Hstub : forall a b, totalDCUOf a = totalDCUOf b) by done.
  assert (Htot : forall kv kv', kv ∈ m -> kv' ∈ m ->
            ud_totalDCU kv.2 = ud_totalDCU kv'.2).
  { intros [a d] [a' d'] Hin Hin'. simpl.
    destruct (Hent _ _ Hin) as (_ & _ & ->).
    destruct (Hent _ _ Hin') as (_ & _ & ->). apply Hstub. }
  rewrite (sortByTotalDCU_equal_totals m Htot) in Hsome.
  split; [done |]. split; [| done].
  assert (Hu : forall u, u ∈ users ->
            exists kv, kv ∈ m /\ lu_totalDCU u = ud_totalDCU kv.2).
  { intros u (i & Hi)%list_elem_of_lookup_1. revert Hi.
    rewrite Hsome, list_lookup_imap.
    destruct (take 10 m !! i) as [kv |] eqn:Hk; [| done].
    intros [= <-]. exists kv. split; [| done].
    apply lookup_take_Some in Hk as [Hk _].
    by eapply list_elem_of_lookup_2. }
  intros u v (kv & Hkv & ->)%Hu (kv' & Hkv' & ->)%Hu. by apply Htot.
Qed.

End Board.

Lemma scan_reads_recent_window_witness :
  exists users,
    getLeaderboardData MoreScenarios.boardEnv 0%N MoreScenarios.mixed
      MoreScenarios.weiToNumber MoreScenarios.weiToNumber
      MoreScenarios.countryOf 100
    = Some users
    /\ length users = 2%nat.
Proof.
  destruct (scan_reads_recent_window MoreScenarios.boardEnv 0%N
              MoreScenarios.mixed MoreScenarios.weiToNumber
              MoreScenarios.weiToNumber MoreScenarios.countryOf 100 []
              (le_n 100))
    as (_ & _ & _ & users & Husers).
  exists users. split; [exact Husers |].
  revert Husers. vm_compute. intros [= <-]. reflexivity.
Defined.

Lemma leaderboard_shape_witness :
  let users :=
    [ {| lu_address := Scenario.alice;
         lu_totalDCU := MoreScenarios.weiToNumber 0;
         lu_country := Some "Germany"; lu_cleanups := 2; lu_rank := 1 |};
      {| lu_address := Scenario.bob;
         lu_totalDCU := MoreScenarios.weiToNumber 0;
         lu_country := None; lu_cleanups := 1; lu_rank := 2 |} ] in
  getLeaderboardData MoreScenarios.boardEnv 0%N MoreScenarios.mixed
    MoreScenarios.weiToNumber MoreScenarios.weiToNumber
    MoreScenarios.countryOf 100
  = Some users
  /\ NoDup (lu_address <$> users).
Proof.
  intros users.
  assert (H : getLeaderboardData MoreScenarios.boardEnv 0%N
                MoreScenarios.mixed MoreScenarios.weiToNumber
                MoreScenarios.weiToNumber MoreScenarios.countryOf 100
              = Some users) by (vm_compute; reflexivity).
  split; [exact H |].
  destruct (leaderboard_shape MoreScenarios.boardEnv 0%N
              MoreScenarios.mixed MoreScenarios.weiToNumber
              MoreScenarios.weiToNumber MoreScenarios.countryOf 100 users H)
    as (_ & _ & Hnd & _).
  exact Hnd.
Defined.

Lemma stub_balance_keeps_scan_order_witness :
  exists users,
    getLeaderboardData MoreScenarios.boardEnv 0%N MoreScenarios.mixed
      MoreScenarios.weiToNumber MoreScenarios.weiToNumber
      MoreScenarios.countryOf 100
    = Some users
    /\ lu_address <$> users = [Scenario.alice; Scenario.bob]
    /\ (forall u v, u ∈ users -> v ∈ users ->
          lu_totalDCU u = lu_totalDCU v).
Proof.
  eexists. split; [vm_compute; reflexivity |].
  split; [reflexivity |].
  match goal with
  | |- forall u v, u ∈ ?l -> _ =>
      assert (H : getLeaderboardData MoreScenarios.boardEnv 0%N
                    MoreScenarios.mixed MoreScenarios.weiToNumber
                    MoreScenarios.weiToNumber MoreScenarios.countryOf 100
                  = Some l) by (vm_compute; reflexivity);
      destruct (stub_balance_keeps_scan_order MoreScenarios.boardEnv 0%N
                  MoreScenarios.mixed MoreScenarios.weiToNumber
                  MoreScenarios.weiToNumber MoreScenarios.countryOf 100 l H)
        as (_ & Heq & _)
  end.
  exact Heq.
Defined.

End LeaderboardFacts.

(** ** Resetting the stored cleanup state *)

Module ResetCleanupFacts.
Import ResetCleanup.

Lemma pretty_N_go_nonempty (x : N) (acc : string) :
  acc <> "" -> pretty_N_go x acc <> "".
Proof.
  revert acc. induction (N.lt_wf_0 x) as [x _ IH]; intros acc Hacc.
  destruct (decide (x = 0%N)) as [-> | Hx].
  - by rewrite pretty_N_go_0.
  - rewrite pretty_N_go_step by lia. apply IH; [| done].
    apply N.div_lt; lia.
Qed.

Lemma pretty_Z_nonempty (n : Z) : pretty n <> "".
Proof.
  destruct n as [| q | q]; [done | |].
  - unfold pretty, pretty_Z, pretty, pretty_positive, pretty, pretty_N.
    rewrite decide_False by done.
    rewrite pretty_N_go_step by lia. by apply pretty_N_go_nonempty.
  - done.
Qed.

Lemma claimedKey_not_pendingKey (a b : string) :
  claimedKey a <> pendingKey b.
Proof. discriminate. Qed.

Lemma claimedKey_not_locationKey (a b : string) :
  claimedKey a <> locationKey b.
Proof. discriminate. Qed.

Lemma claimedKey_not_global (a : string) :
  claimedKey a <> "pending_cleanup_id"
  /\ claimedKey a <> "pending_cleanup_location"
  /\ claimedKey a <> "last_cleanup_location".
Proof. repeat split; discriminate. Qed.

Lemma pendingKey_inj (a b : string) : pendingKey a = pendingKey b -> a = b.
Proof. unfold pendingKey. apply (inj (String.app _)). Qed.

Lemma locationKey_inj (a b : string) :
  locationKey a = locationKey b -> a = b.
Proof. unfold locationKey. apply (inj (String.app _)). Qed.

Lemma claimedKey_inj (a b : string) : claimedKey a = claimedKey b -> a = b.
Proof. unfold claimedKey. apply (inj (String.app _)). Qed.

Lemma resetAll_lookup (userAddress : string) (st : gmap string string)
    (key : string) :
  resetAllCleanupState true userAddress st !! key
  = if decide (key ∈ [ pendingKey (toLowerCase userAddress);
                       locationKey (toLowerCase userAddress);
                       claimedKey (toLowerCase userAddress);
                       "last_cleanup_location"; "pending_cleanup_id";
                       "pending_cleanup_location" ])
    then None else st !! key.
Proof.
  unfold resetAllCleanupState. simpl. rewrite !lookup_delete.
  destruct (decide (key ∈ _)) as [Hin | Hin].
  - rewrite !elem_of_cons, elem_of_nil in Hin.
    repeat case_decide; try done. intuition congruence.
  - rewrite !not_elem_of_cons in Hin. destruct_and!.
    repeat case_decide; congruence.
Qed.

Section Json.

Variable parseArray : string -> option (list JsonElem).
Variable stringify : list JsonElem -> string.

Local Abbreviation resetCleanupState :=
  (resetCleanupState parseArray stringify).

Lemma reset_lookup (userAddress : string) (cleanupId : option CleanupId)
    (st : gmap string string) (key : string) :
  let a := toLowerCase userAddress in
  let idStr := cleanupIdStrOf cleanupId in
  resetCleanupState true userAddress cleanupId st !! key
  = if decide (key ∈ [ pendingKey a; locationKey a; "pending_cleanup_id";
                       "pending_cleanup_location";
                       "last_cleanup_location" ])
    then None
    else if decide (key = claimedKey a) then
      if decide (idStr = "") then None
      else
        match st !! claimedKey a with
        | Some claimedIds =>
            if decide (claimedIds = "") then Some claimedIds
            else
              match parseArray claimedIds with
              | Some parsed =>
                  if decide (withoutId idStr parsed = []) then None
                  else Some (stringify (withoutId idStr parsed))
              | None => None
              end
        | None => None
        end
    else st !! key.
Proof.
  intros a idStr. unfold ResetCleanup.resetCleanupState. simpl.
  fold a idStr.
  pose proof (claimedKey_not_pendingKey a a) as Hcp.
  pose proof (claimedKey_not_locationKey a a) as Hcl.
  destruct (claimedKey_not_global a) as (Hg1 & Hg2 & Hg3).
  assert (Hst2 : delete (locationKey a) (delete (pendingKey a) st)
                 !! claimedKey a = st !! claimedKey a).
  { by rewrite !lookup_delete_ne by done. }
  rewrite Hst2. rewrite !lookup_delete.
  destruct (decide (key ∈ _)) as [Hin | Hin].
  - rewrite !elem_of_cons, elem_of_nil in Hin.
    do 3 (case_decide; [done |]).
    assert (Hkey : key = pendingKey a \/ key = locationKey a)
      by intuition congruence.
    assert (Hne : claimedKey a <> key) by (destruct Hkey; congruence).
    repeat case_bool_decide; repeat case_match;
      rewrite ?lookup_insert_ne, ?lookup_delete by done;
      repeat case_decide; try done; intuition congruence.
  - rewrite !not_elem_of_cons in Hin. destruct_and!.
    do 3 (case_decide; [congruence |]).
    destruct (decide (key = claimedKey a)) as [-> | Hne].
    + destruct (decide (idStr = "")) as [He | He].
      { rewrite bool_decide_eq_true_2 by done. by rewrite lookup_delete_eq. }
      rewrite bool_decide_eq_false_2 by done.
      destruct (st !! claimedKey a) as [v |] eqn:Hv; [| done].
      destruct (decide (v = "")) as [Hv0 | Hv0].
      { by rewrite bool_decide_eq_true_2 by done. }
      rewrite bool_decide_eq_false_2 by done.
      destruct (parseArray v) as [parsed |];
        [| by rewrite lookup_delete_eq].
      destruct (decide (withoutId idStr parsed = [])) as [Hf | Hf].
      * rewrite bool_decide_eq_true_2 by done. by rewrite lookup_delete_eq.
      * rewrite bool_decide_eq_false_2 by done. by rewrite lookup_insert_eq.
    + repeat case_bool_decide; repeat case_match;
        rewrite ?lookup_insert_ne, ?lookup_delete by done;
        repeat case_decide; try done; congruence.
Qed.


Lemma withoutId_absent (cleanupIdStr : string) (parsed : list JsonElem) :
  JString cleanupIdStr ∉ parsed -> withoutId cleanupIdStr parsed = parsed.
Proof.
  unfold withoutId. induction parsed as [| e parsed IH]; [done |].
  intros [He Hrest]%not_elem_of_cons.
  rewrite filter_cons, decide_True by congruence. f_equal. by apply IH.
Qed.

(** X16: resetCleanupState called without a cleanup id (or with an empty
    one) does to the storage exactly what resetAllCleanupState does. *)
Theorem reset_without_id_is_reset_all (hasWindow : bool)
    (userAddress : string) (cleanupId : option CleanupId)
    (st : gmap string string) :
  cleanupIdStrOf cleanupId = "" ->
  resetCleanupState hasWindow userAddress cleanupId st
  = resetAllCleanupState hasWindow userAddress st.
Proof.
  intros He. destruct hasWindow; [| done].
  apply map_eq. intros key. rewrite reset_lookup, resetAll_lookup.
  cbv zeta. rewrite He. rewrite (decide_True (P := "" = "")) by done.
  repeat destruct (decide (key ∈ _)) as [? | ?];
    rewrite ?elem_of_cons, ?not_elem_of_cons, ?elem_of_nil in *;
    try case_decide; try done; intuition congruence.
Qed.

(** X17: resetCleanupState changes nothing outside the three keys of the
    given user and the three global keys: in particular the pending id,
    the pending location and the claimed list of a user with another
    address (compared in lower case) stay as they were. With a window, the
    user's pending id and pending location and the three global keys are
    absent afterwards. *)
Theorem reset_touches_only_own_keys (hasWindow : bool)
    (userAddress other : string) (cleanupId : option CleanupId)
    (st : gmap string string) :
  toLowerCase other <> toLowerCase userAddress ->
  let st' := resetCleanupState hasWindow userAddress cleanupId st in
  let a := toLowerCase userAddress in
  let b := toLowerCase other in
  st' !! pendingKey b = st !! pendingKey b
  /\ st' !! locationKey b = st !! locationKey b
  /\ st' !! claimedKey b = st !! claimedKey b
  /\ (forall key,
        key ∉ [ pendingKey a; locationKey a; claimedKey a;
                "pending_cleanup_id"; "pending_cleanup_location";
                "last_cleanup_location" ] ->
        st' !! key = st !! key)
  /\ (hasWindow = true ->
      forall key,
        key ∈ [ pendingKey a; locationKey a; "pending_cleanup_id";
                "pending_cleanup_location"; "last_cleanup_location" ] ->
        st' !! key = None).
Proof.
  intros Hne st' a b.
  assert (Hframe : forall key,
    key ∉ [ pendingKey a; locationKey a; claimedKey a;
            "pending_cleanup_id"; "pending_cleanup_location";
            "last_cleanup_location" ] ->
    st' !! key = st !! key).
  { intros key Hkey. subst st'. destruct hasWindow; [| done].
    rewrite reset_lookup. cbv zeta. fold a.
    rewrite !not_elem_of_cons in Hkey. destruct_and!.
    rewrite decide_False
      by (rewrite !not_elem_of_cons; repeat split; try done;
          apply not_elem_of_nil).
    by rewrite decide_False by done. }
  split; [| split; [| split; [| split; [exact Hframe |]]]].
  - apply Hframe. rewrite !not_elem_of_cons.
    repeat split; try discriminate; try apply not_elem_of_nil.
    intros Heq. by apply pendingKey_inj in Heq.
  - apply Hframe. rewrite !not_elem_of_cons.
    repeat split; try discriminate; try apply not_elem_of_nil.
    intros Heq. by apply locationKey_inj in Heq.
  - apply Hframe. rewrite !not_elem_of_cons.
    repeat split; try discriminate; try apply not_elem_of_nil.
    intros Heq. by apply claimedKey_inj in Heq.
  - intros -> key Hkey. subst st'. rewrite reset_lookup. cbv zeta.
    fold a. by rewrite decide_True by done.
Qed.

(** X18: resetCleanupState with a cleanup id and a stored, non-empty
    claimed list: when the list parses, the stored list becomes the parsed
    one without the entries equal to the id (kept in order, unchanged when
    the id is not in it), and the key is removed when nothing is left; when
    it does not parse, the key is removed. A bigint id, 0 included, always
    counts as given. *)
Theorem reset_with_id_filters_claimed_list (userAddress : string)
    (cleanupId : option CleanupId) (st : gmap string string)
    (claimedIds : string) :
  let a := toLowerCase userAddress in
  let idStr := cleanupIdStrOf cleanupId in
  let st' := resetCleanupState true userAddress cleanupId st in
  idStr <> "" ->
  st !! claimedKey a = Some claimedIds ->
  claimedIds <> "" ->
  match parseArray claimedIds with
  | Some parsed =>
      st' !! claimedKey a
      = (if decide (withoutId idStr parsed = []) then None
         else Some (stringify (withoutId idStr parsed)))
      /\ (forall e, e ∈ withoutId idStr parsed
                    <-> e ∈ parsed /\ e <> JString idStr)
      /\ (JString idStr ∉ parsed -> withoutId idStr parsed = parsed)
  | None => st' !! claimedKey a = None
  end
  /\ (forall n, cleanupIdStrOf (Some (IdBigint n)) <> "").
Proof.
  intros a idStr st' Hid Hst Hne.
  assert (Hlook : st' !! claimedKey a
    = match parseArray claimedIds with
      | Some parsed =>
          if decide (withoutId idStr parsed = []) then None
          else Some (stringify (withoutId idStr parsed))
      | None => None
      end).
  { subst st'. rewrite reset_lookup. cbv zeta. fold a idStr.
    destruct (claimedKey_not_global a) as (Hg1 & Hg2 & Hg3).
    rewrite decide_False.
    - rewrite decide_True by done. rewrite decide_False by done.
      rewrite Hst. by rewrite decide_False by done.
    - rewrite !not_elem_of_cons. repeat split; try done;
        try discriminate. apply not_elem_of_nil. }
  split; [| intros n; apply pretty_Z_nonempty].
  destruct (parseArray claimedIds) as [parsed |]; [| done].
  split; [done |]. split.
  - intros e. unfold withoutId. rewrite list_elem_of_filter. tauto.
  - apply withoutId_absent.
Qed.

End Json.

Lemma reset_without_id_is_reset_all_witness :
  resetCleanupState MoreScenarios.parseDemo MoreScenarios.stringifyDemo true
    "0xAbC" None MoreScenarios.storageDemo
  = resetAllCleanupState true "0xAbC" MoreScenarios.storageDemo
  /\ resetAllCleanupState true "0xAbC" MoreScenarios.storageDemo
     = {[ "pending_cleanup_id_0xdef" := "7" ]}.
Proof.
  assert (H : cleanupIdStrOf None = "") by reflexivity.
  split.
  - exact (reset_without_id_is_reset_all MoreScenarios.parseDemo
             MoreScenarios.stringifyDemo true "0xAbC" None
             MoreScenarios.storageDemo H).
  - vm_compute. reflexivity.
Defined.

Lemma reset_touches_only_own_keys_witness :
  toLowerCase "0xDEF" <> toLowerCase "0xAbC"
  /\ resetCleanupState MoreScenarios.parseDemo MoreScenarios.stringifyDemo
       true "0xAbC" (Some (IdBigint 1)) MoreScenarios.storageDemo
     !! pendingKey (toLowerCase "0xDEF")
     = MoreScenarios.storageDemo !! pendingKey (toLowerCase "0xDEF").
Proof.
  assert (H : toLowerCase "0xDEF" <> toLowerCase "0xAbC")
    by (vm_compute; discriminate).
  split; [exact H |].
  destruct (reset_touches_only_own_keys MoreScenarios.parseDemo
              MoreScenarios.stringifyDemo true "0xAbC" "0xDEF"
              (Some (IdBigint 1)) MoreScenarios.storageDemo H)
    as (Hpending & _).
  exact Hpending.
Defined.

Lemma reset_with_id_filters_claimed_list_witness :
  resetCleanupState MoreScenarios.parseDemo MoreScenarios.stringifyDemo true
    "0xAbC" (Some (IdBigint 1)) MoreScenarios.storageDemo
  !! claimedKey (toLowerCase "0xAbC")
  = Some "[2]".
Proof.
  assert (H1 : cleanupIdStrOf (Some (IdBigint 1)) <> "")
    by (vm_compute; discriminate).
  assert (H2 : MoreScenarios.storageDemo !! claimedKey (toLowerCase "0xAbC")
               = Some "[1,2]") by (vm_compute; reflexivity).
  assert (H3 : "[1,2]" <> "") by discriminate.
  destruct (reset_with_id_filters_claimed_list MoreScenarios.parseDemo
              MoreScenarios.stringifyDemo "0xAbC" (Some (IdBigint 1))
              MoreScenarios.storageDemo "[1,2]" H1 H2 H3) as [Hlist _].
  change (MoreScenarios.parseDemo "[1,2]")
    with (Some [JString "1"; JString "2"]) in Hlist.
  destruct Hlist as [Hlook _]. rewrite Hlook. vm_compute. reflexivity.
Defined.

End ResetCleanupFacts.

(** ** The metadata documents *)

Module MetadataFacts.
Import ImpactProduct ImpactProductIpfs.

Section Service.

Variable pinJSON : ImpactProductMetadata -> string -> option IPFSUploadResult.
Variable NEXT_PUBLIC_APP_URL : option string.

(** X19: createImpactProductMetadata called without cleanupsCompleted
    records the level as Cleanups Completed, but
    uploadImpactProductMetadata called without it sends a document that
    records 0, under the label impact-product-level-<level>, with the same
    name, image and animation. The animation URL is present exactly at
    level 10 with a non-empty animation hash. *)
Theorem upload_default_shadows_level_fallback (level : Z)
    (imageHash : string) (animationHash : option string) (w : World) :
  let direct :=
    createImpactProductMetadata NEXT_PUBLIC_APP_URL level imageHash
      animationHash None None in
  let sent :=
    (uploadImpactProductMetadata pinJSON NEXT_PUBLIC_APP_URL level
       imageHash animationHash None None w).2 in
  ("Cleanups Completed", VNumber level) ∈ attributes direct
  /\ (exists m,
        sent = w ++ [JSONUpload m ("impact-product-level-" +:+ pretty level)]
        /\ ("Cleanups Completed", VNumber 0) ∈ attributes m
        /\ (("Cleanups Completed", VNumber level) ∈ attributes m ->
            level = 0)
        /\ name m = name direct
        /\ image m = image direct
        /\ animation_url m = animation_url direct)
  /\ (forall u,
        animation_url direct = Some u
        <-> level = 10
            /\ exists h, animationHash = Some h /\ h <> ""
                         /\ u = "ipfs://" +:+ h).
Proof.
  intros direct sent. split; [| split].
  - subst direct. simpl. rewrite !elem_of_cons. auto 10.
  - subst sent. unfold uploadImpactProductMetadata, bind, uploadJSONToIPFS.
    eexists. split.
    { destruct (pinJSON _ _); reflexivity. }
    split; [simpl; rewrite !elem_of_cons; auto 10 |].
    split; [| done].
    simpl. rewrite !elem_of_cons, elem_of_nil.
    intros H. repeat (destruct H as [H | H]); try done.
    by injection H.
  - intros u. subst direct. simpl.
    destruct (Z.eqb_spec level 10) as [-> | Hne].
    + destruct animationHash as [h |].
      * case_bool_decide as Hh.
        -- split; [done |]. intros (_ & h' & [= <-] & Hne & _). done.
        -- split.
           ++ intros [= <-]. eauto.
           ++ intros (_ & h' & [= <-] & _ & ->). done.
      * split; [done |]. intros (_ & h' & Hh & _). done.
    + split; [done |]. intros (Hl & _). done.
Qed.

End Service.

Lemma upload_default_shadows_level_fallback_witness :
  exists m,
    (uploadImpactProductMetadata Scenario.pinAllJSON None 3 "QmImage" None
       None None []).2
    = [JSONUpload m "impact-product-level-3"]
    /\ ("Cleanups Completed", VNumber 0) ∈ attributes m
    /\ ("Cleanups Completed", VNumber 3)
       ∈ attributes
           (createImpactProductMetadata None 3 "QmImage" None None None).
Proof.
  destruct (upload_default_shadows_level_fallback Scenario.pinAllJSON None
              3 "QmImage" None [])
    as (Hdirect & (m & Hsent & Hzero & _) & _).
  exists m. split; [exact Hsent |]. split; [exact Hzero | exact Hdirect].
Defined.

End MetadataFacts.

(** ** Contract verification against the deployment *)

Module DeploymentFacts.
Import Deployment.

(** X20: the constructor arguments verify-contracts.ts derives from the
    recorded addresses are those the Ignition module DCUContracts deploys
    with for DCUToken, ImpactProductNFT and Submission; for DCURewardManager
    they agree only when the recorded ImpactProductNFT address is the zero
    address, because the module deploys it with the zero placeholder. The
    module does not deploy RecyclablesReward. *)
Theorem verification_args_vs_deployment (MINTER_ROLE : string)
    (deployedAddresses : gmap string string) :
  let steps := DCUContracts MINTER_ROLE in
  deployedWith steps deployedAddresses "DCUToken"
  = Some (getConstructorArgs "DCUToken" deployedAddresses)
  /\ deployedWith steps deployedAddresses "ImpactProductNFT"
     = Some (getConstructorArgs "ImpactProductNFT" deployedAddresses)
  /\ deployedWith steps deployedAddresses "Submission"
     = Some (getConstructorArgs "Submission" deployedAddresses)
  /\ (deployedWith steps deployedAddresses "DCURewardManager"
      = Some (getConstructorArgs "DCURewardManager" deployedAddresses)
      <-> deployedAddresses !! "ImpactProductNFT"
          = Some "0x0000000000000000000000000000000000000000")
  /\ deployedWith steps deployedAddresses "RecyclablesReward" = None.
Proof.
  intros steps. subst steps.
  unfold deployedWith, getConstructorArgs, DCUContracts.
  cbv -[lookup]. repeat split.
  - by intros [= <-].
  - by intros ->.
Qed.

(** X21: the contracts main verifies are those of DCUToken,
    ImpactProductNFT, DCURewardManager, Submission and RecyclablesReward
    that have a non-empty recorded address, in this order, each with its
    recorded address and the arguments of getConstructorArgs; at most
    five. *)
Theorem contracts_to_verify_shape (deployedAddresses : gmap string string) :
  let l := contractsToVerify deployedAddresses in
  name <$> l
  = filter (fun n => truthy (deployedAddresses !! n) = true)
      [ "DCUToken"; "ImpactProductNFT"; "DCURewardManager"; "Submission";
        "RecyclablesReward" ]
  /\ (forall c, c ∈ l ->
        address c = deployedAddresses !! name c
        /\ truthy (address c) = true
        /\ constructorArgs c
           = getConstructorArgs (name c) deployedAddresses)
  /\ (length l <= 5)%nat.
Proof.
  intros l. subst l. unfold contractsToVerify.
  cbn [List.filter address].
  rewrite !filter_cons, filter_nil.
  destruct (truthy (deployedAddresses !! "DCUToken")) eqn:H1,
    (truthy (deployedAddresses !! "ImpactProductNFT")) eqn:H2,
    (truthy (deployedAddresses !! "DCURewardManager")) eqn:H3,
    (truthy (deployedAddresses !! "Submission")) eqn:H4,
    (truthy (deployedAddresses !! "RecyclablesReward")) eqn:H5;
    rewrite ?decide_True, ?decide_False by done;
    (split; [reflexivity |]); (split; [| simpl; lia]);
    intros c Hc;
    rewrite ?elem_of_app, ?elem_of_cons, ?elem_of_nil in Hc;
    repeat (destruct Hc as [Hc | Hc]); try done; subst c; simpl; done.
Qed.


Lemma verification_args_vs_deployment_witness :
  deployedWith (DCUContracts "0xrole") MoreScenarios.recorded
    "DCURewardManager"
  = Some [Some "0x01"; Some "0x0000000000000000000000000000000000000000"]
  /\ getConstructorArgs "DCURewardManager" MoreScenarios.recorded
     = [Some "0x01"; Some "0x03"]
  /\ deployedWith (DCUContracts "0xrole") MoreScenarios.recorded
       "DCURewardManager"
     <> Some (getConstructorArgs "DCURewardManager" MoreScenarios.recorded).
Proof.
  split; [vm_compute; reflexivity |]. split; [vm_compute; reflexivity |].
  destruct (verification_args_vs_deployment "0xrole" MoreScenarios.recorded)
    as (_ & _ & _ & [Hzero _] & _).
  intros Heq. apply Hzero in Heq. revert Heq. vm_compute. discriminate.
Defined.

Lemma contracts_to_verify_shape_witness :
  name <$> contractsToVerify MoreScenarios.recorded
  = ["DCUToken"; "ImpactProductNFT"; "DCURewardManager"; "Submission"].
Proof.
  destruct (contracts_to_verify_shape MoreScenarios.recorded) as [Hnames _].
  rewrite Hnames. vm_compute. reflexivity.
Defined.

End DeploymentFacts.

(** ** The required chain *)

Module WagmiFacts.
Import Wagmi.

Section Env.

Variable NEXT_PUBLIC_RPC_URL : option string.
Variable NEXT_PUBLIC_SEPOLIA_RPC_URL : option string.
Variable NEXT_PUBLIC_CHAIN_ID : option string.
Variable Number : string -> option Z.
Variable celo : Chain.

Local Abbreviation requiredChainId :=
  (requiredChainId NEXT_PUBLIC_CHAIN_ID Number).
Local Abbreviation requiredChain :=
  (requiredChain NEXT_PUBLIC_CHAIN_ID Number celo).
Local Abbreviation REQUIRED_CHAIN_ID :=
  (REQUIRED_CHAIN_ID NEXT_PUBLIC_CHAIN_ID Number).
Local Abbreviation REQUIRED_CHAIN_NAME :=
  (REQUIRED_CHAIN_NAME NEXT_PUBLIC_CHAIN_ID Number celo).
Local Abbreviation REQUIRED_CHAIN_IS_TESTNET :=
  (REQUIRED_CHAIN_IS_TESTNET NEXT_PUBLIC_CHAIN_ID Number celo).
Local Abbreviation REQUIRED_BLOCK_EXPLORER_URL :=
  (REQUIRED_BLOCK_EXPLORER_URL NEXT_PUBLIC_CHAIN_ID Number celo).
Local Abbreviation REQUIRED_RPC_URL :=
  (REQUIRED_RPC_URL NEXT_PUBLIC_RPC_URL NEXT_PUBLIC_SEPOLIA_RPC_URL
     NEXT_PUBLIC_CHAIN_ID Number celo).

Lemma requiredChain_cases :
  requiredChain
  = if decide (requiredChainId = Some 11142220) then celoSepoliaChain
    else if decide (requiredChainId = Some (id celo)) then celoMainnet celo
    else celoSepoliaChain.
Proof.
  unfold Wagmi.requiredChain, configuredChains, celoMainnet. simpl.
  destruct (decide (requiredChainId = Some 11142220)) as [-> | Hs].
  - done.
  - rewrite bool_decide_eq_false_2 by done.
    destruct (decide (requiredChainId = Some (id celo))) as [-> | Hc].
    + by rewrite bool_decide_eq_true_2.
    + by rewrite bool_decide_eq_false_2.
Qed.

(** X22: with the Celo mainnet id different from 11142220: without
    NEXT_PUBLIC_CHAIN_ID, or with the Sepolia id, the required chain, RPC
    URL and explorer are those of Celo Sepolia; with the mainnet id they
    are those of mainnet; with any other value the chain, its name, the
    testnet flag, the RPC URL and the explorer silently fall back to Celo
    Sepolia, while REQUIRED_CHAIN_ID still exports the other id. *)
Theorem unsupported_chain_id_falls_back_to_sepolia :
  id celo <> 11142220 ->
  (requiredChainId = Some 11142220 \/ NEXT_PUBLIC_CHAIN_ID = None ->
   REQUIRED_CHAIN_ID = Some 11142220
   /\ requiredChain = celoSepoliaChain
   /\ REQUIRED_RPC_URL
      = celoSepoliaRpcUrl NEXT_PUBLIC_SEPOLIA_RPC_URL
   /\ REQUIRED_BLOCK_EXPLORER_URL = "https://celo-sepolia.blockscout.com")
  /\ (requiredChainId = Some (id celo) ->
      requiredChain = celoMainnet celo
      /\ REQUIRED_RPC_URL = celoMainnetRpcUrl NEXT_PUBLIC_RPC_URL
      /\ REQUIRED_BLOCK_EXPLORER_URL = "https://celoscan.io")
  /\ (requiredChainId <> Some 11142220 ->
      requiredChainId <> Some (id celo) ->
      requiredChain = celoSepoliaChain
      /\ REQUIRED_CHAIN_NAME = "Celo Sepolia Testnet"
      /\ REQUIRED_CHAIN_IS_TESTNET = true
      /\ REQUIRED_RPC_URL
         = celoSepoliaRpcUrl NEXT_PUBLIC_SEPOLIA_RPC_URL
      /\ REQUIRED_BLOCK_EXPLORER_URL
         = "https://celo-sepolia.blockscout.com"
      /\ REQUIRED_CHAIN_ID <> Some (id requiredChain)).
Proof.
  intros Hcelo.
  assert (Hsep : requiredChain = celoSepoliaChain ->
    REQUIRED_RPC_URL = celoSepoliaRpcUrl NEXT_PUBLIC_SEPOLIA_RPC_URL
    /\ REQUIRED_BLOCK_EXPLORER_URL = "https://celo-sepolia.blockscout.com"
    /\ REQUIRED_CHAIN_NAME = "Celo Sepolia Testnet"
    /\ REQUIRED_CHAIN_IS_TESTNET = true).
  { intros Hr.
    unfold Wagmi.REQUIRED_RPC_URL, Wagmi.REQUIRED_BLOCK_EXPLORER_URL,
      Wagmi.REQUIRED_CHAIN_NAME, Wagmi.REQUIRED_CHAIN_IS_TESTNET,
      requiredRpcUrl, requiredBlockExplorerUrl, requiredChainLabel.
    rewrite Hr. unfold celoMainnet.
    change (id celoSepoliaChain) with 11142220.
    rewrite (proj2 (Z.eqb_neq 11142220 (id celo))) by congruence.
    done. }
  split; [| split].
  - intros H.
    assert (Hid : requiredChainId = Some 11142220).
    { destruct H as [H | H]; [done |].
      unfold Wagmi.requiredChainId. by rewrite H. }
    assert (Hr : requiredChain = celoSepoliaChain).
    { rewrite requiredChain_cases. by rewrite decide_True. }
    destruct (Hsep Hr) as (? & ? & _). done.
  - intros Hid.
    assert (Hr : requiredChain = celoMainnet celo).
    { rewrite requiredChain_cases.
      rewrite decide_False by (rewrite Hid; congruence).
      by rewrite decide_True. }
    split; [done |].
    unfold Wagmi.REQUIRED_RPC_URL, Wagmi.REQUIRED_BLOCK_EXPLORER_URL,
      requiredRpcUrl, requiredBlockExplorerUrl.
    rewrite Hr. by rewrite Z.eqb_refl.
  - intros Hns Hnc.
    assert (Hr : requiredChain = celoSepoliaChain).
    { rewrite requiredChain_cases. by rewrite !decide_False. }
    destruct (Hsep Hr) as (? & ? & ? & ?).
    repeat split; try done. rewrite Hr. exact Hns.
Qed.

End Env.

Lemma unsupported_chain_id_falls_back_to_sepolia_witness :
  let celo := {| id := 42220; name := "Celo"; testnet := None |} in
  let Number := fun str : string =>
                  if bool_decide (str = "1") then Some 1 else None in
  REQUIRED_CHAIN_ID (Some "1") Number = Some 1
  /\ REQUIRED_RPC_URL None None (Some "1") Number celo
     = "https://forno.celo-sepolia.celo-testnet.org"
  /\ REQUIRED_CHAIN_NAME (Some "1") Number celo = "Celo Sepolia Testnet".
Proof.
  intros celo Number.
  assert (Hcelo : id celo <> 11142220) by discriminate.
  assert (Hns : requiredChainId (Some "1") Number <> Some 11142220)
    by discriminate.
  assert (Hnc : requiredChainId (Some "1") Number <> Some (id celo))
    by discriminate.
  destruct (unsupported_chain_id_falls_back_to_sepolia None None
              (Some "1") Number celo Hcelo) as (_ & _ & Hfall).
  destruct (Hfall Hns Hnc) as (_ & Hname & _ & Hrpc & _ & _).
  split; [reflexivity |]. split; [exact Hrpc | exact Hname].
Defined.

End WagmiFacts.
